(** * TransactionCallbackInvoker: a shallow embedding

    Source: services/surfaceflinger/TransactionCallbackInvoker.cpp

    The dispatcher keeps three tables under one mutex
    ([mRegisteringTransactions], [mPendingTransactions],
    [mCompletedTransactions]) and one slot ([mPresentFence]).  Every public
    method takes the mutex for its whole body, so each method is embedded as
    one atomic function on the dispatcher state.  Calls into the binder
    ([linkToDeath], [unlinkToDeath], [isBinderAlive],
    [onTransactionCompleted]) and the log are recorded in an effect list. *)

From Stdlib Require Import ZArith String.
From stdpp Require Import base numbers option list sorting gmap fin_maps pretty.

Local Open Scope Z_scope.

(** ** Outcome of code that can leave defined behaviour *)

Inductive Result (A : Type) : Type :=
| Ret (a : A)
| UB.
Arguments Ret {A} a.
Arguments UB {A}.

(** ** Data model *)

(** [sp<IBinder>]: compared by pointer identity. *)
Abbreviation Listener := nat (only parsing).
Abbreviation SurfaceControl := nat (only parsing).
Abbreviation Fence := nat (only parsing).

(** [status_t] with the two constants of utils/Errors.h used here. *)
Abbreviation status_t := Z (only parsing).
Definition NO_ERROR : status_t := 0.
Definition BAD_VALUE : status_t := -22.

Inductive CallbackType : Type :=
| ON_COMPLETE
| ON_COMMIT.

(** Modelled from the spec: the declaration of [CallbackId] lives in a header
    that is not among the sources; the spec describes an id sequence as an
    "ordered sequence of small integer ids identifying which callback slots
    (e.g., on-commit vs on-complete) a transaction requested".  The source
    reads the two members [id] and [type].  [id] is taken as a signed 64-bit
    integer (the widest reading of "integer"); arithmetic on it is written
    out with its range. *)
Record CallbackId : Type := mkCallbackId {
  id : Z;
  type : CallbackType
}.

#[global] Instance CallbackType_eq_dec : EqDecision CallbackType.
Proof. solve_decision. Defined.

#[global] Instance CallbackId_eq_dec : EqDecision CallbackId.
Proof. solve_decision. Defined.

#[global] Instance CallbackType_countable : Countable CallbackType.
Proof.
  refine (inj_countable' (λ t, match t with ON_COMPLETE => false | ON_COMMIT => true end)
                         (λ b : bool, if b then ON_COMMIT else ON_COMPLETE) _).
  by intros [].
Defined.

#[global] Instance CallbackId_countable : Countable CallbackId.
Proof.
  refine (inj_countable' (λ c, (id c, type c)) (λ p, mkCallbackId p.1 p.2) _).
  by intros [].
Defined.

(** The range of [int64_t] and the conversion of a 64-bit value to [int]
    (the return type of [compareCallbackIds]; the source silences
    -Wconversion). *)
Definition in_int64 (z : Z) : bool := (- 2 ^ 63 <=? z) && (z <? 2 ^ 63).

Definition to_int (z : Z) : Z :=
  let m := z mod 2 ^ 32 in
  if m <? 2 ^ 31 then m else m - 2 ^ 32.

(** [static int compareCallbackIds(c1, c2)].
    [c2.front()] on an empty vector and signed overflow of the subtraction
    are undefined behaviour. *)
Definition compareCallbackIds (c1 c2 : list CallbackId) : Result Z :=
  match c1 with
  | [] => Ret (match c2 with [] => 0 | _ :: _ => 1 end)
  | a :: _ =>
      match c2 with
      | [] => UB
      | b :: _ =>
          let d := id a - id b in
          if in_int64 d then Ret (to_int d) else UB
      end
  end.

(** [static bool containsOnCommitCallbacks(callbacks)]. *)
Definition containsOnCommitCallbacks (callbacks : list CallbackId) : bool :=
  match callbacks with
  | [] => false
  | c :: _ => bool_decide (type c = ON_COMMIT)
  end.

(** ** Records of the notification payload *)

Abbreviation JankData := nat (only parsing).

Module FrameEventHistoryStats.
Record t : Type := mk {
  frameNumber : Z;
  gpuCompositionDoneFence : option Fence;
  compositorTiming : Z;
  refreshStartTime : Z;
  dequeueReadyTime : Z
}.
End FrameEventHistoryStats.

Module SurfaceStats.
Record t : Type := mk {
  surfaceControl : SurfaceControl;
  acquireTime : Z;
  previousReleaseFence : option Fence;
  transformHint : Z;
  currentMaxAcquiredBufferCount : Z;
  eventStats : FrameEventHistoryStats.t;
  jankData : list JankData;
  previousReleaseCallbackId : Z
}.
End SurfaceStats.

(** [TransactionStats]: one ledger entry.  [latchTime] is -1 until the
    transaction is latched (the source tests [latchTime >= 0]),
    [presentFence] is null until dispatch attaches the present fence.

    [serial] is ghost: it stands for the identity of the C++ object, which a
    value in a list does not have.  It is the number of deque entries created
    before this one.  The methods copy it and never test it
    ([ghost_serials_erasable]). *)
Record TransactionStats : Type := mkTransactionStats {
  callbackIds : list CallbackId;
  latchTime : Z;
  presentFence : option Fence;
  surfaceStats : list SurfaceStats.t;
  serial : nat
}.

(** [CallbackHandle]: one unit of work.  [surfaceControl] is the outcome of
    [promote()] on the weak pointer at the time the handle is folded:
    [None] when the surface control has been destroyed. *)
Module CallbackHandle.
Record t : Type := mk {
  listener : Listener;
  callbackIds : list CallbackId;
  surfaceControl : option SurfaceControl;
  acquireTime : Z;
  previousReleaseFence : option Fence;
  latchTime : Z;
  transformHint : Z;
  currentMaxAcquiredBufferCount : Z;
  gpuCompositionDoneFence : option Fence;
  compositorTiming : Z;
  refreshStartTime : Z;
  dequeueReadyTime : Z;
  frameNumber : Z;
  previousReleaseCallbackId : Z
}.
End CallbackHandle.

(** [ListenerCallbacks]: the source destructures it as
    [auto& [listener, callbackIds]]. *)
Abbreviation ListenerCallbacks := (nat * list CallbackId)%type (only parsing).

(** Modelled from the spec: [ListenerCallbacks::operator==], the equality of
    the registration set, is declared in a header that is not among the
    sources.  The spec: listener "equality is identity-based", and "two id
    sequences are equal iff their leading elements are equal; ... one is
    empty where the other is not" makes them differ. *)
Definition sameListenerCallbacks (a b : ListenerCallbacks) : bool :=
  bool_decide (a.1 = b.1) &&
  match a.2, b.2 with
  | [], [] => true
  | x :: _, y :: _ => bool_decide (id x = id y)
  | _, _ => false
  end.

(** ** Effects *)

Inductive Effect : Type :=
| LinkToDeath (listener : Listener) (err : status_t)
| UnlinkToDeath (listener : Listener)
| OnTransactionCompleted (listener : Listener) (transactionStats : list TransactionStats)
| ALOGE (msg : string)
| ALOGW (msg : string).

(** ** Dispatcher state *)

(** Modelled from the spec: the members are declared in the class header,
    which is not among the sources.  The spec describes them: the
    registration set is "the set of (ListenerId, CallbackSetId) pairs
    currently between startRegistration and endRegistration"; the pending
    count is a "per (ListenerId, CallbackSetId) integer"; the ledger is a
    "per-listener, ordered sequence of in-flight transactions"; the
    presentation signal is "one value".  They are embedded as the source uses
    them ([insert], [find], [count], [erase], [operator[]], iteration).  The
    pending table is keyed by the vector of callback ids, compared element by
    element; its counts are [uint32_t]. *)
Record State : Type := mkState {
  (** [std::unordered_set<ListenerCallbacks>], kept without duplicates under
      [sameListenerCallbacks]. *)
  mRegisteringTransactions : list ListenerCallbacks;
  (** listener -> callback ids -> [uint32_t] count. *)
  mPendingTransactions : gmap nat (gmap (list CallbackId) Z);
  (** listener -> [std::deque<TransactionStats>], front first. *)
  mCompletedTransactions : gmap nat (list TransactionStats);
  (** [sp<Fence>], null when no frame has been presented in this cycle. *)
  mPresentFence : option Fence;
  (** ghost: the next value of [serial]. *)
  mNextSerial : nat
}.

Definition initial : State := mkState [] ∅ ∅ None 0.

(** What a method leaves behind: its return value, the state, the effects. *)
Record Out (A : Type) : Type := mkOut {
  value : A;
  state : State;
  effects : list Effect
}.
Arguments mkOut {A} value state effects.
Arguments value {A} o.
Arguments state {A} o.
Arguments effects {A} o.

Definition withRegistering (s : State) r : State :=
  mkState r (mPendingTransactions s) (mCompletedTransactions s) (mPresentFence s) (mNextSerial s).
Definition withPending (s : State) p : State :=
  mkState (mRegisteringTransactions s) p (mCompletedTransactions s) (mPresentFence s) (mNextSerial s).
Definition withCompleted (s : State) c : State :=
  mkState (mRegisteringTransactions s) (mPendingTransactions s) c (mPresentFence s) (mNextSerial s).
Definition withPresentFence (s : State) f : State :=
  mkState (mRegisteringTransactions s) (mPendingTransactions s) (mCompletedTransactions s) f (mNextSerial s).

(** ** Registration *)

(** [mRegisteringTransactions.find(lc) != end()]. *)
Definition set_contains (lc : ListenerCallbacks) (set : list ListenerCallbacks) : bool :=
  existsb (sameListenerCallbacks lc) set.

(** [mRegisteringTransactions.erase(itr)] for the element found by [find]. *)
Fixpoint set_erase (lc : ListenerCallbacks) (set : list ListenerCallbacks)
  : list ListenerCallbacks :=
  match set with
  | [] => []
  | x :: rest => if sameListenerCallbacks lc x then rest else x :: set_erase lc rest
  end.

(** [TransactionStats(callbackIds)] as built by [emplace_back]. *)
Definition newTransactionStats (ids : list CallbackId) (n : nat) : TransactionStats :=
  mkTransactionStats ids (-1) None [] n.

(** The listener's deque; empty when the listener has no entry. *)
Definition dequeOf (s : State) (listener : Listener) : list TransactionStats :=
  default [] (mCompletedTransactions s !! listener).

(** The state of [startRegistration] past the insertion into the registration
    set and past
    [mCompletedTransactions[listener].emplace_back(callbackIds)]. *)
Definition registered (s : State) (listener : Listener) (callbackIds : list CallbackId)
  : State :=
  mkState (mRegisteringTransactions s ++ [(listener, callbackIds)])
          (mPendingTransactions s)
          (<[listener := dequeOf s listener
                         ++ [newTransactionStats callbackIds (mNextSerial s)]]>
             (mCompletedTransactions s))
          (mPresentFence s) (S (mNextSerial s)).

(** [startRegistration]; [linkToDeath] is the binder's answer.  [inserted] is
    the second component of [mRegisteringTransactions.insert].  The error
    log carries the status in decimal, as the format [%d] prints it. *)
Definition startRegistration (linkToDeath : Listener → status_t)
    (listenerCallbacks : ListenerCallbacks) (s : State) : Out status_t :=
  let '(listener, callbackIds) := listenerCallbacks in
  let inserted := negb (set_contains listenerCallbacks (mRegisteringTransactions s)) in
  if inserted then
    match mCompletedTransactions s !! listener with
    | None =>
        let err := linkToDeath listener in
        if bool_decide (err ≠ NO_ERROR) then
          mkOut err
                (withRegistering s (mRegisteringTransactions s ++ [listenerCallbacks]))
                [LinkToDeath listener err;
                 ALOGE ("cannot add callback because linkToDeath failed, err: "
                        +:+ pretty err)]
        else mkOut NO_ERROR (registered s listener callbackIds) [LinkToDeath listener err]
    | Some _ => mkOut NO_ERROR (registered s listener callbackIds) []
    end
  else mkOut NO_ERROR s [].

(** [endRegistration]. *)
Definition endRegistration (listenerCallbacks : ListenerCallbacks) (s : State)
  : Out status_t :=
  if set_contains listenerCallbacks (mRegisteringTransactions s) then
    mkOut NO_ERROR
          (withRegistering s (set_erase listenerCallbacks (mRegisteringTransactions s))) []
  else
    mkOut BAD_VALUE s [ALOGE "cannot end a registration that does not exist"].

(** [isRegisteringTransaction]. *)
Definition isRegisteringTransaction (s : State) (transactionListener : Listener)
    (callbackIds : list CallbackId) : bool :=
  set_contains (transactionListener, callbackIds) (mRegisteringTransactions s).

(** ** Looking a transaction up *)

(** [mCompletedTransactions[listener]]: [operator[]] creates an empty deque
    for a listener that has no entry. *)
Definition subscript (listener : Listener) (s : State) : State :=
  match mCompletedTransactions s !! listener with
  | Some _ => s
  | None => withCompleted s (<[listener := []]> (mCompletedTransactions s))
  end.

(** The loop of [findTransactionStats] over the reverse iterators: [rdeque]
    is the deque back to front.  The answer is the position, counted from the
    front of the deque, of the entry the out-pointer is set to. *)
Fixpoint searchBackToFront (callbackIds0 : list CallbackId)
    (rdeque : list TransactionStats) : Result (option nat) :=
  match rdeque with
  | [] => Ret None
  | itr :: older =>
      match compareCallbackIds (callbackIds itr) callbackIds0 with
      | UB => UB
      | Ret c =>
          if c =? 0 then Ret (Some (length older))
          else searchBackToFront callbackIds0 older
      end
  end.

(** [findTransactionStats]: [Some i] is NO_ERROR with the out-pointer at
    entry [i] of the listener's deque, [None] is BAD_VALUE. *)
Definition findTransactionStats (listener : Listener) (callbackIds0 : list CallbackId)
    (s : State) : Result (Out (option nat)) :=
  let s1 := subscript listener s in
  match searchBackToFront callbackIds0 (reverse (dequeOf s1 listener)) with
  | UB => UB
  | Ret (Some i) => Ret (mkOut (Some i) s1 [])
  | Ret None => Ret (mkOut None s1 [ALOGE "could not find transaction stats"])
  end.

(** ** Pending-work counter *)

(** [uint32_t] arithmetic. *)
Definition uint32 (z : Z) : Z := z mod 2 ^ 32.

(** [registerPendingCallbackHandle]. *)
Definition registerPendingCallbackHandle (handle : CallbackHandle.t) (s : State)
  : Result (Out status_t) :=
  let listener := CallbackHandle.listener handle in
  let ids := CallbackHandle.callbackIds handle in
  match findTransactionStats listener ids s with
  | UB => UB
  | Ret (mkOut None s1 effs) =>
      Ret (mkOut BAD_VALUE s1 (effs ++ [ALOGE "cannot find transaction stats"]))
  | Ret (mkOut (Some _) s1 effs) =>
      let pendingCallbacks := default ∅ (mPendingTransactions s1 !! listener) in
      let pendingCount := default 0 (pendingCallbacks !! ids) in
      Ret (mkOut NO_ERROR
             (withPending s1
                (<[listener := <[ids := uint32 (pendingCount + 1)]> pendingCallbacks]>
                   (mPendingTransactions s1)))
             effs)
  end.

(** ** Completion aggregator *)

Definition eventStatsOf (handle : CallbackHandle.t) : FrameEventHistoryStats.t :=
  FrameEventHistoryStats.mk
    (CallbackHandle.frameNumber handle)
    (CallbackHandle.gpuCompositionDoneFence handle)
    (CallbackHandle.compositorTiming handle)
    (CallbackHandle.refreshStartTime handle)
    (CallbackHandle.dequeueReadyTime handle).

Definition surfaceStatsOf (surfaceControl : SurfaceControl) (handle : CallbackHandle.t)
    (jankData : list JankData) : SurfaceStats.t :=
  SurfaceStats.mk surfaceControl
    (CallbackHandle.acquireTime handle)
    (CallbackHandle.previousReleaseFence handle)
    (CallbackHandle.transformHint handle)
    (CallbackHandle.currentMaxAcquiredBufferCount handle)
    (eventStatsOf handle) jankData
    (CallbackHandle.previousReleaseCallbackId handle).

(** The writes of [addCallbackHandle] through the out-pointer. *)
Definition foldHandle (handle : CallbackHandle.t) (jankData : list JankData)
    (transactionStats : TransactionStats) : TransactionStats :=
  mkTransactionStats
    (callbackIds transactionStats)
    (CallbackHandle.latchTime handle)
    (presentFence transactionStats)
    (match CallbackHandle.surfaceControl handle with
     | Some surfaceControl =>
         surfaceStats transactionStats ++ [surfaceStatsOf surfaceControl handle jankData]
     | None => surfaceStats transactionStats
     end)
    (serial transactionStats).

(** [addCallbackHandle]. *)
Definition addCallbackHandle (handle : CallbackHandle.t) (jankData : list JankData)
    (s : State) : Result (Out status_t) :=
  let listener := CallbackHandle.listener handle in
  match findTransactionStats listener (CallbackHandle.callbackIds handle) s with
  | UB => UB
  | Ret (mkOut None s1 effs) => Ret (mkOut BAD_VALUE s1 effs)
  | Ret (mkOut (Some i) s1 effs) =>
      Ret (mkOut NO_ERROR
             (withCompleted s1
                (<[listener := alter (foldHandle handle jankData) i (dequeOf s1 listener)]>
                   (mCompletedTransactions s1)))
             effs)
  end.

(** The first half of [finalizeCallbackHandle]: the pending tables after the
    decrement, and the warnings. *)
Definition decrementPending (listener : Listener) (ids : list CallbackId)
    (pending : gmap nat (gmap (list CallbackId) Z))
  : gmap nat (gmap (list CallbackId) Z) * list Effect :=
  match pending !! listener with
  | Some pendingCallbacks =>
      let '(pendingCallbacks', effs) :=
        match pendingCallbacks !! ids with
        | Some pendingCount =>
            let pendingCount' := uint32 (pendingCount - 1) in
            if pendingCount' =? 0 then (delete ids pendingCallbacks, [])
            else (<[ids := pendingCount']> pendingCallbacks, [])
        | None =>
            (pendingCallbacks,
             [ALOGW "there are more latched callbacks than there were registered callbacks"])
        end in
      if (size pendingCallbacks' =? 0)%nat then (delete listener pending, effs)
      else (<[listener := pendingCallbacks']> pending, effs)
  | None => (pending, [ALOGW "cannot find listener in mPendingTransactions"])
  end.

(** [finalizeCallbackHandle]. *)
Definition finalizeCallbackHandle (handle : CallbackHandle.t) (jankData : list JankData)
    (s : State) : Result (Out status_t) :=
  let '(pending', effs) :=
    decrementPending (CallbackHandle.listener handle) (CallbackHandle.callbackIds handle)
                     (mPendingTransactions s) in
  match addCallbackHandle handle jankData (withPending s pending') with
  | UB => UB
  | Ret (mkOut err s2 effs2) =>
      if bool_decide (err ≠ NO_ERROR) then
        Ret (mkOut err s2 (effs ++ effs2 ++ [ALOGE "could not add callback handle"]))
      else Ret (mkOut NO_ERROR s2 (effs ++ effs2))
  end.

(** [finalizeOnCommitCallbackHandles]: the value carries the status and
    [outRemainingHandles] (the handles pushed by this call). *)
Fixpoint finalizeOnCommitCallbackHandles (handles : list CallbackHandle.t) (s : State)
  : Result (Out (status_t * list CallbackHandle.t)) :=
  match handles with
  | [] => Ret (mkOut (NO_ERROR, []) s [])
  | handle :: rest =>
      if negb (containsOnCommitCallbacks (CallbackHandle.callbackIds handle)) then
        match finalizeOnCommitCallbackHandles rest s with
        | UB => UB
        | Ret (mkOut (err, remaining) s' effs) =>
            Ret (mkOut (err, handle :: remaining) s' effs)
        end
      else
        match finalizeCallbackHandle handle [] s with
        | UB => UB
        | Ret (mkOut err s1 effs1) =>
            if bool_decide (err ≠ NO_ERROR) then Ret (mkOut (err, []) s1 effs1)
            else
              match finalizeOnCommitCallbackHandles rest s1 with
              | UB => UB
              | Ret (mkOut r s2 effs2) => Ret (mkOut r s2 (effs1 ++ effs2))
              end
        end
  end.

(** [finalizePendingCallbackHandles]. *)
Fixpoint finalizePendingCallbackHandles (handles : list CallbackHandle.t)
    (jankData : list JankData) (s : State) : Result (Out status_t) :=
  match handles with
  | [] => Ret (mkOut NO_ERROR s [])
  | handle :: rest =>
      match finalizeCallbackHandle handle jankData s with
      | UB => UB
      | Ret (mkOut err s1 effs1) =>
          if bool_decide (err ≠ NO_ERROR) then Ret (mkOut err s1 effs1)
          else
            match finalizePendingCallbackHandles rest jankData s1 with
            | UB => UB
            | Ret (mkOut r s2 effs2) => Ret (mkOut r s2 (effs1 ++ effs2))
            end
      end
  end.

(** [registerUnpresentedCallbackHandle]. *)
Definition registerUnpresentedCallbackHandle (handle : CallbackHandle.t) (s : State)
  : Result (Out status_t) :=
  addCallbackHandle handle [] s.

(** [addPresentFence]. *)
Definition addPresentFence (presentFence0 : option Fence) (s : State) : Out unit :=
  mkOut () (withPresentFence s presentFence0) [].

(** ** Dispatch *)

(** [pendingTransactions != end() && pendingTransactions->second.count(ids) != 0]. *)
Definition isPending (s : State) (listener : Listener) (ids : list CallbackId) : bool :=
  match mPendingTransactions s !! listener with
  | Some pendingCallbacks => bool_decide (is_Some (pendingCallbacks !! ids))
  | None => false
  end.

(** The recorded count of a transaction, 0 when there is no entry. *)
Definition pendingCount (s : State) (listener : Listener) (ids : list CallbackId) : Z :=
  default 0 (mPendingTransactions s !! listener ≫= (.!! ids)).

(** "If the transaction has been latched" and is not on-commit: the test that
    guards the present fence. *)
Definition needsPresentFence (transactionStats : TransactionStats) : bool :=
  (0 <=? latchTime transactionStats) &&
  negb (containsOnCommitCallbacks (callbackIds transactionStats)).

Definition setPresentFence (fence : option Fence) (transactionStats : TransactionStats)
  : TransactionStats :=
  mkTransactionStats (callbackIds transactionStats) (latchTime transactionStats)
                     fence (surfaceStats transactionStats) (serial transactionStats).

(** The inner loop of [sendCallbacks] for one listener: the transactions moved
    to [listenerStats.transactionStats], and what stays in the deque. *)
Fixpoint walk (s : State) (listener : Listener) (deque : list TransactionStats)
  : list TransactionStats * list TransactionStats :=
  match deque with
  | [] => ([], [])
  | transactionStats :: rest =>
      if isRegisteringTransaction s listener (callbackIds transactionStats) then ([], deque)
      else if isPending s listener (callbackIds transactionStats) then ([], deque)
      else if needsPresentFence transactionStats then
        match mPresentFence s with
        | None => ([], deque)
        | Some fence =>
            let '(batch, remaining) := walk s listener rest in
            (setPresentFence (Some fence) transactionStats :: batch, remaining)
        end
      else
        let '(batch, remaining) := walk s listener rest in
        (transactionStats :: batch, remaining)
  end.

(** The body of the outer loop for one listener: what becomes of its map
    entry ([None]: erased) and the calls made. *)
Definition sendListener (isBinderAlive : Listener → bool) (s : State)
    (listener : Listener) (deque : list TransactionStats)
  : option (list TransactionStats) * list Effect :=
  let '(batch, remaining) := walk s listener deque in
  match batch with
  | [] => (Some remaining, [])
  | _ :: _ =>
      if isBinderAlive listener then
        match remaining with
        | [] => (None, [OnTransactionCompleted listener batch; UnlinkToDeath listener])
        | _ :: _ => (Some remaining, [OnTransactionCompleted listener batch])
        end
      else (None, [])
  end.

(** [sendCallbacks].  [mCompletedTransactions] is a [std::unordered_map]:
    the order in which the outer loop visits the listeners is that of the
    hash table and is not fixed by the source.  The embedding visits them in
    the order of [map_to_list]; the body of the loop for one listener reads
    and writes nothing of another listener, so the state after the cycle
    does not depend on the order, and the calls made on one listener are
    contiguous and the same in every order.  The statements on
    [sendCallbacks] speak of the calls made on a listener and of the state,
    not of the order of the calls across listeners. *)
Definition sendCallbacks (isBinderAlive : Listener → bool) (s : State) : Out unit :=
  mkOut ()
        (mkState (mRegisteringTransactions s) (mPendingTransactions s)
                 (map_imap (λ listener deque, (sendListener isBinderAlive s listener deque).1)
                           (mCompletedTransactions s))
                 None (mNextSerial s))
        (mjoin ((λ entry, (sendListener isBinderAlive s entry.1 entry.2).2)
                  <$> map_to_list (mCompletedTransactions s))).

(** ** Runs of the dispatcher *)

Inductive Op : Type :=
| OpStartRegistration (linkToDeath : Listener → status_t) (lc : ListenerCallbacks)
| OpEndRegistration (lc : ListenerCallbacks)
| OpRegisterPendingCallbackHandle (handle : CallbackHandle.t)
| OpFinalizeOnCommitCallbackHandles (handles : list CallbackHandle.t)
| OpFinalizePendingCallbackHandles (handles : list CallbackHandle.t) (jankData : list JankData)
| OpRegisterUnpresentedCallbackHandle (handle : CallbackHandle.t)
| OpAddPresentFence (fence : option Fence)
| OpSendCallbacks (isBinderAlive : Listener → bool).

Definition forget {A} (r : Result (Out A)) : Result (State * list Effect) :=
  match r with
  | UB => UB
  | Ret o => Ret (state o, effects o)
  end.

Definition step (op : Op) (s : State) : Result (State * list Effect) :=
  match op with
  | OpStartRegistration linkToDeath lc => forget (Ret (startRegistration linkToDeath lc s))
  | OpEndRegistration lc => forget (Ret (endRegistration lc s))
  | OpRegisterPendingCallbackHandle handle => forget (registerPendingCallbackHandle handle s)
  | OpFinalizeOnCommitCallbackHandles handles =>
      forget (finalizeOnCommitCallbackHandles handles s)
  | OpFinalizePendingCallbackHandles handles jankData =>
      forget (finalizePendingCallbackHandles handles jankData s)
  | OpRegisterUnpresentedCallbackHandle handle =>
      forget (registerUnpresentedCallbackHandle handle s)
  | OpAddPresentFence fence => forget (Ret (addPresentFence fence s))
  | OpSendCallbacks isBinderAlive => forget (Ret (sendCallbacks isBinderAlive s))
  end.

(** A run: the calls are made one after the other; the run ends at the first
    call that leaves defined behaviour.  The result is the last defined state
    and every effect up to it. *)
Fixpoint run (ops : list Op) (s : State) : State * list Effect :=
  match ops with
  | [] => (s, [])
  | op :: rest =>
      match step op s with
      | UB => (s, [])
      | Ret (s1, effs) =>
          let '(s2, effs2) := run rest s1 in (s2, effs ++ effs2)
      end
  end.

(** The transactions delivered to one listener, oldest delivery first. *)
Fixpoint delivered (listener : Listener) (effs : list Effect) : list TransactionStats :=
  match effs with
  | [] => []
  | OnTransactionCompleted l batch :: rest =>
      if bool_decide (l = listener) then batch ++ delivered listener rest
      else delivered listener rest
  | _ :: rest => delivered listener rest
  end.

(** ** Definitions used by the statements *)

Definition front_id (c : list CallbackId) : option Z := id <$> head c.

(** The inputs on which [compareCallbackIds] is examined: an empty [c1], or
    two non-empty vectors whose leading ids are less than 2^31 apart. *)
Definition comparable (c1 c2 : list CallbackId) : Prop :=
  match c1, c2 with
  | [], _ => True
  | _ :: _, [] => False
  | a :: _, b :: _ => - 2 ^ 31 <= id a - id b < 2 ^ 31
  end.

(** The counter entry of (listener, ids), if there is one. *)
Definition entryOf (pending : gmap nat (gmap (list CallbackId) Z))
    (listener : Listener) (ids : list CallbackId) : option Z :=
  pending !! listener ≫= (.!! ids).

(** What the walk writes into a transaction it moves out. *)
Definition stamp (s : State) (t : TransactionStats) : TransactionStats :=
  if needsPresentFence t then setPresentFence (mPresentFence s) t else t.

(** The three tests of the walk, taken together. *)
Definition deliverable (s : State) (l : Listener) (t : TransactionStats) : bool :=
  negb (isRegisteringTransaction s l (callbackIds t)) &&
  negb (isPending s l (callbackIds t)) &&
  (negb (needsPresentFence t) || bool_decide (is_Some (mPresentFence s))).

Definition serials (ts : list TransactionStats) : list nat := serial <$> ts.

(** A call is quiet when it creates no ledger entry, moves none and delivers
    none: the serials of every deque stay as they are. *)
Definition quiet (s s' : State) (e : list Effect) : Prop :=
  mNextSerial s' = mNextSerial s ∧
  (∀ l, serials (dequeOf s' l) = serials (dequeOf s l)) ∧
  (∀ l, delivered l e = []).

(** What one call can do to the serials seen from listener [l]: [before] are
    the serials of its deque before the call, [after] the serials of what was
    delivered to it by the call followed by those of its deque after it. *)
Definition advances (s s' : State) (e : list Effect) (l : Listener) : Prop :=
  let before := serials (dequeOf s l) in
  let after := serials (delivered l e ++ dequeOf s' l) in
  (mNextSerial s' = mNextSerial s ∧ (after = before ∨ after = [])) ∨
  (mNextSerial s' = S (mNextSerial s) ∧
   (after = before ++ [mNextSerial s] ∨ after = before)).

(** The invariant of a run, for one listener: what has been delivered to it,
    followed by what its deque holds, has strictly increasing serials, all
    below the next serial. *)
Definition in_order (s : State) (past : list Effect) (l : Listener) : Prop :=
  StronglySorted lt (serials (delivered l past ++ dequeOf s l)) ∧
  Forall (λ n, (n < mNextSerial s)%nat) (serials (delivered l past ++ dequeOf s l)).

(** ** Erasure of the ghost serials *)

Definition erase_t (t : TransactionStats) : TransactionStats :=
  mkTransactionStats (callbackIds t) (latchTime t) (presentFence t) (surfaceStats t) 0.

Definition erase_d (d : list TransactionStats) : list TransactionStats := erase_t <$> d.

Definition erase_s (s : State) : State :=
  mkState (mRegisteringTransactions s) (mPendingTransactions s)
          (erase_d <$> mCompletedTransactions s) (mPresentFence s) 0.

Definition erase_e (e : Effect) : Effect :=
  match e with
  | OnTransactionCompleted l batch => OnTransactionCompleted l (erase_d batch)
  | _ => e
  end.

Definition erase_o {A} (o : Out A) : Out A :=
  mkOut (value o) (erase_s (state o)) (erase_e <$> effects o).

Definition erase_r {A} (r : Result (Out A)) : Result (Out A) :=
  match r with
  | Ret o => Ret (erase_o o)
  | UB => UB
  end.

Definition erase_step (r : Result (State * list Effect)) : Result (State * list Effect) :=
  match r with
  | Ret (s, e) => Ret (erase_s s, erase_e <$> e)
  | UB => UB
  end.

(** ** Concrete inputs *)

Definition linkOk : Listener → status_t := λ _, NO_ERROR.
Definition allAlive : Listener → bool := λ _, true.

Definition handleFor (listener : Listener) (ids : list CallbackId)
    (surfaceControl : option SurfaceControl) (latchTime0 : Z) : CallbackHandle.t :=
  CallbackHandle.mk listener ids surfaceControl (-1) None latchTime0 0 0 None 0 0 0 0 0.

Definition commit5 : list CallbackId := [mkCallbackId 5 ON_COMMIT].
Definition complete7 : list CallbackId := [mkCallbackId 7 ON_COMPLETE].

Definition handle5 : CallbackHandle.t := handleFor 1 commit5 (Some 9%nat) 100.
Definition handle7 : CallbackHandle.t := handleFor 1 complete7 (Some 9%nat) 100.

(** (1, [7 complete]) registered and still open, then (1, [5 commit])
    registered, closed and finalized behind it. *)
Definition s_open7_done5 : State :=
  (run [OpStartRegistration linkOk (1%nat, complete7);
        OpStartRegistration linkOk (1%nat, commit5);
        OpEndRegistration (1%nat, commit5);
        OpFinalizeOnCommitCallbackHandles [handleFor 1 commit5 (Some 9%nat) 100]] initial).1.

(** (1, [7 complete]) registered with one pending work unit. *)
Definition s_pending7 : State :=
  (run [OpStartRegistration linkOk (1%nat, complete7);
        OpRegisterPendingCallbackHandle handle7;
        OpEndRegistration (1%nat, complete7)] initial).1.

(** (1, [5 commit]) registered, closed and finalized. *)
Definition s_done5 : State :=
  (run [OpStartRegistration linkOk (1%nat, commit5);
        OpEndRegistration (1%nat, commit5);
        OpFinalizeOnCommitCallbackHandles [handle5]] initial).1.

(** As [s_done5], followed by (1, [7 complete]) whose registration is open. *)
Definition s_done5_open7 : State :=
  (run [OpStartRegistration linkOk (1%nat, complete7)] s_done5).1.

(** (1, [7 complete]) registered, closed, finalized, and a frame presented. *)
Definition s_presented7 : State :=
  (run [OpStartRegistration linkOk (1%nat, complete7);
        OpEndRegistration (1%nat, complete7);
        OpFinalizePendingCallbackHandles [handle7] [];
        OpAddPresentFence (Some 33%nat)] initial).1.

Definition done5 : TransactionStats :=
  mkTransactionStats commit5 100 None [surfaceStatsOf 9 handle5 []] 0.
Definition open7 : TransactionStats := newTransactionStats complete7 1.
Definition presented7 : TransactionStats :=
  mkTransactionStats complete7 100 (Some 33%nat) [surfaceStatsOf 9 handle7 []] 0.

(** Callback ids led by a commit id and followed by a complete id. *)
Definition mixed : list CallbackId := [mkCallbackId 1 ON_COMMIT; mkCallbackId 2 ON_COMPLETE].
Definition handleMixed : CallbackHandle.t := handleFor 1 mixed (Some 9%nat) 100.
Definition s_mixed : State :=
  (run [OpStartRegistration linkOk (1%nat, mixed);
        OpEndRegistration (1%nat, mixed);
        OpFinalizeOnCommitCallbackHandles [handleMixed]] initial).1.

Definition noneAlive : Listener → bool := λ _, false.

(** Two transactions of listener 1, A = [7 complete] registered before
    B = [8 complete]; the work of B finishes first. *)
Definition complete8 : list CallbackId := [mkCallbackId 8 ON_COMPLETE].
Definition handle8 : CallbackHandle.t := handleFor 1 complete8 (Some 9%nat) 200.
Definition ops_B_finishes_first : list Op :=
  [OpStartRegistration linkOk (1%nat, complete7);
   OpRegisterPendingCallbackHandle handle7;
   OpStartRegistration linkOk (1%nat, complete8);
   OpRegisterPendingCallbackHandle handle8;
   OpEndRegistration (1%nat, complete7);
   OpEndRegistration (1%nat, complete8);
   OpFinalizePendingCallbackHandles [handle8] [];
   OpAddPresentFence (Some 33%nat);
   OpSendCallbacks allAlive;
   OpFinalizePendingCallbackHandles [handle7] [];
   OpAddPresentFence (Some 34%nat);
   OpSendCallbacks allAlive].
Definition deliveredA : TransactionStats :=
  mkTransactionStats complete7 100 (Some 34%nat) [surfaceStatsOf 9 handle7 []] 0.
Definition deliveredB : TransactionStats :=
  mkTransactionStats complete8 200 (Some 34%nat) [surfaceStatsOf 9 handle8 []] 1.

(** ** Definitions used by the further statements *)

(** Two ledger entries that differ at most in what a fold writes (latch time
    and result records). *)
Definition same_transaction (t' t : TransactionStats) : Prop :=
  callbackIds t' = callbackIds t ∧ presentFence t' = presentFence t ∧ serial t' = serial t.

Definition isLog (e : Effect) : Prop :=
  match e with
  | ALOGE _ | ALOGW _ => True
  | _ => False
  end.

(** No listener of the pending table is left with an empty table of counts. *)
Definition pending_ok (pending : gmap nat (gmap (list CallbackId) Z)) : Prop :=
  ∀ l inner, pending !! l = Some inner → inner ≠ ∅.

(** What the methods that take handles may change: result records, latch
    times and pending counts; they only log. *)
Definition handles_only (s s' : State) (e : list Effect) : Prop :=
  mRegisteringTransactions s' = mRegisteringTransactions s ∧
  mPresentFence s' = mPresentFence s ∧
  mNextSerial s' = mNextSerial s ∧
  (∀ l, Forall2 same_transaction (dequeOf s' l) (dequeOf s l)) ∧
  (pending_ok (mPendingTransactions s) → pending_ok (mPendingTransactions s')) ∧
  Forall isLog e.

(** The states the dispatcher can be in. *)
Definition reachable (s : State) : Prop := ∃ ops, s = (run ops initial).1.

(** No two pairs of the registration set are equal. *)
Fixpoint distinct_pairs (set : list ListenerCallbacks) : Prop :=
  match set with
  | [] => True
  | x :: rest => set_contains x rest = false ∧ distinct_pairs rest
  end.

(** [~TransactionCallbackInvoker]: the calls made by the destructor, one
    per entry of [mCompletedTransactions]; as for [sendCallbacks], the order
    across listeners is that of the hash table in the source and that of
    [map_to_list] here. *)
Definition destructor (s : State) : list Effect :=
  (λ entry, UnlinkToDeath entry.1) <$> map_to_list (mCompletedTransactions s).

Definition isAddPresentFence (op : Op) : Prop :=
  match op with
  | OpAddPresentFence _ => True
  | _ => False
  end.

(** Every dispatch cycle of the run finds listener [l] alive. *)
Definition finds_alive (l : Listener) (op : Op) : Prop :=
  match op with
  | OpSendCallbacks isBinderAlive => isBinderAlive l = true
  | _ => True
  end.

(** The identity of a transaction: its registration serial and callback ids. *)
Definition key (t : TransactionStats) : nat * list CallbackId := (serial t, callbackIds t).

(** What every state of a run satisfies: no transaction still in the ledger
    carries a present fence, no listener of the pending table has an empty
    table, the registration set holds no two equal pairs. *)
Definition tidy (s : State) : Prop :=
  (∀ l t, t ∈ dequeOf s l → presentFence t = None) ∧
  pending_ok (mPendingTransactions s) ∧
  distinct_pairs (mRegisteringTransactions s).

(** A notification whose transactions carry a present fence exactly when they
    are latched and not led by a commit id. *)
Definition fenced_as_needed (e : Effect) : Prop :=
  match e with
  | OnTransactionCompleted _ batch =>
      ∀ t, t ∈ batch → (is_Some (presentFence t) ↔ needsPresentFence t = true)
  | _ => True
  end.

(** How a method that takes handles reports: NO_ERROR and no error in the
    log, or BAD_VALUE and the failed lookup in the log. *)
Definition status_logged (err : status_t) (e : list Effect) : Prop :=
  (err = NO_ERROR ∧ ∀ msg, ALOGE msg ∉ e) ∨
  (err = BAD_VALUE ∧ ALOGE "could not find transaction stats" ∈ e).

(** The test of the loop of [finalizeOnCommitCallbackHandles]. *)
Definition isOnCommitHandle (handle : CallbackHandle.t) : bool :=
  containsOnCommitCallbacks (CallbackHandle.callbackIds handle).

(** A handle whose vector of callback ids shares only the leading id with
    the transaction (1, [7 complete]). *)
Definition complete78 : list CallbackId :=
  [mkCallbackId 7 ON_COMPLETE; mkCallbackId 8 ON_COMPLETE].
Definition handle78 : CallbackHandle.t := handleFor 1 complete78 (Some 9%nat) 100.

(** ** Concrete inputs of the further statements *)

(** (1, [7 complete]) registered and closed, then registered again. *)
Definition s_twice7 : State :=
  (run [OpStartRegistration linkOk (1%nat, complete7);
        OpEndRegistration (1%nat, complete7);
        OpStartRegistration linkOk (1%nat, complete7)] initial).1.

(** A binder that refuses the death subscription (DEAD_OBJECT). *)
Definition linkFails : Listener → status_t := λ _, -32.

(** As [s_done5_open7], with a transaction of listener 2 besides. *)
Definition s_done5_open7_other : State :=
  (run [OpStartRegistration linkOk (2%nat, complete8)] s_done5_open7).1.

(** A commit-only transaction registered, finalized and dispatched with no
    present fence added. *)
Definition ops_commit_only : list Op :=
  [OpStartRegistration linkOk (1%nat, commit5);
   OpEndRegistration (1%nat, commit5);
   OpFinalizeOnCommitCallbackHandles [handle5];
   OpSendCallbacks allAlive].
Definition done5_later : TransactionStats :=
  mkTransactionStats commit5 100 None [surfaceStatsOf 9 handle5 []] 1.

(** The run that leads to [s_presented7], followed by a dispatch cycle. *)
Definition ops_presented7 : list Op :=
  [OpStartRegistration linkOk (1%nat, complete7);
   OpEndRegistration (1%nat, complete7);
   OpFinalizePendingCallbackHandles [handle7] [];
   OpAddPresentFence (Some 33%nat);
   OpSendCallbacks allAlive].

(** ** The scenarios of the specification, run on the embedding *)

Example scenario_commit_only :
  (run [OpStartRegistration linkOk (1%nat, commit5);
        OpRegisterPendingCallbackHandle (handleFor 1 commit5 (Some 9%nat) 100);
        OpEndRegistration (1%nat, commit5);
        OpFinalizeOnCommitCallbackHandles [handleFor 1 commit5 (Some 9%nat) 100];
        OpSendCallbacks allAlive] initial).2
  = [LinkToDeath 1 NO_ERROR;
     OnTransactionCompleted 1
       [mkTransactionStats commit5 100 None
          [surfaceStatsOf 9 (handleFor 1 commit5 (Some 9%nat) 100) []] 0];
     UnlinkToDeath 1].
Proof. vm_compute. reflexivity. Qed.

Example scenario_two_pending :
  let h := handleFor 1 complete7 (Some 9%nat) 100 in
  delivered 1
    (run [OpStartRegistration linkOk (1%nat, complete7);
          OpRegisterPendingCallbackHandle h;
          OpRegisterPendingCallbackHandle h;
          OpEndRegistration (1%nat, complete7);
          OpFinalizePendingCallbackHandles [h] [];
          OpSendCallbacks allAlive;
          OpFinalizePendingCallbackHandles [h] [];
          OpAddPresentFence (Some 33%nat);
          OpSendCallbacks allAlive] initial).2
  = [mkTransactionStats complete7 100 (Some 33%nat)
       [surfaceStatsOf 9 h []; surfaceStatsOf 9 h []] 0].
Proof. vm_compute. reflexivity. Qed.

Example scenario_B_finishes_first :
  (run ops_B_finishes_first initial).2
  = [LinkToDeath 1 NO_ERROR;
     OnTransactionCompleted 1 [deliveredA; deliveredB];
     UnlinkToDeath 1].
Proof. vm_compute. reflexivity. Qed.

(** ** Comparison of callback ids *)

Lemma to_int_small (d : Z) : - 2 ^ 31 <= d < 2 ^ 31 → to_int d = d.
Proof.
  intros Hd. unfold to_int.
  destruct (Z_lt_le_dec d 0) as [Hneg | Hpos].
  - replace (d mod 2 ^ 32) with (d + 2 ^ 32).
    + destruct (Z.ltb_spec (d + 2 ^ 32) (2 ^ 31)); lia.
    + apply Z.mod_unique with (q := -1); lia.
  - rewrite Z.mod_small by lia.
    destruct (Z.ltb_spec d (2 ^ 31)); lia.
Qed.

Lemma in_int64_small (d : Z) : - 2 ^ 31 <= d < 2 ^ 31 → in_int64 d = true.
Proof.
  intros Hd. unfold in_int64.
  apply andb_true_intro; split; [apply Z.leb_le | apply Z.ltb_lt]; lia.
Qed.

Lemma compareCallbackIds_cons (a b : CallbackId) (c1 c2 : list CallbackId) :
  - 2 ^ 31 <= id a - id b < 2 ^ 31 →
  compareCallbackIds (a :: c1) (b :: c2) = Ret (id a - id b).
Proof.
  intros Hd. cbn [compareCallbackIds].
  by rewrite (in_int64_small _ Hd), (to_int_small _ Hd).
Qed.

(** C4: [compareCallbackIds] answers from the leading elements alone, which
    is neither the order of the claim nor the order its own header comment
    describes.  (1) On an empty [c1], and on two non-empty vectors whose
    leading ids are less than 2^31 apart, the result is 0 exactly when both
    are empty or the leading ids are equal; for non-empty vectors it is the
    difference of the leading ids, the one of [c1] minus the one of [c2]; an
    empty [c1] against a non-empty [c2] gives 1.  (2) Two vectors with the
    same leading id compare 0 whatever follows and whatever their lengths,
    where the comment announces a negative result when all ids match but
    [c2] is shorter and a positive one when [c2] is longer.  (3) When the
    leading id of [c2] is the lower one the result is positive, where the
    comment announces a negative one.  (4) On [1] against [1; 2] the answer
    is 0 in both directions, and on [7] against [5] it is 2. *)
Theorem C4_compareCallbackIds_leading :
  (∀ c1 c2,
     comparable c1 c2 →
     ∃ r, compareCallbackIds c1 c2 = Ret r ∧
          (r = 0 ↔ front_id c1 = front_id c2) ∧
          (∀ a b, head c1 = Some a → head c2 = Some b → r = id a - id b) ∧
          (c1 = [] → c2 ≠ [] → r = 1)) ∧
  (∀ a b c1 c2, id a = id b → compareCallbackIds (a :: c1) (b :: c2) = Ret 0) ∧
  (∀ a b c1 c2,
     id b < id a < id b + 2 ^ 31 →
     ∃ r, compareCallbackIds (a :: c1) (b :: c2) = Ret r ∧ 0 < r) ∧
  (let c1 := [mkCallbackId 1 ON_COMPLETE] in
   let c2 := [mkCallbackId 1 ON_COMPLETE; mkCallbackId 2 ON_COMPLETE] in
   c2 = c1 ++ [mkCallbackId 2 ON_COMPLETE] ∧
   compareCallbackIds c1 c2 = Ret 0 ∧
   compareCallbackIds c2 c1 = Ret 0) ∧
  compareCallbackIds [mkCallbackId 7 ON_COMPLETE] [mkCallbackId 5 ON_COMPLETE] = Ret 2.
Proof.
  split_and!.
  - intros c1 c2. destruct c1 as [|a c1], c2 as [|b c2]; cbn [comparable]; intros Hc.
    + exists 0. repeat split; try done.
    + exists 1. repeat split; try done.
    + done.
    + exists (id a - id b). rewrite compareCallbackIds_cons by done.
      unfold front_id; cbn. repeat split; try done.
      * intros ?. f_equal. lia.
      * intros [=]. lia.
      * by intros ?? [= ->] [= ->].
  - intros a b c1 c2 Hab. rewrite compareCallbackIds_cons by lia. f_equal. lia.
  - intros a b c1 c2 Hab. exists (id a - id b).
    rewrite compareCallbackIds_cons by lia. split; [done | lia].
  - by repeat split.
  - done.
Qed.

Lemma C4_compareCallbackIds_leading_witness :
  ∃ r, compareCallbackIds [mkCallbackId 7 ON_COMPLETE; mkCallbackId 8 ON_COMPLETE]
                          [mkCallbackId 9 ON_COMPLETE] = Ret r ∧
       (r = 0 ↔ front_id [mkCallbackId 7 ON_COMPLETE; mkCallbackId 8 ON_COMPLETE]
                = front_id [mkCallbackId 9 ON_COMPLETE]) ∧
       (∀ a b, head [mkCallbackId 7 ON_COMPLETE; mkCallbackId 8 ON_COMPLETE] = Some a →
               head [mkCallbackId 9 ON_COMPLETE] = Some b → r = id a - id b) ∧
       ([mkCallbackId 7 ON_COMPLETE; mkCallbackId 8 ON_COMPLETE] = [] →
        [mkCallbackId 9 ON_COMPLETE] ≠ [] → r = 1).
Proof.
  apply (proj1 C4_compareCallbackIds_leading
           [mkCallbackId 7 ON_COMPLETE; mkCallbackId 8 ON_COMPLETE]
           [mkCallbackId 9 ON_COMPLETE]).
  cbn. lia.
Defined.

(** C10: [compareCallbackIds] on a non-empty [c1] and an empty [c2] evaluates
    [c2.front()] on an empty vector.  A handle with no callback ids reaches
    it through [findTransactionStats] as soon as the listener has a
    transaction with ids. *)
Theorem C10_front_of_empty_vector :
  (∀ a c1, compareCallbackIds (a :: c1) [] = UB) ∧
  registerPendingCallbackHandle (handleFor 1 [] None 0)
    (state (startRegistration linkOk (1%nat, complete7) initial)) = UB.
Proof. split; [done | by vm_compute]. Qed.

(** ** Lookup *)

Lemma searchBackToFront_Some (ids : list CallbackId) (rdeque : list TransactionStats) (i : nat) :
  searchBackToFront ids rdeque = Ret (Some i) →
  ∃ t, reverse rdeque !! i = Some t ∧ compareCallbackIds (callbackIds t) ids = Ret 0.
Proof.
  induction rdeque as [|itr older IH]; cbn [searchBackToFront]; [done|].
  destruct (compareCallbackIds (callbackIds itr) ids) as [c|] eqn:Hc; [|done].
  destruct (Z.eqb_spec c 0) as [->|Hne].
  - intros [= <-]. exists itr. split; [|done].
    rewrite reverse_cons, lookup_app_r by (by rewrite length_reverse).
    by rewrite length_reverse, Nat.sub_diag.
  - intros Hfound. destruct (IH Hfound) as (t & Ht & Hcmp).
    exists t. split; [|done].
    rewrite reverse_cons, lookup_app_l; [done|]. by eapply lookup_lt_Some.
Qed.

Lemma dequeOf_subscript (l l' : Listener) (s : State) :
  dequeOf (subscript l s) l' = dequeOf s l'.
Proof.
  unfold subscript, dequeOf.
  destruct (mCompletedTransactions s !! l) eqn:Hl; [done|]. cbn.
  destruct (decide (l = l')) as [->|Hne].
  - by rewrite lookup_insert_eq, Hl.
  - by rewrite lookup_insert_ne.
Qed.

(** A successful lookup leaves the state as it was and points into the deque
    the listener already had. *)
Lemma findTransactionStats_Some (l : Listener) (ids : list CallbackId) (s s1 : State)
    (i : nat) (effs : list Effect) :
  findTransactionStats l ids s = Ret (mkOut (Some i) s1 effs) →
  s1 = s ∧ effs = [] ∧
  ∃ d t, mCompletedTransactions s !! l = Some d ∧ d !! i = Some t ∧
         compareCallbackIds (callbackIds t) ids = Ret 0.
Proof.
  unfold findTransactionStats. rewrite dequeOf_subscript.
  destruct (searchBackToFront ids (reverse (dequeOf s l))) as [[j|]|] eqn:Hs; [|done..].
  intros [= -> Hs1]. apply searchBackToFront_Some in Hs as (t & Ht & Hcmp).
  rewrite reverse_involutive in Ht.
  unfold subscript, dequeOf in *.
  destruct (mCompletedTransactions s !! l) as [d|] eqn:Hl; [|done].
  split; [done|]. split; [done|]. by exists d, t.
Qed.

(** The lookup reads the ledger only. *)
Lemma findTransactionStats_withPending (l : Listener) (ids : list CallbackId) (s : State) p :
  findTransactionStats l ids (withPending s p) =
  match findTransactionStats l ids s with
  | UB => UB
  | Ret o => Ret (mkOut (value o) (withPending (state o) p) (effects o))
  end.
Proof.
  unfold findTransactionStats, subscript, dequeOf; cbn.
  destruct (mCompletedTransactions s !! l) as [d|] eqn:Hl; cbn.
  - rewrite Hl; cbn. by destruct (searchBackToFront _ _) as [[j|]|].
  - rewrite !lookup_insert_eq; cbn. done.
Qed.

(** ** The fold *)

(** C8: when the handle resolves to entry [i] of its listener's deque,
    [addCallbackHandle] succeeds without logging and rewrites that entry
    only: its latch time becomes the handle's; one result record, built from
    the handle and the jank data, is appended when the surface control is
    still alive, and none when it is gone; the entry's callback ids, present
    fence and earlier records, every other entry and every other table stay
    as they were. *)
Theorem C8_addCallbackHandle_folds (handle : CallbackHandle.t) (jankData : list JankData)
    (s s1 : State) (i : nat) (effs : list Effect) :
  findTransactionStats (CallbackHandle.listener handle)
                       (CallbackHandle.callbackIds handle) s
    = Ret (mkOut (Some i) s1 effs) →
  ∃ d t t',
    mCompletedTransactions s !! CallbackHandle.listener handle = Some d ∧
    d !! i = Some t ∧
    addCallbackHandle handle jankData s
      = Ret (mkOut NO_ERROR
               (withCompleted s (<[CallbackHandle.listener handle := <[i := t']> d]>
                                   (mCompletedTransactions s))) []) ∧
    latchTime t' = CallbackHandle.latchTime handle ∧
    surfaceStats t' =
      match CallbackHandle.surfaceControl handle with
      | Some sc => surfaceStats t ++ [surfaceStatsOf sc handle jankData]
      | None => surfaceStats t
      end ∧
    callbackIds t' = callbackIds t ∧
    presentFence t' = presentFence t ∧
    serial t' = serial t.
Proof.
  intros Hfind. unfold addCallbackHandle. rewrite Hfind.
  apply findTransactionStats_Some in Hfind as (-> & -> & d & t & Hd & Ht & _).
  exists d, t, (foldHandle handle jankData t).
  split; [done|]. split; [done|]. split; [|done].
  do 3 f_equal. unfold dequeOf. rewrite Hd; cbn. f_equal.
  apply list_eq. intros j.
  destruct (decide (i = j)) as [<-|Hne].
  - rewrite list_lookup_alter_eq, list_lookup_insert_eq by (by eapply lookup_lt_Some).
    by rewrite Ht.
  - by rewrite list_lookup_alter_ne, list_lookup_insert_ne.
Qed.

(** ** The pending-work counter *)

Lemma entryOf_prune (l l' : Listener) (ids' : list CallbackId)
    (inner' : gmap (list CallbackId) Z) (p : gmap nat (gmap (list CallbackId) Z))
    (effs : list Effect) :
  entryOf (if (size inner' =? 0)%nat then (delete l p, effs)
           else (<[l := inner']> p, effs)).1 l' ids'
  = if decide (l' = l) then inner' !! ids' else entryOf p l' ids'.
Proof.
  unfold entryOf.
  destruct (Nat.eqb_spec (size inner') 0) as [Hsz|Hsz]; cbn [fst].
  - apply map_size_empty_iff in Hsz as ->.
    destruct (decide (l' = l)) as [->|Hne].
    + by rewrite lookup_delete_eq, lookup_empty.
    + by rewrite lookup_delete_ne.
  - destruct (decide (l' = l)) as [->|Hne].
    + by rewrite lookup_insert_eq.
    + by rewrite lookup_insert_ne.
Qed.

(** What the decrement does to each counter entry. *)
Lemma decrementPending_entry (l l' : Listener) (ids ids' : list CallbackId)
    (p : gmap nat (gmap (list CallbackId) Z)) :
  entryOf (decrementPending l ids p).1 l' ids'
  = if decide ((l', ids') = (l, ids)) then
      match entryOf p l ids with
      | Some n => if uint32 (n - 1) =? 0 then None else Some (uint32 (n - 1))
      | None => None
      end
    else entryOf p l' ids'.
Proof.
  unfold decrementPending.
  destruct (p !! l) as [inner|] eqn:Hl.
  - assert (Hp : ∀ k, entryOf p l k = inner !! k) by (intros k; unfold entryOf; by rewrite Hl).
    destruct (inner !! ids) as [n|] eqn:Hids.
    + rewrite (Hp ids), Hids.
      destruct (uint32 (n - 1) =? 0); rewrite entryOf_prune;
        destruct (decide (l' = l)) as [->|Hne].
      * destruct (decide (ids' = ids)) as [->|Hne'].
        -- rewrite decide_True by done. by rewrite lookup_delete_eq.
        -- rewrite decide_False by congruence. by rewrite lookup_delete_ne, Hp.
      * by rewrite decide_False by congruence.
      * destruct (decide (ids' = ids)) as [->|Hne'].
        -- rewrite decide_True by done. by rewrite lookup_insert_eq.
        -- rewrite decide_False by congruence. by rewrite lookup_insert_ne, Hp.
      * by rewrite decide_False by congruence.
    + rewrite (Hp ids), Hids. rewrite entryOf_prune.
      destruct (decide (l' = l)) as [->|Hne].
      * destruct (decide (ids' = ids)) as [->|Hne'].
        -- by rewrite decide_True.
        -- rewrite decide_False by congruence. by rewrite Hp.
      * by rewrite decide_False by congruence.
  - cbn [fst]. destruct (decide ((l', ids') = (l, ids))) as [[= -> ->]|Hne]; [|done].
    unfold entryOf. by rewrite Hl.
Qed.

(** The decrement warns exactly when there is no entry to decrement. *)
Lemma decrementPending_effects (l : Listener) (ids : list CallbackId)
    (p : gmap nat (gmap (list CallbackId) Z)) :
  match entryOf p l ids with
  | Some _ => (decrementPending l ids p).2 = []
  | None => ∃ msg, (decrementPending l ids p).2 = [ALOGW msg]
  end.
Proof.
  unfold decrementPending, entryOf.
  destruct (p !! l) as [inner|] eqn:Hl; cbn.
  - destruct (inner !! ids) as [n|] eqn:Hids.
    + by destruct (uint32 (n - 1) =? 0); destruct (_ =? _)%nat.
    + destruct (_ =? _)%nat; eauto.
  - eauto.
Qed.

(** C7: a finalize whose handle resolves to entry [i] of the ledger returns
    NO_ERROR and folds the handle into that entry: the entry's latch time
    becomes the handle's, one result record built from the handle and the
    jank data is appended when the surface control is still alive (none when
    it is gone), its callback ids, present fence and earlier records stay,
    and no other entry of the ledger changes.  If a counter entry exists it
    is decremented (as [uint32_t]) and erased exactly when the result is 0,
    and nothing is logged; if there is none, one warning is logged, there is
    still none, and the fold and the status are the same.  No other counter
    entry changes. *)
Theorem C7_finalizeCallbackHandle_counts (handle : CallbackHandle.t)
    (jankData : list JankData) (s s1 : State) (i : nat) (effs : list Effect) :
  let l := CallbackHandle.listener handle in
  let ids := CallbackHandle.callbackIds handle in
  findTransactionStats l ids s = Ret (mkOut (Some i) s1 effs) →
  ∃ s' effs' t t',
    finalizeCallbackHandle handle jankData s = Ret (mkOut NO_ERROR s' effs') ∧
    dequeOf s l !! i = Some t ∧
    mCompletedTransactions s'
    = <[l := <[i := t']> (dequeOf s l)]> (mCompletedTransactions s) ∧
    latchTime t' = CallbackHandle.latchTime handle ∧
    surfaceStats t' =
      match CallbackHandle.surfaceControl handle with
      | Some sc => surfaceStats t ++ [surfaceStatsOf sc handle jankData]
      | None => surfaceStats t
      end ∧
    callbackIds t' = callbackIds t ∧
    presentFence t' = presentFence t ∧
    serial t' = serial t ∧
    (∀ l' ids', (l', ids') ≠ (l, ids) →
       entryOf (mPendingTransactions s') l' ids' = entryOf (mPendingTransactions s) l' ids') ∧
    match entryOf (mPendingTransactions s) l ids with
    | Some n =>
        entryOf (mPendingTransactions s') l ids
          = (if uint32 (n - 1) =? 0 then None else Some (uint32 (n - 1))) ∧
        effs' = []
    | None =>
        entryOf (mPendingTransactions s') l ids = None ∧ ∃ msg, effs' = [ALOGW msg]
    end.
Proof.
  intros l ids Hfind. unfold finalizeCallbackHandle.
  fold l ids.
  pose proof (decrementPending_entry l l ids ids (mPendingTransactions s)) as Hsame.
  pose proof (λ l' ids', decrementPending_entry l l' ids ids' (mPendingTransactions s)) as Hother.
  pose proof (decrementPending_effects l ids (mPendingTransactions s)) as Hwarn.
  destruct (decrementPending l ids (mPendingTransactions s)) as [pending' weffs].
  cbn [fst snd] in *.
  unfold addCallbackHandle. fold l ids.
  rewrite findTransactionStats_withPending, Hfind. cbn.
  apply findTransactionStats_Some in Hfind as (-> & -> & d & t & Hd & Ht & _).
  assert (Hdeque : dequeOf s l = d) by (unfold dequeOf; by rewrite Hd).
  eexists _, _, t, (foldHandle handle jankData t). split; [reflexivity|].
  split; [by rewrite Hdeque|].
  split.
  { cbn. f_equal. unfold dequeOf; cbn. rewrite Hd; cbn.
    apply list_eq. intros j.
    destruct (decide (i = j)) as [<-|Hne].
    - rewrite list_lookup_alter_eq, list_lookup_insert_eq by (by eapply lookup_lt_Some).
      by rewrite Ht.
    - by rewrite list_lookup_alter_ne, list_lookup_insert_ne. }
  do 5 (split; [done|]).
  split.
  { intros l' ids' Hne. cbn. rewrite Hother. by rewrite decide_False. }
  cbn. rewrite Hsame, decide_True by done. rewrite app_nil_r.
  destruct (entryOf (mPendingTransactions s) l ids) as [n|]; [done|].
  destruct Hwarn as [msg ->]. eauto.
Qed.

(** ** Registration *)

Lemma sameListenerCallbacks_refl (lc : ListenerCallbacks) :
  sameListenerCallbacks lc lc = true.
Proof.
  destruct lc as [l [|c ids]]; unfold sameListenerCallbacks; cbn;
    by rewrite ?bool_decide_eq_true_2.
Qed.

Lemma set_contains_In (lc : ListenerCallbacks) (set : list ListenerCallbacks) :
  In lc set → set_contains lc set = true.
Proof.
  intros Hin. apply existsb_exists. exists lc. split; [done|].
  apply sameListenerCallbacks_refl.
Qed.

Lemma startRegistration_open (linkToDeath : Listener → status_t)
    (lc : ListenerCallbacks) (s : State) :
  set_contains lc (mRegisteringTransactions s) = true →
  startRegistration linkToDeath lc s = mkOut NO_ERROR s [].
Proof. intros Hopen. destruct lc as [l ids]. unfold startRegistration. by rewrite Hopen. Qed.

Lemma startRegistration_fresh (linkToDeath : Listener → status_t)
    (l : Listener) (ids : list CallbackId) (s : State) :
  set_contains (l, ids) (mRegisteringTransactions s) = false →
  startRegistration linkToDeath (l, ids) s =
  match mCompletedTransactions s !! l with
  | Some _ => mkOut NO_ERROR (registered s l ids) []
  | None =>
      if bool_decide (linkToDeath l ≠ NO_ERROR) then
        mkOut (linkToDeath l)
              (withRegistering s (mRegisteringTransactions s ++ [(l, ids)]))
              [LinkToDeath l (linkToDeath l);
               ALOGE ("cannot add callback because linkToDeath failed, err: "
                      +:+ pretty (linkToDeath l))]
      else mkOut NO_ERROR (registered s l ids) [LinkToDeath l (linkToDeath l)]
  end.
Proof.
  intros Hfresh. unfold startRegistration. by rewrite Hfresh.
Qed.

Lemma registered_open (s : State) (l : Listener) (ids : list CallbackId) :
  set_contains (l, ids) (mRegisteringTransactions (registered s l ids)) = true.
Proof. apply set_contains_In, in_app_iff. right. by left. Qed.

Lemma dequeOf_registered (s : State) (l l' : Listener) (ids : list CallbackId) :
  dequeOf (registered s l ids) l'
  = if decide (l = l') then dequeOf s l ++ [newTransactionStats ids (mNextSerial s)]
    else dequeOf s l'.
Proof.
  unfold dequeOf at 1; cbn. destruct (decide (l = l')) as [->|Hne].
  - by rewrite lookup_insert_eq.
  - by rewrite lookup_insert_ne.
Qed.

(** C9 (as amended): [startRegistration] of a pair that is not open leaves
    the pair open, whether the call succeeds or fails, and a second call with
    the same pair, whatever the binder would answer, returns NO_ERROR, leaves
    the state as it is and makes no call.  When the first call succeeded,
    the listener's deque has grown by exactly one empty transaction and no
    other deque has changed; when it failed (in [linkToDeath], for a listener
    without a ledger entry), it returned the binder's error and the ledger is
    as it was: the two calls have produced no ledger entry. *)
Theorem C9_startRegistration_idempotent (linkToDeath linkToDeath' : Listener → status_t)
    (lc : ListenerCallbacks) (s : State) :
  isRegisteringTransaction s lc.1 lc.2 = false →
  let o1 := startRegistration linkToDeath lc s in
  let s1 := state o1 in
  isRegisteringTransaction s1 lc.1 lc.2 = true ∧
  startRegistration linkToDeath' lc s1 = mkOut NO_ERROR s1 [] ∧
  (value o1 = NO_ERROR →
   dequeOf s1 lc.1 = dequeOf s lc.1 ++ [newTransactionStats lc.2 (mNextSerial s)] ∧
   ∀ l', l' ≠ lc.1 → dequeOf s1 l' = dequeOf s l') ∧
  (value o1 ≠ NO_ERROR →
   value o1 = linkToDeath lc.1 ∧
   mCompletedTransactions s !! lc.1 = None ∧
   mCompletedTransactions s1 = mCompletedTransactions s).
Proof.
  destruct lc as [l ids]. unfold isRegisteringTransaction. cbn [fst snd].
  intros Hfresh. cbn zeta. rewrite (startRegistration_fresh _ _ _ _ Hfresh).
  assert (Hdone : set_contains (l, ids) (mRegisteringTransactions (registered s l ids)) = true ∧
                  startRegistration linkToDeath' (l, ids) (registered s l ids)
                  = mkOut NO_ERROR (registered s l ids) [] ∧
                  (NO_ERROR = NO_ERROR →
                   dequeOf (registered s l ids) l
                   = dequeOf s l ++ [newTransactionStats ids (mNextSerial s)] ∧
                   ∀ l', l' ≠ l → dequeOf (registered s l ids) l' = dequeOf s l')).
  { split_and!.
    - apply registered_open.
    - apply startRegistration_open, registered_open.
    - intros _. split.
      + by rewrite dequeOf_registered, decide_True.
      + intros l' Hne. by rewrite dequeOf_registered, decide_False. }
  destruct Hdone as (Hopen & Hsecond & Hgrown).
  destruct (mCompletedTransactions s !! l) as [d|] eqn:Hl.
  { cbn [value state]. by split_and!. }
  destruct (bool_decide (linkToDeath l ≠ NO_ERROR)) eqn:Herr; cbn [value state].
  - apply bool_decide_eq_true_1 in Herr.
    assert (Hopen' : set_contains (l, ids) (mRegisteringTransactions s ++ [(l, ids)]) = true).
    { apply set_contains_In, in_app_iff. right. by left. }
    split_and!; [done| by apply startRegistration_open | done | done].
  - by split_and!.
Qed.

(** C9 (as stated) fails: on the empty dispatcher the binder refuses the
    death subscription of listener 1.  The first [startRegistration] of
    (1, [7 complete]) returns the error, yet the pair is open; the second
    call with the identical pair returns NO_ERROR; and the ledger holds no
    entry for the listener, not one. *)
Lemma C9_failed_link_no_ledger_entry :
  let o1 := startRegistration linkFails (1%nat, complete7) initial in
  value o1 = -32 ∧
  isRegisteringTransaction (state o1) 1 complete7 = true ∧
  startRegistration linkOk (1%nat, complete7) (state o1) = mkOut NO_ERROR (state o1) [] ∧
  mCompletedTransactions (state o1) !! 1%nat = None ∧
  dequeOf (state o1) 1 = [].
Proof. by vm_compute. Qed.

(** C5: a handle whose listener has no ledger entry makes
    [registerPendingCallbackHandle] return BAD_VALUE, and the failed call
    leaves an empty deque behind for that listener ([operator[]] in
    [findTransactionStats]).  [startRegistration] of a fresh pair calls
    [linkToDeath] before the failed call, and after it finds the listener in
    the ledger and registers without calling [linkToDeath]. *)
Theorem C5_failed_lookup_creates_entry (handle : CallbackHandle.t) (s : State) :
  let l := CallbackHandle.listener handle in
  mCompletedTransactions s !! l = None →
  ∃ s1 effs,
    registerPendingCallbackHandle handle s = Ret (mkOut BAD_VALUE s1 effs) ∧
    s1 ≠ s ∧
    mCompletedTransactions s1 !! l = Some [] ∧
    ∀ linkToDeath ids,
      isRegisteringTransaction s l ids = false →
      LinkToDeath l (linkToDeath l)
        ∈ effects (startRegistration linkToDeath (l, ids) s) ∧
      startRegistration linkToDeath (l, ids) s1 = mkOut NO_ERROR (registered s1 l ids) [].
Proof.
  intros l Hl.
  exists (withCompleted s (<[l := []]> (mCompletedTransactions s))).
  eexists. split.
  { unfold registerPendingCallbackHandle, findTransactionStats. fold l.
    rewrite dequeOf_subscript. unfold dequeOf, subscript. by rewrite Hl. }
  split.
  { intros Heq. apply (f_equal (λ st, mCompletedTransactions st !! l)) in Heq.
    cbn in Heq. by rewrite lookup_insert_eq, Hl in Heq. }
  split; [cbn; by rewrite lookup_insert_eq|].
  intros linkToDeath ids Hfresh. unfold isRegisteringTransaction in Hfresh.
  split.
  - rewrite startRegistration_fresh, Hl by done.
    destruct (bool_decide (linkToDeath l ≠ NO_ERROR)); apply list_elem_of_here.
  - rewrite startRegistration_fresh by done. cbn. by rewrite lookup_insert_eq.
Qed.

(** ** The walk over one listener's deque *)

Lemma walk_cons_blocked (s : State) (l : Listener) (t : TransactionStats)
    (rest : list TransactionStats) :
  deliverable s l t = false → walk s l (t :: rest) = ([], t :: rest).
Proof.
  unfold deliverable. cbn [walk].
  destruct (isRegisteringTransaction s l (callbackIds t)); [done|].
  destruct (isPending s l (callbackIds t)); [done|].
  destruct (needsPresentFence t); [|done].
  by destruct (mPresentFence s).
Qed.

Lemma walk_cons_moved (s : State) (l : Listener) (t : TransactionStats)
    (rest : list TransactionStats) :
  deliverable s l t = true →
  walk s l (t :: rest) = (stamp s t :: (walk s l rest).1, (walk s l rest).2).
Proof.
  unfold deliverable, stamp. cbn [walk].
  destruct (isRegisteringTransaction s l (callbackIds t)); [done|].
  destruct (isPending s l (callbackIds t)); [done|].
  destruct (needsPresentFence t).
  - destruct (mPresentFence s); [|done]. by destruct (walk s l rest).
  - by destruct (walk s l rest).
Qed.

Lemma walk_app_moved (s : State) (l : Listener) (pre rest : list TransactionStats) :
  Forall (λ t, deliverable s l t = true) pre →
  walk s l (pre ++ rest) = ((stamp s <$> pre) ++ (walk s l rest).1, (walk s l rest).2).
Proof.
  induction 1 as [|t pre Ht _ IH]; [simpl; by destruct (walk s l rest)|].
  rewrite <- app_comm_cons, walk_cons_moved by done. by rewrite IH.
Qed.

(** The walk moves out the longest prefix of deliverable transactions, in
    deque order, and leaves the rest in place. *)
Lemma walk_prefix (s : State) (l : Listener) (d : list TransactionStats) :
  ∃ pre,
    d = pre ++ (walk s l d).2 ∧
    (walk s l d).1 = stamp s <$> pre ∧
    Forall (λ t, deliverable s l t = true) pre ∧
    (∀ t, head (walk s l d).2 = Some t → deliverable s l t = false).
Proof.
  induction d as [|t rest (pre & Hd & Hb & Hall & Hstop)].
  - exists []. split_and!; [done | done | constructor | done].
  - destruct (deliverable s l t) eqn:Hdel.
    + rewrite walk_cons_moved by done. cbn [fst snd].
      exists (t :: pre). split_and!.
      * by rewrite Hd at 1.
      * by rewrite Hb.
      * by constructor.
      * done.
    + rewrite walk_cons_blocked by done. cbn [fst snd].
      exists []. split_and!; [done | done | constructor |].
      by intros ? [= <-].
Qed.

(** A transaction that is not deliverable bounds what the walk moves out. *)
Lemma walk_stops (s : State) (l : Listener) (pre post : list TransactionStats)
    (t : TransactionStats) :
  deliverable s l t = false →
  ∃ k, (k ≤ length pre)%nat ∧ (walk s l (pre ++ t :: post)).1 = stamp s <$> take k pre.
Proof.
  intros Hblocked.
  destruct (walk_prefix s l (pre ++ t :: post)) as (pre' & Hd & Hb & Hall & _).
  assert (Hlen : (length pre' ≤ length pre)%nat).
  { destruct (decide (length pre' ≤ length pre)%nat) as [|Hgt]; [done|]. exfalso.
    assert (Ht : pre' !! length pre = Some t).
    { rewrite <- (lookup_app_l pre' (walk s l (pre ++ t :: post)).2) by lia.
      rewrite <- Hd. by rewrite list_lookup_middle. }
    rewrite Forall_lookup in Hall. specialize (Hall _ _ Ht). cbn in Hall. congruence. }
  exists (length pre'). split; [done|]. rewrite Hb. f_equal.
  rewrite <- (take_app_le pre (t :: post)) by done.
  generalize (walk s l (pre ++ t :: post)).2 as r, Hd. intros r ->.
  by rewrite take_app_length.
Qed.

Lemma callbackIds_stamp (s : State) (t : TransactionStats) :
  callbackIds (stamp s t) = callbackIds t.
Proof. unfold stamp. by destruct (needsPresentFence t). Qed.

Lemma serial_stamp (s : State) (t : TransactionStats) : serial (stamp s t) = serial t.
Proof. unfold stamp. by destruct (needsPresentFence t). Qed.

Lemma needsPresentFence_stamp (s : State) (t : TransactionStats) :
  needsPresentFence (stamp s t) = needsPresentFence t.
Proof. unfold stamp. by destruct (needsPresentFence t) eqn:Hn. Qed.

(** ** One dispatch cycle *)

Lemma sendCallbacks_effects (isBinderAlive : Listener → bool) (s : State) (e : Effect) :
  e ∈ effects (sendCallbacks isBinderAlive s) ↔
  ∃ l d, mCompletedTransactions s !! l = Some d ∧
         e ∈ (sendListener isBinderAlive s l d).2.
Proof.
  unfold sendCallbacks; cbn [effects]. rewrite list_elem_of_join. split.
  - intros (effs & He & Heffs). apply list_elem_of_fmap in Heffs as ([l d] & -> & Hld).
    apply elem_of_map_to_list in Hld. by exists l, d.
  - intros (l & d & Hld & He). exists (sendListener isBinderAlive s l d).2.
    split; [done|]. apply list_elem_of_fmap. exists (l, d). split; [done|].
    by apply elem_of_map_to_list.
Qed.

Lemma sendCallbacks_lookup (isBinderAlive : Listener → bool) (s : State) (l : Listener) :
  mCompletedTransactions (state (sendCallbacks isBinderAlive s)) !! l
  = mCompletedTransactions s !! l ≫= λ d, (sendListener isBinderAlive s l d).1.
Proof. unfold sendCallbacks; cbn. by rewrite map_lookup_imap. Qed.

(** A notification is sent to [l] exactly when the walk over its deque moved
    something out and the binder is alive; it carries what the walk moved. *)
(** Decides which of the calls listed in an effect list a given call is. *)
Ltac which_call :=
  rewrite ?elem_of_cons, ?elem_of_nil;
  split;
  [ intros Hcall; repeat (destruct Hcall as [Hcall|Hcall]); try done;
    injection Hcall as -> ->; by split_and!
  | intros (-> & -> & ? & ?); try done; try discriminate; by left ].

Lemma sendListener_delivers (isBinderAlive : Listener → bool) (s : State)
    (l l' : Listener) (d batch : list TransactionStats) :
  OnTransactionCompleted l' batch ∈ (sendListener isBinderAlive s l d).2 ↔
  l' = l ∧ batch = (walk s l d).1 ∧ batch ≠ [] ∧ isBinderAlive l = true.
Proof.
  unfold sendListener. destruct (walk s l d) as [[|t b] r]; cbn [fst snd].
  - which_call.
  - destruct (isBinderAlive l); [|which_call].
    destruct r; cbn [snd]; which_call.
Qed.

Lemma sendListener_unlinks (isBinderAlive : Listener → bool) (s : State)
    (l l' : Listener) (d : list TransactionStats) :
  UnlinkToDeath l' ∈ (sendListener isBinderAlive s l d).2 ↔
  l' = l ∧ (walk s l d).1 ≠ [] ∧ (walk s l d).2 = [] ∧ isBinderAlive l = true.
Proof.
  unfold sendListener. destruct (walk s l d) as [[|t b] r]; cbn [fst snd].
  - rewrite elem_of_nil. by intuition.
  - destruct (isBinderAlive l); [|rewrite elem_of_nil; by intuition].
    destruct r; cbn [snd]; rewrite ?elem_of_cons, ?elem_of_nil.
    + split.
      * intros [?|[[= ->]|?]]; by split_and!.
      * intros (-> & _). right. by left.
    + split.
      * by intros [?|?].
      * by intros (_ & _ & ? & _).
Qed.

Lemma sendCallbacks_delivers (isBinderAlive : Listener → bool) (s : State)
    (l : Listener) (batch : list TransactionStats) :
  OnTransactionCompleted l batch ∈ effects (sendCallbacks isBinderAlive s) ↔
  ∃ d, mCompletedTransactions s !! l = Some d ∧
       batch = (walk s l d).1 ∧ batch ≠ [] ∧ isBinderAlive l = true.
Proof.
  rewrite sendCallbacks_effects. split.
  - intros (l' & d & Hd & He). apply sendListener_delivers in He as (-> & ?). by exists d.
  - intros (d & Hd & He). exists l, d. split; [done|]. by apply sendListener_delivers.
Qed.

Lemma isPending_entryOf (s : State) (l : Listener) (ids : list CallbackId) :
  isPending s l ids = bool_decide (is_Some (entryOf (mPendingTransactions s) l ids)).
Proof.
  unfold isPending, entryOf. by destruct (mPendingTransactions s !! l) as [inner|].
Qed.

Lemma pendingCount_not_pending (s : State) (l : Listener) (ids : list CallbackId) :
  isPending s l ids = false → pendingCount s l ids = 0.
Proof.
  rewrite isPending_entryOf. unfold pendingCount, entryOf. intros Hp.
  apply bool_decide_eq_false_1 in Hp.
  destruct (mPendingTransactions s !! l ≫= (.!! ids)) as [n|]; [|done].
  destruct Hp. by exists n.
Qed.

Lemma deliverable_open_or_pending (s : State) (l : Listener) (t : TransactionStats) :
  isRegisteringTransaction s l (callbackIds t) = true ∨ pendingCount s l (callbackIds t) ≠ 0 →
  deliverable s l t = false.
Proof.
  unfold deliverable. intros [Hreg|Hpend].
  - by rewrite Hreg.
  - destruct (isPending s l (callbackIds t)) eqn:Hp.
    + by rewrite andb_false_r.
    + by apply pendingCount_not_pending in Hp.
Qed.

Lemma deliverable_inv (s : State) (l : Listener) (t : TransactionStats) :
  deliverable s l t = true →
  isRegisteringTransaction s l (callbackIds t) = false ∧
  isPending s l (callbackIds t) = false ∧
  (needsPresentFence t = true → is_Some (mPresentFence s)).
Proof.
  unfold deliverable. intros Hd.
  apply andb_prop in Hd as [Hd Hfence]. apply andb_prop in Hd as [Hreg Hpend].
  apply negb_true_iff in Hreg, Hpend. split_and!; [done..|].
  intros Hneeds. rewrite Hneeds in Hfence. by apply bool_decide_eq_true_1 in Hfence.
Qed.

(** X25: in a dispatch cycle, every transaction of a notification to [l] is
    neither open for registration nor has a nonzero count recorded under its
    own listener and vector of callback ids in the state the cycle started
    from; and when the deque of [l] holds a transaction that is open or has
    such a count, the notification is made of transactions that stand before
    it in the deque, so neither it nor any later one is in it. *)
Theorem sendCallbacks_blocked_while_open_or_counted (isBinderAlive : Listener → bool) (s : State)
    (l : Listener) (batch : list TransactionStats) :
  OnTransactionCompleted l batch ∈ effects (sendCallbacks isBinderAlive s) →
  (∀ t, t ∈ batch →
     isRegisteringTransaction s l (callbackIds t) = false ∧
     pendingCount s l (callbackIds t) = 0) ∧
  (∀ pre t post,
     dequeOf s l = pre ++ t :: post →
     isRegisteringTransaction s l (callbackIds t) = true ∨
     pendingCount s l (callbackIds t) ≠ 0 →
     ∃ k, (k ≤ length pre)%nat ∧ batch = stamp s <$> take k pre).
Proof.
  intros (d & Hd & -> & _ & _)%sendCallbacks_delivers. split.
  - intros t Ht.
    destruct (walk_prefix s l d) as (pre & _ & Hb & Hall & _).
    rewrite Hb in Ht. apply list_elem_of_fmap in Ht as (t0 & -> & Ht0).
    rewrite Forall_forall in Hall. apply Hall, deliverable_inv in Ht0 as (Hreg & Hpend & _).
    rewrite callbackIds_stamp. split; [done|]. by apply pendingCount_not_pending.
  - intros pre t post Hdeque Hblocked.
    unfold dequeOf in Hdeque. rewrite Hd in Hdeque. cbn in Hdeque. subst d.
    by apply walk_stops, deliverable_open_or_pending.
Qed.

Lemma needsPresentFence_spec (t : TransactionStats) :
  needsPresentFence t = true ↔
  0 <= latchTime t ∧ containsOnCommitCallbacks (callbackIds t) = false.
Proof.
  unfold needsPresentFence. rewrite andb_true_iff, negb_true_iff, Z.leb_le. done.
Qed.

(** C3 (as amended): in a dispatch cycle, (1) a latched transaction whose
    leading callback id is not of commit type (or that has no callback id) is
    in a notification only if the present fence was set when the cycle
    started, and it then carries that fence; (2) a transaction whose leading
    callback id is of commit type, that is not open for registration and has
    no counter entry, is in the notification to its live listener as soon as
    every transaction before it in the deque is deliverable, whether or not
    the present fence is set and whether or not it is latched, and it is
    delivered as it stands in the deque. *)
Theorem C3_present_fence_gate (isBinderAlive : Listener → bool) (s : State) (l : Listener) :
  (∀ batch t,
     OnTransactionCompleted l batch ∈ effects (sendCallbacks isBinderAlive s) →
     t ∈ batch →
     0 <= latchTime t →
     containsOnCommitCallbacks (callbackIds t) = false →
     ∃ fence, mPresentFence s = Some fence ∧ presentFence t = Some fence) ∧
  (∀ pre t post,
     mCompletedTransactions s !! l = Some (pre ++ t :: post) →
     Forall (λ t', deliverable s l t' = true) pre →
     containsOnCommitCallbacks (callbackIds t) = true →
     isRegisteringTransaction s l (callbackIds t) = false →
     entryOf (mPendingTransactions s) l (callbackIds t) = None →
     isBinderAlive l = true →
     ∃ batch,
       OnTransactionCompleted l batch ∈ effects (sendCallbacks isBinderAlive s) ∧
       batch !! length pre = Some t).
Proof.
  split.
  - intros batch t (d & Hd & -> & _ & _)%sendCallbacks_delivers Ht Hlatched Hcommit.
    destruct (walk_prefix s l d) as (pre & _ & Hb & Hall & _).
    rewrite Hb in Ht. apply list_elem_of_fmap in Ht as (t0 & -> & Ht0).
    assert (Hneeds : needsPresentFence t0 = true).
    { rewrite <- needsPresentFence_stamp with (s := s).
      by apply needsPresentFence_spec. }
    rewrite Forall_forall in Hall.
    apply Hall, deliverable_inv in Ht0 as (_ & _ & Hfence).
    destruct (Hfence Hneeds) as [fence Hf]. exists fence. split; [done|].
    unfold stamp. by rewrite Hneeds, Hf.
  - intros pre t post Hd Hpre Hcommit Hreg Hentry Halive.
    assert (Hneeds : needsPresentFence t = false).
    { unfold needsPresentFence. by rewrite Hcommit, andb_false_r. }
    assert (Hdel : deliverable s l t = true).
    { unfold deliverable. rewrite Hreg, isPending_entryOf, Hentry, Hneeds. reflexivity. }
    exists (walk s l (pre ++ t :: post)).1. split.
    + apply sendCallbacks_delivers. exists (pre ++ t :: post). split_and!; [done..| |done].
      rewrite walk_app_moved, walk_cons_moved by done. cbn [fst].
      by destruct (stamp s <$> pre).
    + rewrite walk_app_moved, walk_cons_moved by done. cbn [fst].
      rewrite lookup_app_r by (by rewrite length_fmap).
      rewrite length_fmap, Nat.sub_diag. cbn. unfold stamp. by rewrite Hneeds.
Qed.

(** C6 (as amended): when a listener's deque is not empty before a dispatch
    cycle and the listener tracks nothing after it, its ledger entry has been
    erased; if the binder is alive, the whole deque was delivered in one
    notification and [unlinkToDeath] was called; if the binder is dead,
    nothing was delivered and [unlinkToDeath] was not called. *)
Theorem C6_unlink_after_delivery (isBinderAlive : Listener → bool) (s : State)
    (l : Listener) (d : list TransactionStats) :
  let o := sendCallbacks isBinderAlive s in
  mCompletedTransactions s !! l = Some d →
  d ≠ [] →
  dequeOf (state o) l = [] →
  mCompletedTransactions (state o) !! l = None ∧
  if isBinderAlive l then
    (UnlinkToDeath l ∈ effects o ∧ OnTransactionCompleted l (stamp s <$> d) ∈ effects o)
  else
    ((UnlinkToDeath l ∉ effects o) ∧ (∀ batch, OnTransactionCompleted l batch ∉ effects o)).
Proof.
  intros o Hd Hne Hempty. subst o.
  unfold dequeOf in Hempty. rewrite sendCallbacks_lookup in *. rewrite Hd in *.
  cbn [mbind option_bind] in *.
  assert (Hun : ∀ e, e ∈ effects (sendCallbacks isBinderAlive s) →
                     (∀ l', e = UnlinkToDeath l' → l' = l →
                            (walk s l d).1 ≠ [] ∧ (walk s l d).2 = [] ∧ isBinderAlive l = true) ∧
                     (∀ l' b, e = OnTransactionCompleted l' b → l' = l →
                              b = (walk s l d).1 ∧ b ≠ [] ∧ isBinderAlive l = true)).
  { intros e (l0 & d0 & Hd0 & He)%sendCallbacks_effects. split.
    - intros l' -> ->. apply sendListener_unlinks in He as (<- & ?).
      rewrite Hd in Hd0. by injection Hd0 as <-.
    - intros l' b -> ->. apply sendListener_delivers in He as (<- & ?).
      rewrite Hd in Hd0. by injection Hd0 as <-. }
  destruct (walk_prefix s l d) as (pre & Hsplit & Hb & _ & _).
  assert (Hin : ∀ e, e ∈ (sendListener isBinderAlive s l d).2 →
                     e ∈ effects (sendCallbacks isBinderAlive s)).
  { intros e He. apply sendCallbacks_effects. by exists l, d. }
  unfold sendListener in Hempty, Hin |- *.
  destruct (walk s l d) as [batch remaining] eqn:Hwalk. cbn [fst snd] in *.
  destruct batch as [|t batch].
  { cbn in Hempty. destruct pre; [|done]. cbn in Hsplit. congruence. }
  destruct (isBinderAlive l) eqn:Halive.
  - destruct remaining as [|r remaining]; [|done].
    rewrite app_nil_r in Hsplit. subst pre. rewrite <- Hb. cbn [fst snd] in *.
    split; [done|]. split; apply Hin; [apply list_elem_of_further|]; apply list_elem_of_here.
  - split; [done|]. split.
    + intros He. by destruct (Hun _ He) as [Hu _], (Hu l eq_refl eq_refl) as (_ & _ & ?).
    + intros b He. by destruct (Hun _ He) as [_ Hu], (Hu l b eq_refl eq_refl) as (_ & _ & ?).
Qed.

(** ** Delivery order over runs *)

Lemma delivered_app (l : Listener) (e1 e2 : list Effect) :
  delivered l (e1 ++ e2) = delivered l e1 ++ delivered l e2.
Proof.
  induction e1 as [|[l0 err|l0|l0 batch|msg|msg] e1 IH]; cbn; [done..| |done|done].
  destruct (bool_decide (l0 = l)); [|done]. by rewrite IH, app_assoc.
Qed.

Lemma quiet_refl (s : State) : quiet s s [].
Proof. done. Qed.

Lemma quiet_trans (s s1 s2 : State) (e1 e2 : list Effect) :
  quiet s s1 e1 → quiet s1 s2 e2 → quiet s s2 (e1 ++ e2).
Proof.
  intros (Hn1 & Hd1 & He1) (Hn2 & Hd2 & He2). split_and!.
  - congruence.
  - intros l. by rewrite Hd2.
  - intros l. by rewrite delivered_app, He1, He2.
Qed.

Lemma serials_alter (f : TransactionStats → TransactionStats) (i : nat)
    (d : list TransactionStats) :
  (∀ t, serial (f t) = serial t) → serials (alter f i d) = serials d.
Proof.
  intros Hf. unfold serials. apply list_eq. intros j. rewrite !list_lookup_fmap.
  destruct (decide (i = j)) as [<-|Hne].
  - rewrite list_lookup_alter_eq. destruct (d !! i); cbn; by rewrite ?Hf.
  - by rewrite list_lookup_alter_ne.
Qed.

Lemma findTransactionStats_quiet (l : Listener) (ids : list CallbackId) (s : State)
    (o : Out (option nat)) :
  findTransactionStats l ids s = Ret o → quiet s (state o) (effects o).
Proof.
  unfold findTransactionStats.
  destruct (searchBackToFront ids _) as [[i|]|]; intros [= <-]; cbn;
    (split_and!; [by unfold subscript; destruct (_ !! l)
                 | intros l'; by rewrite dequeOf_subscript
                 | done]).
Qed.

Lemma addCallbackHandle_quiet (handle : CallbackHandle.t) (jankData : list JankData)
    (s : State) (o : Out status_t) :
  addCallbackHandle handle jankData s = Ret o → quiet s (state o) (effects o).
Proof.
  unfold addCallbackHandle.
  destruct (findTransactionStats _ _ s) as [[[i|] s1 effs]|] eqn:Hfind; [| |done];
    apply findTransactionStats_quiet in Hfind as (Hn & Hd & He); cbn in *;
    intros [= <-]; cbn; [|done].
  split_and!; [done | | done].
  intros l. rewrite <- Hd. unfold dequeOf at 1; cbn.
  destruct (decide (CallbackHandle.listener handle = l)) as [<-|Hne].
  - rewrite lookup_insert_eq; cbn. by apply serials_alter.
  - by rewrite lookup_insert_ne.
Qed.

Lemma finalizeCallbackHandle_quiet (handle : CallbackHandle.t) (jankData : list JankData)
    (s : State) (o : Out status_t) :
  finalizeCallbackHandle handle jankData s = Ret o → quiet s (state o) (effects o).
Proof.
  unfold finalizeCallbackHandle.
  pose proof (decrementPending_effects (CallbackHandle.listener handle)
                (CallbackHandle.callbackIds handle) (mPendingTransactions s)) as Hw.
  destruct (decrementPending _ _ _) as [pending' weffs]. cbn [snd] in Hw.
  assert (Hweffs : ∀ l, delivered l weffs = []).
  { intros l. destruct (entryOf _ _ _); [by rewrite Hw | by destruct Hw as [msg ->]]. }
  destruct (addCallbackHandle _ _ _) as [[err s2 effs2]|] eqn:Hadd; [|done].
  apply addCallbackHandle_quiet in Hadd as (Hn & Hd & He). cbn in *.
  destruct (bool_decide (err ≠ NO_ERROR)); intros [= <-]; cbn;
    (split_and!; [done | done |]); intros l;
    by rewrite !delivered_app, Hweffs, He.
Qed.

Lemma finalizeOnCommitCallbackHandles_quiet (handles : list CallbackHandle.t) (s : State)
    (o : Out (status_t * list CallbackHandle.t)) :
  finalizeOnCommitCallbackHandles handles s = Ret o → quiet s (state o) (effects o).
Proof.
  revert s o. induction handles as [|handle rest IH]; intros s o; cbn.
  { by intros [= <-]. }
  destruct (negb (containsOnCommitCallbacks _)).
  - destruct (finalizeOnCommitCallbackHandles rest s) as [[[err rem] s' effs]|] eqn:Hrest;
      [|done].
    intros [= <-]. by apply IH in Hrest.
  - destruct (finalizeCallbackHandle handle [] s) as [[err s1 effs1]|] eqn:Hfin; [|done].
    apply finalizeCallbackHandle_quiet in Hfin. cbn in Hfin.
    destruct (bool_decide (err ≠ NO_ERROR)); [by intros [= <-]|].
    destruct (finalizeOnCommitCallbackHandles rest s1) as [[r s2 effs2]|] eqn:Hrest; [|done].
    intros [= <-]. apply IH in Hrest. by eapply quiet_trans.
Qed.

Lemma finalizePendingCallbackHandles_quiet (handles : list CallbackHandle.t)
    (jankData : list JankData) (s : State) (o : Out status_t) :
  finalizePendingCallbackHandles handles jankData s = Ret o →
  quiet s (state o) (effects o).
Proof.
  revert s o. induction handles as [|handle rest IH]; intros s o; cbn.
  { by intros [= <-]. }
  destruct (finalizeCallbackHandle handle jankData s) as [[err s1 effs1]|] eqn:Hfin; [|done].
  apply finalizeCallbackHandle_quiet in Hfin. cbn in Hfin.
  destruct (bool_decide (err ≠ NO_ERROR)); [by intros [= <-]|].
  destruct (finalizePendingCallbackHandles rest jankData s1) as [[r s2 effs2]|] eqn:Hrest;
    [|done].
  intros [= <-]. apply IH in Hrest. by eapply quiet_trans.
Qed.

Lemma registerPendingCallbackHandle_quiet (handle : CallbackHandle.t) (s : State)
    (o : Out status_t) :
  registerPendingCallbackHandle handle s = Ret o → quiet s (state o) (effects o).
Proof.
  unfold registerPendingCallbackHandle.
  destruct (findTransactionStats _ _ s) as [[[i|] s1 effs]|] eqn:Hfind; [| |done];
    apply findTransactionStats_quiet in Hfind as (Hn & Hd & He); cbn in *;
    intros [= <-]; cbn; (split_and!; [done | done |]); [done|].
  intros l. by rewrite delivered_app, He.
Qed.

Lemma quiet_advances (s s' : State) (e : list Effect) (l : Listener) :
  quiet s s' e → advances s s' e l.
Proof.
  intros (Hn & Hd & He). left. split; [done|]. left. rewrite He. cbn [app]. apply Hd.
Qed.

Lemma startRegistration_advances (linkToDeath : Listener → status_t)
    (lc : ListenerCallbacks) (s : State) (l : Listener) :
  advances s (state (startRegistration linkToDeath lc s))
           (effects (startRegistration linkToDeath lc s)) l.
Proof.
  destruct lc as [l0 ids].
  destruct (set_contains (l0, ids) (mRegisteringTransactions s)) eqn:Hopen.
  { rewrite startRegistration_open by done. apply quiet_advances, quiet_refl. }
  rewrite startRegistration_fresh by done.
  assert (Hreg : ∀ e, delivered l e = [] → advances s (registered s l0 ids) e l).
  { intros e He. right. split; [done|]. rewrite He. cbn [app].
    rewrite dequeOf_registered. destruct (decide (l0 = l)) as [->|Hne]; [left | by right].
    unfold serials. by rewrite fmap_app. }
  destruct (mCompletedTransactions s !! l0); [by apply Hreg|].
  destruct (bool_decide (linkToDeath l0 ≠ NO_ERROR)); cbn [state effects]; [|by apply Hreg].
  by apply quiet_advances.
Qed.

(** The notifications of a cycle, seen from one listener. *)
Lemma delivered_sendListener (isBinderAlive : Listener → bool) (s : State)
    (l l0 : Listener) (d : list TransactionStats) :
  l0 ≠ l → delivered l (sendListener isBinderAlive s l0 d).2 = [].
Proof.
  intros Hne. unfold sendListener.
  destruct (walk s l0 d) as [[|t b] r]; [done|].
  destruct (isBinderAlive l0); [|done].
  destruct r; cbn; by rewrite bool_decide_eq_false_2.
Qed.

Lemma delivered_entries (isBinderAlive : Listener → bool) (s : State) (l : Listener)
    (entries : list (nat * list TransactionStats)) :
  NoDup entries.*1 →
  (∀ d, (l, d) ∈ entries →
        delivered l (mjoin ((λ entry, (sendListener isBinderAlive s entry.1 entry.2).2)
                              <$> entries))
        = delivered l (sendListener isBinderAlive s l d).2) ∧
  (l ∉ entries.*1 →
   delivered l (mjoin ((λ entry, (sendListener isBinderAlive s entry.1 entry.2).2)
                         <$> entries)) = []).
Proof.
  set (f := λ entry : nat * list TransactionStats,
              (sendListener isBinderAlive s entry.1 entry.2).2).
  induction entries as [|[l0 d0] entries IH]; intros Hnd.
  { split; [by intros d ?%elem_of_nil | done]. }
  rewrite fmap_cons in Hnd. apply NoDup_cons in Hnd as [Hfresh Hnd].
  destruct (IH Hnd) as [IHin IHout].
  change (mjoin (f <$> (l0, d0) :: entries))
    with (f (l0, d0) ++ mjoin (f <$> entries)).
  rewrite delivered_app. unfold f at 1 3. cbn [fst snd] in *.
  split.
  - intros d [[= <- <-]|Hin]%elem_of_cons.
    + rewrite IHout by done. by rewrite app_nil_r.
    + assert (l0 ≠ l).
      { intros ->. apply Hfresh, list_elem_of_fmap. by exists (l, d). }
      rewrite delivered_sendListener by done. by apply IHin.
  - intros Hout. rewrite fmap_cons, not_elem_of_cons in Hout. destruct Hout as [Hne Hout].
    rewrite delivered_sendListener by done. by apply IHout.
Qed.

Lemma delivered_sendCallbacks (isBinderAlive : Listener → bool) (s : State) (l : Listener) :
  delivered l (effects (sendCallbacks isBinderAlive s))
  = match mCompletedTransactions s !! l with
    | Some d => delivered l (sendListener isBinderAlive s l d).2
    | None => []
    end.
Proof.
  unfold sendCallbacks; cbn [effects].
  destruct (delivered_entries isBinderAlive s l (map_to_list (mCompletedTransactions s)))
    as [Hin Hout]; [apply NoDup_fst_map_to_list|].
  destruct (mCompletedTransactions s !! l) as [d|] eqn:Hl.
  - by apply Hin, elem_of_map_to_list.
  - apply Hout. intros ([l' d] & -> & Hld%elem_of_map_to_list)%list_elem_of_fmap.
    cbn in Hl. congruence.
Qed.

Lemma serials_stamp (s : State) (ts : list TransactionStats) :
  serials (stamp s <$> ts) = serials ts.
Proof.
  unfold serials. rewrite <- list_fmap_compose. apply list_fmap_ext.
  intros _ t _. apply serial_stamp.
Qed.

Lemma sendCallbacks_advances (isBinderAlive : Listener → bool) (s : State) (l : Listener) :
  advances s (state (sendCallbacks isBinderAlive s))
           (effects (sendCallbacks isBinderAlive s)) l.
Proof.
  left. split; [done|].
  rewrite delivered_sendCallbacks. unfold dequeOf. rewrite sendCallbacks_lookup.
  destruct (mCompletedTransactions s !! l) as [d|]; cbn [mbind option_bind]; [|by right].
  destruct (walk_prefix s l d) as (pre & Hd & Hb & _ & _).
  unfold sendListener. destruct (walk s l d) as [batch remaining]. cbn [fst snd] in *.
  assert (Hall : serials (batch ++ remaining) = serials d).
  { rewrite Hd, Hb. unfold serials. rewrite !fmap_app. f_equal. apply serials_stamp. }
  destruct batch as [|t batch]; [by left|].
  destruct (isBinderAlive l); [|by right].
  destruct remaining as [|r remaining]; cbn [fst snd delivered default from_option id].
  - rewrite bool_decide_eq_true_2 by done. left. by rewrite !app_nil_r in *.
  - rewrite bool_decide_eq_true_2 by done. left. by rewrite app_nil_r.
Qed.

Lemma step_advances (op : Op) (s s' : State) (e : list Effect) (l : Listener) :
  step op s = Ret (s', e) → advances s s' e l.
Proof.
  destruct op as [linkToDeath lc|lc|handle|handles|handles jankData|handle|fence|alive];
    cbn [step forget].
  - intros [= <- <-]. apply startRegistration_advances.
  - intros [= <- <-]. apply quiet_advances. unfold endRegistration.
    by destruct (set_contains lc _).
  - destruct (registerPendingCallbackHandle handle s) as [o|] eqn:Hop; [|done].
    intros [= <- <-]. by eapply quiet_advances, registerPendingCallbackHandle_quiet.
  - destruct (finalizeOnCommitCallbackHandles handles s) as [o|] eqn:Hop; [|done].
    intros [= <- <-]. by eapply quiet_advances, finalizeOnCommitCallbackHandles_quiet.
  - destruct (finalizePendingCallbackHandles handles jankData s) as [o|] eqn:Hop; [|done].
    intros [= <- <-]. by eapply quiet_advances, finalizePendingCallbackHandles_quiet.
  - destruct (registerUnpresentedCallbackHandle handle s) as [o|] eqn:Hop; [|done].
    intros [= <- <-]. by eapply quiet_advances, addCallbackHandle_quiet.
  - intros [= <- <-]. by apply quiet_advances.
  - intros [= <- <-]. apply sendCallbacks_advances.
Qed.

Lemma serials_app (ts1 ts2 : list TransactionStats) :
  serials (ts1 ++ ts2) = serials ts1 ++ serials ts2.
Proof. apply fmap_app. Qed.

Lemma sorted_bound_advances (A D X : list nat) (n n' : nat) :
  StronglySorted lt (A ++ D) →
  Forall (λ m, (m < n)%nat) (A ++ D) →
  (n' = n ∧ (X = D ∨ X = [])) ∨ (n' = S n ∧ (X = D ++ [n] ∨ X = D)) →
  StronglySorted lt (A ++ X) ∧ Forall (λ m, (m < n')%nat) (A ++ X).
Proof.
  intros (Hcross & HA & HD)%StronglySorted_app [HbA HbD]%Forall_app Hadv.
  assert (Hmono : ∀ xs : list nat, Forall (λ m, (m < n)%nat) xs →
                                   Forall (λ m, (m < S n)%nat) xs).
  { intros xs Hxs. eapply Forall_impl; [exact Hxs|]. cbn. lia. }
  destruct Hadv as [[-> [-> | ->]] | [-> [-> | ->]]].
  - split; [by apply StronglySorted_app | by apply Forall_app].
  - by rewrite app_nil_r.
  - split.
    + apply StronglySorted_app. split_and!; [|done|].
      * intros a x Ha [Hx|Hx%list_elem_of_singleton]%elem_of_app; [by apply Hcross|].
        subst x. rewrite Forall_forall in HbA. by apply HbA.
      * apply StronglySorted_app. split_and!; [|done|repeat constructor].
        intros a x Ha Hx%list_elem_of_singleton. subst x.
        rewrite Forall_forall in HbD. by apply HbD.
    + rewrite !Forall_app. split_and!; [by apply Hmono | by apply Hmono |].
      repeat constructor.
  - split; [by apply StronglySorted_app|].
    rewrite Forall_app. split; by apply Hmono.
Qed.

Lemma in_order_advances (s s' : State) (past e : list Effect) (l : Listener) :
  advances s s' e l → in_order s past l → in_order s' (past ++ e) l.
Proof.
  unfold advances, in_order. intros Hadv [Hsorted Hbound].
  rewrite delivered_app, <- app_assoc, serials_app.
  rewrite serials_app in Hsorted, Hbound.
  by eapply sorted_bound_advances.
Qed.

Lemma run_in_order (ops : list Op) (s : State) (past : list Effect) (l : Listener) :
  in_order s past l → in_order (run ops s).1 (past ++ (run ops s).2) l.
Proof.
  revert s past. induction ops as [|op ops IH]; intros s past Hinv; cbn [run].
  { by rewrite app_nil_r. }
  destruct (step op s) as [[s1 e]|] eqn:Hstep; [|by rewrite app_nil_r].
  specialize (IH s1 (past ++ e)).
  destruct (run ops s1) as [s2 e2]. cbn [fst snd] in *. rewrite app_assoc.
  by eapply IH, in_order_advances, Hinv; eapply step_advances.
Qed.

Lemma StronglySorted_lt_lookup (xs : list nat) (i j a b : nat) :
  StronglySorted lt xs → xs !! i = Some a → xs !! j = Some b →
  (a < b)%nat → (i < j)%nat.
Proof.
  intros Hsorted. revert i j. induction Hsorted as [|x xs _ IH Hx]; intros i j; [done|].
  rewrite Forall_forall in Hx.
  destruct i as [|i], j as [|j]; cbn.
  - intros [= ->] [= ->]. lia.
  - intros. lia.
  - intros Ha%list_elem_of_lookup_2 [= ->] Hlt. specialize (Hx _ Ha). lia.
  - intros Ha Hb Hlt. specialize (IH _ _ Ha Hb Hlt). lia.
Qed.

(** C1: over every run from the empty dispatcher, the transactions delivered
    to a listener, taken in delivery order (notification after notification,
    each from its first transaction to its last), have strictly increasing
    registration serials; so of two delivered transactions, the one
    registered earlier (lower serial) is delivered at an earlier position: a
    transaction is never delivered before one registered before it.  Within
    one cycle, a notification is a prefix of the listener's deque, front to
    back, with the present fence written into the transactions that required
    it. *)
Theorem C1_delivery_in_registration_order (l : Listener) :
  (∀ ops, StronglySorted lt (serials (delivered l (run ops initial).2))) ∧
  (∀ ops i j t1 t2,
     delivered l (run ops initial).2 !! i = Some t1 →
     delivered l (run ops initial).2 !! j = Some t2 →
     (serial t1 < serial t2)%nat →
     (i < j)%nat) ∧
  (∀ isBinderAlive s batch,
     OnTransactionCompleted l batch ∈ effects (sendCallbacks isBinderAlive s) →
     batch = stamp s <$> take (length batch) (dequeOf s l)).
Proof.
  assert (Hsorted : ∀ ops, StronglySorted lt (serials (delivered l (run ops initial).2))).
  { intros ops.
    destruct (run_in_order ops initial [] l) as [Hsorted _].
    { split; constructor. }
    cbn [app] in Hsorted. rewrite serials_app in Hsorted.
    by apply StronglySorted_app_1_l in Hsorted. }
  split_and!.
  - done.
  - intros ops i j t1 t2 Hi Hj Hlt.
    apply (StronglySorted_lt_lookup _ i j (serial t1) (serial t2) (Hsorted ops));
      [| |done]; unfold serials; rewrite list_lookup_fmap; by rewrite ?Hi, ?Hj.
  - intros alive s batch (d & Hd & -> & _ & _)%sendCallbacks_delivers.
    unfold dequeOf. rewrite Hd. cbn.
    destruct (walk_prefix s l d) as (pre & Hsplit & Hb & _ & _).
    rewrite Hb, length_fmap. f_equal.
    generalize (walk s l d).2 as r, Hsplit. intros r ->. by rewrite take_app_length.
Qed.

(** ** The ghost serials do not steer the dispatcher *)

Lemma erase_d_idemp (d : list TransactionStats) : erase_d (erase_d d) = erase_d d.
Proof. unfold erase_d. rewrite <- list_fmap_compose. by apply list_fmap_ext. Qed.

Lemma erase_e_idemp (e : list Effect) : erase_e <$> (erase_e <$> e) = erase_e <$> e.
Proof.
  rewrite <- list_fmap_compose. apply list_fmap_ext. intros _ [| | l b | |] _; cbn; [done..| |done|done].
  by rewrite erase_d_idemp.
Qed.

Lemma erase_s_idemp (s : State) : erase_s (erase_s s) = erase_s s.
Proof.
  unfold erase_s; cbn. f_equal. rewrite <- map_fmap_compose. apply map_fmap_ext.
  intros l d _. apply erase_d_idemp.
Qed.

Lemma lookup_erase_s (s : State) (l : Listener) :
  mCompletedTransactions (erase_s s) !! l = erase_d <$> mCompletedTransactions s !! l.
Proof. apply lookup_fmap. Qed.

Lemma dequeOf_erase_s (s : State) (l : Listener) :
  dequeOf (erase_s s) l = erase_d (dequeOf s l).
Proof. unfold dequeOf. rewrite lookup_erase_s. by destruct (mCompletedTransactions s !! l). Qed.

Lemma erase_s_withCompleted (s : State) (c : gmap nat (list TransactionStats)) :
  erase_s (withCompleted s c) = withCompleted (erase_s s) (erase_d <$> c).
Proof. done. Qed.

Lemma searchBackToFront_erase (ids : list CallbackId) (rdeque : list TransactionStats) :
  searchBackToFront ids (erase_d rdeque) = searchBackToFront ids rdeque.
Proof.
  unfold erase_d. induction rdeque as [|t rdeque IH]; [done|].
  rewrite fmap_cons. cbn [searchBackToFront]. rewrite IH, length_fmap.
  by change (callbackIds (erase_t t)) with (callbackIds t).
Qed.

Lemma subscript_erase (l : Listener) (s : State) :
  subscript l (erase_s s) = erase_s (subscript l s).
Proof.
  unfold subscript. rewrite lookup_erase_s.
  destruct (mCompletedTransactions s !! l); cbn [fmap option_fmap option_map]; [done|].
  rewrite erase_s_withCompleted. by rewrite fmap_insert.
Qed.

Lemma findTransactionStats_erase (l : Listener) (ids : list CallbackId) (s : State) :
  findTransactionStats l ids (erase_s s) = erase_r (findTransactionStats l ids s).
Proof.
  unfold findTransactionStats.
  rewrite subscript_erase, dequeOf_erase_s. unfold erase_d at 1.
  rewrite <- fmap_reverse. fold (erase_d (reverse (dequeOf (subscript l s) l))).
  rewrite searchBackToFront_erase.
  by destruct (searchBackToFront ids _) as [[i|]|].
Qed.

Lemma registerPendingCallbackHandle_erase (handle : CallbackHandle.t) (s : State) :
  registerPendingCallbackHandle handle (erase_s s)
  = erase_r (registerPendingCallbackHandle handle s).
Proof.
  unfold registerPendingCallbackHandle. rewrite findTransactionStats_erase.
  destruct (findTransactionStats _ _ s) as [[[i|] s1 effs]|]; cbn; [done| |done].
  unfold erase_o; cbn. by rewrite fmap_app.
Qed.

Lemma foldHandle_erase (handle : CallbackHandle.t) (jankData : list JankData)
    (d : list TransactionStats) (i : nat) :
  alter (foldHandle handle jankData) i (erase_d d)
  = erase_d (alter (foldHandle handle jankData) i d).
Proof. symmetry. apply list_fmap_alter, Forall_forall. done. Qed.

Lemma addCallbackHandle_erase (handle : CallbackHandle.t) (jankData : list JankData)
    (s : State) :
  addCallbackHandle handle jankData (erase_s s)
  = erase_r (addCallbackHandle handle jankData s).
Proof.
  unfold addCallbackHandle. rewrite findTransactionStats_erase.
  destruct (findTransactionStats _ _ s) as [[[i|] s1 effs]|]; cbn; [|done..].
  unfold erase_o; cbn. rewrite erase_s_withCompleted, fmap_insert.
  by rewrite dequeOf_erase_s, foldHandle_erase.
Qed.

Lemma decrementPending_erase (l : Listener) (ids : list CallbackId)
    (p : gmap nat (gmap (list CallbackId) Z)) :
  erase_e <$> (decrementPending l ids p).2 = (decrementPending l ids p).2.
Proof.
  pose proof (decrementPending_effects l ids p) as Hw.
  destruct (entryOf p l ids); [by rewrite Hw | by destruct Hw as [msg ->]].
Qed.

Lemma finalizeCallbackHandle_erase (handle : CallbackHandle.t) (jankData : list JankData)
    (s : State) :
  finalizeCallbackHandle handle jankData (erase_s s)
  = erase_r (finalizeCallbackHandle handle jankData s).
Proof.
  unfold finalizeCallbackHandle.
  change (mPendingTransactions (erase_s s)) with (mPendingTransactions s).
  pose proof (decrementPending_erase (CallbackHandle.listener handle)
                (CallbackHandle.callbackIds handle) (mPendingTransactions s)) as Hw.
  destruct (decrementPending _ _ _) as [pending' weffs]. cbn [snd] in Hw.
  change (withPending (erase_s s) pending') with (erase_s (withPending s pending')).
  rewrite addCallbackHandle_erase.
  destruct (addCallbackHandle _ _ (withPending s pending')) as [[err s2 effs2]|];
    cbn [erase_r erase_o value state effects]; [|done].
  destruct (bool_decide (err ≠ NO_ERROR)); unfold erase_r, erase_o; cbn [value state effects];
    by rewrite !fmap_app, Hw.
Qed.

Lemma finalizeOnCommitCallbackHandles_erase (handles : list CallbackHandle.t) (s : State) :
  finalizeOnCommitCallbackHandles handles (erase_s s)
  = erase_r (finalizeOnCommitCallbackHandles handles s).
Proof.
  revert s. induction handles as [|handle rest IH]; intros s; cbn [finalizeOnCommitCallbackHandles].
  { done. }
  destruct (negb (containsOnCommitCallbacks _)).
  - rewrite IH. by destruct (finalizeOnCommitCallbackHandles rest s) as [[[err rem] s' effs]|].
  - rewrite finalizeCallbackHandle_erase.
    destruct (finalizeCallbackHandle handle [] s) as [[err s1 effs1]|]; [|done].
    unfold erase_r at 1, erase_o at 1; cbn [value state effects].
    destruct (bool_decide (err ≠ NO_ERROR)); [done|]. rewrite IH.
    destruct (finalizeOnCommitCallbackHandles rest s1) as [[r s2 effs2]|]; [|done].
    unfold erase_r, erase_o; cbn [value state effects]. by rewrite fmap_app.
Qed.

Lemma finalizePendingCallbackHandles_erase (handles : list CallbackHandle.t)
    (jankData : list JankData) (s : State) :
  finalizePendingCallbackHandles handles jankData (erase_s s)
  = erase_r (finalizePendingCallbackHandles handles jankData s).
Proof.
  revert s. induction handles as [|handle rest IH]; intros s; cbn [finalizePendingCallbackHandles].
  { done. }
  rewrite finalizeCallbackHandle_erase.
  destruct (finalizeCallbackHandle handle jankData s) as [[err s1 effs1]|]; [|done].
  unfold erase_r at 1, erase_o at 1; cbn [value state effects].
  destruct (bool_decide (err ≠ NO_ERROR)); [done|]. rewrite IH.
  destruct (finalizePendingCallbackHandles rest jankData s1) as [[r s2 effs2]|]; [|done].
  unfold erase_r, erase_o; cbn [value state effects]. by rewrite fmap_app.
Qed.

Lemma erase_s_ext (s s' : State) :
  mRegisteringTransactions s = mRegisteringTransactions s' →
  mPendingTransactions s = mPendingTransactions s' →
  mPresentFence s = mPresentFence s' →
  (∀ l, erase_d <$> mCompletedTransactions s !! l
        = erase_d <$> mCompletedTransactions s' !! l) →
  erase_s s = erase_s s'.
Proof.
  intros Hreg Hpend Hfence Hdeques. unfold erase_s. rewrite Hreg, Hpend, Hfence. f_equal.
  apply map_eq. intros l. by rewrite !lookup_fmap.
Qed.

Lemma lookup_erase_erase (s : State) (l : Listener) :
  erase_d <$> mCompletedTransactions (erase_s s) !! l
  = erase_d <$> mCompletedTransactions s !! l.
Proof.
  rewrite lookup_erase_s. destruct (mCompletedTransactions s !! l) as [d|]; [|done].
  cbn. by rewrite erase_d_idemp.
Qed.

Lemma registered_erase (s : State) (l : Listener) (ids : list CallbackId) :
  erase_s (registered (erase_s s) l ids) = erase_s (registered s l ids).
Proof.
  apply erase_s_ext; [done..|]. intros l'. unfold registered; cbn [mCompletedTransactions].
  destruct (decide (l = l')) as [<-|Hne].
  - rewrite !lookup_insert_eq. cbn. f_equal. rewrite dequeOf_erase_s.
    unfold erase_d. rewrite !fmap_app. f_equal.
    apply (erase_d_idemp (dequeOf s l)).
  - rewrite !lookup_insert_ne by done. apply lookup_erase_erase.
Qed.

Lemma startRegistration_erase (linkToDeath : Listener → status_t)
    (lc : ListenerCallbacks) (s : State) :
  erase_o (startRegistration linkToDeath lc (erase_s s))
  = erase_o (startRegistration linkToDeath lc s).
Proof.
  destruct lc as [l ids].
  destruct (set_contains (l, ids) (mRegisteringTransactions s)) eqn:Hopen.
  { rewrite !startRegistration_open by done. unfold erase_o; cbn. by rewrite erase_s_idemp. }
  rewrite !startRegistration_fresh by done. rewrite lookup_erase_s.
  destruct (mCompletedTransactions s !! l); cbn [fmap option_fmap option_map].
  - unfold erase_o; cbn [value state effects]. by rewrite registered_erase.
  - destruct (bool_decide (linkToDeath l ≠ NO_ERROR)); unfold erase_o; cbn [value state effects].
    + f_equal. apply erase_s_ext; [done..|]. intros l'. apply (lookup_erase_erase s).
    + by rewrite registered_erase.
Qed.

Lemma walk_erase (s : State) (l : Listener) (d : list TransactionStats) :
  walk (erase_s s) l (erase_d d) = (erase_d (walk s l d).1, erase_d (walk s l d).2).
Proof.
  unfold erase_d. induction d as [|t rest IH]; [done|].
  rewrite fmap_cons. cbn [walk].
  change (isRegisteringTransaction (erase_s s) l (callbackIds (erase_t t)))
    with (isRegisteringTransaction s l (callbackIds t)).
  change (isPending (erase_s s) l (callbackIds (erase_t t)))
    with (isPending s l (callbackIds t)).
  change (needsPresentFence (erase_t t)) with (needsPresentFence t).
  change (mPresentFence (erase_s s)) with (mPresentFence s).
  rewrite IH.
  destruct (isRegisteringTransaction s l (callbackIds t)); [done|].
  destruct (isPending s l (callbackIds t)); [done|].
  destruct (needsPresentFence t).
  - destruct (mPresentFence s); [|done]. by destruct (walk s l rest).
  - by destruct (walk s l rest).
Qed.

Lemma sendListener_erase (isBinderAlive : Listener → bool) (s : State) (l : Listener)
    (d : list TransactionStats) :
  sendListener isBinderAlive (erase_s s) l (erase_d d)
  = (erase_d <$> (sendListener isBinderAlive s l d).1,
     erase_e <$> (sendListener isBinderAlive s l d).2).
Proof.
  unfold sendListener. rewrite walk_erase.
  destruct (walk s l d) as [[|t batch] [|r remaining]]; cbn [fst snd]; [done..| |].
  - by destruct (isBinderAlive l).
  - by destruct (isBinderAlive l).
Qed.

Lemma sendCallbacks_erase (isBinderAlive : Listener → bool) (s : State) :
  sendCallbacks isBinderAlive (erase_s s) = erase_o (sendCallbacks isBinderAlive s).
Proof.
  assert (Hstate :
    map_imap (λ l d, (sendListener isBinderAlive (erase_s s) l d).1)
             (erase_d <$> mCompletedTransactions s)
    = erase_d <$> map_imap (λ l d, (sendListener isBinderAlive s l d).1)
                           (mCompletedTransactions s)).
  { apply map_eq. intros l. rewrite lookup_fmap, !map_lookup_imap, lookup_fmap.
    destruct (mCompletedTransactions s !! l) as [d|]; [|done]. cbn.
    by rewrite sendListener_erase. }
  assert (Heffects :
    mjoin ((λ entry, (sendListener isBinderAlive (erase_s s) entry.1 entry.2).2)
             <$> map_to_list (erase_d <$> mCompletedTransactions s))
    = erase_e <$> mjoin ((λ entry, (sendListener isBinderAlive s entry.1 entry.2).2)
                           <$> map_to_list (mCompletedTransactions s))).
  { rewrite map_to_list_fmap.
    induction (map_to_list (mCompletedTransactions s)) as [|[l d] entries IH]; [done|].
    rewrite !fmap_cons. cbn [mjoin list_join prod_map fst snd id].
    rewrite fmap_app, sendListener_erase. cbn [snd]. f_equal. apply IH. }
  unfold sendCallbacks, erase_o. cbn [value state effects].
  f_equal; [|exact Heffects].
  transitivity (mkState (mRegisteringTransactions s) (mPendingTransactions s)
                  (erase_d <$> map_imap (λ l d, (sendListener isBinderAlive s l d).1)
                                        (mCompletedTransactions s))
                  None 0); [|done].
  by rewrite <- Hstate.
Qed.

(** One call started from two states that differ in serials only. *)
Lemma step_erase (op : Op) (s : State) :
  erase_step (step op (erase_s s)) = erase_step (step op s).
Proof.
  assert (Hexact : ∀ A (r : Result (Out A)),
             erase_step (forget (erase_r r)) = erase_step (forget r)).
  { intros A [o|]; [|done]. cbn. by rewrite erase_s_idemp, erase_e_idemp. }
  destruct op as [linkToDeath lc|lc|handle|handles|handles jankData|handle|fence|alive];
    cbn [step].
  - pose proof (startRegistration_erase linkToDeath lc s) as Heq.
    pose proof (f_equal state Heq) as Hs. pose proof (f_equal effects Heq) as He.
    cbn [erase_o state effects] in Hs, He. cbn [forget erase_step]. by rewrite Hs, He.
  - unfold endRegistration.
    change (mRegisteringTransactions (erase_s s)) with (mRegisteringTransactions s).
    destruct (set_contains lc _); cbn; [|by rewrite erase_s_idemp].
    f_equal. f_equal. apply erase_s_ext; [done..|]. intros l. apply (lookup_erase_erase s).
  - by rewrite registerPendingCallbackHandle_erase.
  - by rewrite finalizeOnCommitCallbackHandles_erase.
  - by rewrite finalizePendingCallbackHandles_erase.
  - unfold registerUnpresentedCallbackHandle. by rewrite addCallbackHandle_erase.
  - cbn. f_equal. f_equal. apply erase_s_ext; [done..|]. intros l. apply (lookup_erase_erase s).
  - rewrite sendCallbacks_erase. apply (Hexact _ (Ret (sendCallbacks alive s))).
Qed.

Lemma step_erase_eq (op : Op) (s s' : State) :
  erase_s s = erase_s s' → erase_step (step op s) = erase_step (step op s').
Proof. intros Heq. by rewrite <- (step_erase op s), <- (step_erase op s'), Heq. Qed.

(** Two runs of the same calls from states that differ in serials only make
    the same calls with the same payloads and end in states that differ in
    serials only: no method's control flow or result depends on a serial. *)
Theorem ghost_serials_erasable (ops : list Op) (s s' : State) :
  erase_s s = erase_s s' →
  erase_s (run ops s).1 = erase_s (run ops s').1 ∧
  erase_e <$> (run ops s).2 = erase_e <$> (run ops s').2.
Proof.
  revert s s'. induction ops as [|op ops IH]; intros s s' Heq; cbn [run]; [done|].
  pose proof (step_erase_eq op s s' Heq) as Hstep.
  destruct (step op s) as [[s1 e1]|], (step op s') as [[s1' e1']|]; try done.
  cbn [erase_step] in Hstep.
  assert (Hpair : (erase_s s1, erase_e <$> e1) = (erase_s s1', erase_e <$> e1'))
    by congruence.
  pose proof (f_equal fst Hpair) as Hs. pose proof (f_equal snd Hpair) as He.
  cbn [fst snd] in Hs, He.
  destruct (IH s1 s1' Hs) as [IHs IHe].
  destruct (run ops s1) as [s2 e2], (run ops s1') as [s2' e2']. cbn [fst snd] in *.
  split; [done|]. by rewrite !fmap_app, He, IHe.
Qed.

(** ** The claims on concrete states *)

Lemma effects_s_done5_open7 :
  effects (sendCallbacks allAlive s_done5_open7) = [OnTransactionCompleted 1 [done5]].
Proof. vm_compute. reflexivity. Qed.

Lemma effects_s_presented7 :
  effects (sendCallbacks allAlive s_presented7)
  = [OnTransactionCompleted 1 [presented7]; UnlinkToDeath 1].
Proof. vm_compute. reflexivity. Qed.

Lemma C1_delivery_in_registration_order_witness :
  (0 < 1)%nat ∧
  [done5] = stamp s_done5_open7 <$> take (length [done5]) (dequeOf s_done5_open7 1).
Proof.
  split.
  - apply (proj1 (proj2 (C1_delivery_in_registration_order 1))
             ops_B_finishes_first 0%nat 1%nat deliveredA deliveredB).
    + vm_compute. reflexivity.
    + vm_compute. reflexivity.
    + vm_compute. lia.
  - apply (proj2 (proj2 (C1_delivery_in_registration_order 1))
             allAlive s_done5_open7 [done5]).
    rewrite effects_s_done5_open7. apply list_elem_of_here.
Defined.

Lemma sendCallbacks_blocked_while_open_or_counted_witness :
  (∀ t, t ∈ [done5] →
     isRegisteringTransaction s_done5_open7 1 (callbackIds t) = false ∧
     pendingCount s_done5_open7 1 (callbackIds t) = 0) ∧
  (∀ pre t post,
     dequeOf s_done5_open7 1 = pre ++ t :: post →
     isRegisteringTransaction s_done5_open7 1 (callbackIds t) = true ∨
     pendingCount s_done5_open7 1 (callbackIds t) ≠ 0 →
     ∃ k, (k ≤ length pre)%nat ∧ [done5] = stamp s_done5_open7 <$> take k pre).
Proof.
  apply (sendCallbacks_blocked_while_open_or_counted allAlive s_done5_open7 1 [done5]).
  rewrite effects_s_done5_open7. apply list_elem_of_here.
Defined.

Lemma C3_present_fence_gate_witness :
  (∃ fence, mPresentFence s_presented7 = Some fence ∧ presentFence presented7 = Some fence) ∧
  (∃ batch,
     OnTransactionCompleted 1 batch ∈ effects (sendCallbacks allAlive s_done5_open7) ∧
     batch !! length (@nil TransactionStats) = Some done5).
Proof.
  split.
  - apply (proj1 (C3_present_fence_gate allAlive s_presented7 1) [presented7] presented7).
    + rewrite effects_s_presented7. apply list_elem_of_here.
    + apply list_elem_of_here.
    + vm_compute. discriminate.
    + reflexivity.
  - apply (proj2 (C3_present_fence_gate allAlive s_done5_open7 1) [] done5 [open7]).
    + vm_compute. reflexivity.
    + constructor.
    + reflexivity.
    + vm_compute. reflexivity.
    + vm_compute. reflexivity.
    + reflexivity.
Defined.

(** C3 (as stated) fails: the callback ids [1 commit; 2 complete] are not
    exclusively of commit type; their transaction is latched, no present
    fence is set, and the cycle delivers it, with no present fence attached.
    And a commit-only transaction that is latched, closed and without pending
    work is not delivered while an open transaction stands before it. *)
Lemma C3_mixed_ids_delivered_unpresented :
  (forallb (λ c, bool_decide (type c = ON_COMMIT)) mixed = false ∧
   mPresentFence s_mixed = None ∧
   dequeOf s_mixed 1
   = [mkTransactionStats mixed 100 None [surfaceStatsOf 9 handleMixed []] 0] ∧
   effects (sendCallbacks allAlive s_mixed)
   = [OnTransactionCompleted 1
        [mkTransactionStats mixed 100 None [surfaceStatsOf 9 handleMixed []] 0];
      UnlinkToDeath 1]) ∧
  (dequeOf s_open7_done5 1
   = [newTransactionStats complete7 0;
      mkTransactionStats commit5 100 None [surfaceStatsOf 9 handle5 []] 1] ∧
   isRegisteringTransaction s_open7_done5 1 commit5 = false ∧
   pendingCount s_open7_done5 1 commit5 = 0 ∧
   effects (sendCallbacks allAlive s_open7_done5) = []).
Proof. split_and!; vm_compute; reflexivity. Qed.

Lemma C6_unlink_after_delivery_witness :
  mCompletedTransactions (state (sendCallbacks allAlive s_done5)) !! 1%nat = None ∧
  if allAlive 1%nat then
    (UnlinkToDeath 1 ∈ effects (sendCallbacks allAlive s_done5) ∧
     OnTransactionCompleted 1 (stamp s_done5 <$> [done5])
       ∈ effects (sendCallbacks allAlive s_done5))
  else
    ((UnlinkToDeath 1 ∉ effects (sendCallbacks allAlive s_done5)) ∧
     (∀ batch, OnTransactionCompleted 1 batch ∉ effects (sendCallbacks allAlive s_done5))).
Proof.
  apply (C6_unlink_after_delivery allAlive s_done5 1 [done5]).
  - vm_compute. reflexivity.
  - discriminate.
  - vm_compute. reflexivity.
Defined.

(** C6 (as stated) fails: the listener's only transaction is deliverable, the
    binder is dead; after the cycle the listener tracks nothing, and the
    cycle has made no call at all, so no [unlinkToDeath]. *)
Lemma C6_dead_listener_not_unlinked :
  dequeOf s_done5 1 = [done5] ∧
  mCompletedTransactions (state (sendCallbacks noneAlive s_done5)) !! 1%nat = None ∧
  effects (sendCallbacks noneAlive s_done5) = [].
Proof. split_and!; vm_compute; reflexivity. Qed.

Lemma C5_failed_lookup_creates_entry_witness :
  ∃ s1 effs,
    registerPendingCallbackHandle handle7 initial = Ret (mkOut BAD_VALUE s1 effs) ∧
    s1 ≠ initial ∧
    mCompletedTransactions s1 !! CallbackHandle.listener handle7 = Some [] ∧
    ∀ linkToDeath ids,
      isRegisteringTransaction initial (CallbackHandle.listener handle7) ids = false →
      LinkToDeath (CallbackHandle.listener handle7)
                  (linkToDeath (CallbackHandle.listener handle7))
        ∈ effects (startRegistration linkToDeath (CallbackHandle.listener handle7, ids)
                                     initial) ∧
      startRegistration linkToDeath (CallbackHandle.listener handle7, ids) s1
      = mkOut NO_ERROR (registered s1 (CallbackHandle.listener handle7) ids) [].
Proof.
  apply (C5_failed_lookup_creates_entry handle7 initial). reflexivity.
Defined.

Lemma C7_finalizeCallbackHandle_counts_witness :
  ∃ s' effs' t t',
    finalizeCallbackHandle handle7 [] s_pending7 = Ret (mkOut NO_ERROR s' effs') ∧
    dequeOf s_pending7 1 !! 0%nat = Some t ∧
    mCompletedTransactions s'
    = <[1%nat := <[0%nat := t']> (dequeOf s_pending7 1)]> (mCompletedTransactions s_pending7) ∧
    latchTime t' = CallbackHandle.latchTime handle7 ∧
    surfaceStats t' =
      match CallbackHandle.surfaceControl handle7 with
      | Some sc => surfaceStats t ++ [surfaceStatsOf sc handle7 []]
      | None => surfaceStats t
      end ∧
    callbackIds t' = callbackIds t ∧
    presentFence t' = presentFence t ∧
    serial t' = serial t ∧
    (∀ l' ids', (l', ids') ≠ (1%nat, complete7) →
       entryOf (mPendingTransactions s') l' ids'
       = entryOf (mPendingTransactions s_pending7) l' ids') ∧
    match entryOf (mPendingTransactions s_pending7) 1 complete7 with
    | Some n =>
        entryOf (mPendingTransactions s') 1 complete7
          = (if uint32 (n - 1) =? 0 then None else Some (uint32 (n - 1))) ∧
        effs' = []
    | None =>
        entryOf (mPendingTransactions s') 1 complete7 = None ∧ ∃ msg, effs' = [ALOGW msg]
    end.
Proof.
  apply (C7_finalizeCallbackHandle_counts handle7 [] s_pending7 s_pending7 0 []).
  vm_compute. reflexivity.
Defined.

Lemma C8_addCallbackHandle_folds_witness :
  ∃ d t t',
    mCompletedTransactions s_pending7 !! CallbackHandle.listener handle7 = Some d ∧
    d !! 0%nat = Some t ∧
    addCallbackHandle handle7 [] s_pending7
      = Ret (mkOut NO_ERROR
               (withCompleted s_pending7
                  (<[CallbackHandle.listener handle7 := <[0%nat := t']> d]>
                     (mCompletedTransactions s_pending7))) []) ∧
    latchTime t' = CallbackHandle.latchTime handle7 ∧
    surfaceStats t' =
      match CallbackHandle.surfaceControl handle7 with
      | Some sc => surfaceStats t ++ [surfaceStatsOf sc handle7 []]
      | None => surfaceStats t
      end ∧
    callbackIds t' = callbackIds t ∧
    presentFence t' = presentFence t ∧
    serial t' = serial t.
Proof.
  apply (C8_addCallbackHandle_folds handle7 [] s_pending7 s_pending7 0 []).
  vm_compute. reflexivity.
Defined.

Lemma C9_startRegistration_idempotent_witness :
  isRegisteringTransaction
    (state (startRegistration linkOk (1%nat, complete7) initial)) 1 complete7 = true ∧
  startRegistration linkOk (1%nat, complete7)
                    (state (startRegistration linkOk (1%nat, complete7) initial))
  = mkOut NO_ERROR (state (startRegistration linkOk (1%nat, complete7) initial)) [] ∧
  dequeOf (state (startRegistration linkOk (1%nat, complete7) initial)) 1
  = dequeOf initial 1 ++ [newTransactionStats complete7 (mNextSerial initial)].
Proof.
  destruct (C9_startRegistration_idempotent linkOk linkOk (1%nat, complete7) initial)
    as (Hopen & Hsecond & Hgrown & _).
  - reflexivity.
  - split; [exact Hopen|]. split; [exact Hsecond|]. apply Hgrown. reflexivity.
Defined.

(** ** More on the lookup *)

Lemma searchBackToFront_spec (ids : list CallbackId) (rdeque : list TransactionStats)
    (found : option nat) :
  searchBackToFront ids rdeque = Ret found →
  match found with
  | Some i =>
      (∃ t, reverse rdeque !! i = Some t ∧ compareCallbackIds (callbackIds t) ids = Ret 0) ∧
      (∀ j t', (i < j)%nat → reverse rdeque !! j = Some t' →
               ∃ c, compareCallbackIds (callbackIds t') ids = Ret c ∧ c ≠ 0)
  | None =>
      ∀ t, t ∈ rdeque → ∃ c, compareCallbackIds (callbackIds t) ids = Ret c ∧ c ≠ 0
  end.
Proof.
  revert found. induction rdeque as [|itr older IH]; intros found; cbn [searchBackToFront].
  { intros [= <-]. by intros t ?%elem_of_nil. }
  destruct (compareCallbackIds (callbackIds itr) ids) as [c|] eqn:Hc; [|done].
  destruct (Z.eqb_spec c 0) as [->|Hne].
  - intros [= <-]. split.
    + exists itr. split; [|done].
      rewrite reverse_cons, lookup_app_r by (by rewrite length_reverse).
      by rewrite length_reverse, Nat.sub_diag.
    + intros j t' Hlt Hj. apply lookup_lt_Some in Hj.
      rewrite length_reverse in Hj. cbn in Hj. lia.
  - intros Hsearch. specialize (IH _ Hsearch). destruct found as [i|].
    + destruct IH as [(t & Ht & Hcmp) Hlater]. split.
      * exists t. split; [|done].
        rewrite reverse_cons, lookup_app_l; [done|]. by eapply lookup_lt_Some.
      * intros j t' Hlt. rewrite reverse_cons.
        destruct (decide (j < length (reverse older))%nat) as [Hin|Hout].
        -- rewrite lookup_app_l by done. by apply Hlater.
        -- rewrite lookup_app_r by lia. intros Hj.
           apply list_lookup_singleton_Some in Hj as [_ <-]. by exists c.
    + intros t [->|Ht]%elem_of_cons; [by exists c | by apply IH].
Qed.

(** X1: [findTransactionStats] points at the entry nearest the back of the
    listener's deque whose callback ids compare equal to the key (every entry
    behind it compares different), and reports no match only when every entry
    of the deque compares different. *)
Theorem findTransactionStats_most_recent_match (l : Listener) (ids : list CallbackId)
    (s : State) (o : Out (option nat)) :
  findTransactionStats l ids s = Ret o →
  match value o with
  | Some i =>
      (∃ t, dequeOf s l !! i = Some t ∧ compareCallbackIds (callbackIds t) ids = Ret 0) ∧
      (∀ j t', (i < j)%nat → dequeOf s l !! j = Some t' →
               ∃ c, compareCallbackIds (callbackIds t') ids = Ret c ∧ c ≠ 0)
  | None =>
      ∀ t, t ∈ dequeOf s l → ∃ c, compareCallbackIds (callbackIds t) ids = Ret c ∧ c ≠ 0
  end.
Proof.
  unfold findTransactionStats. rewrite dequeOf_subscript.
  destruct (searchBackToFront ids (reverse (dequeOf s l))) as [found|] eqn:Hsearch; [|done].
  apply searchBackToFront_spec in Hsearch. rewrite reverse_involutive in Hsearch.
  destruct found as [i|]; intros [= <-]; cbn [value].
  - done.
  - intros t Ht. apply Hsearch. by apply elem_of_reverse.
Qed.

(** X2: The lookup stays within defined behaviour when the key has a leading id
    and no entry of the listener's deque has a leading id whose difference to
    it overflows 64 bits. *)
Theorem findTransactionStats_defined (l : Listener) (k : CallbackId)
    (ids : list CallbackId) (s : State) :
  (∀ t a, t ∈ dequeOf s l → head (callbackIds t) = Some a →
          in_int64 (id a - id k) = true) →
  ∃ o, findTransactionStats l (k :: ids) s = Ret o.
Proof.
  intros Hrange. unfold findTransactionStats. rewrite dequeOf_subscript.
  assert (Hsearch : ∃ found, searchBackToFront (k :: ids) (reverse (dequeOf s l)) = Ret found).
  { assert (Hall : ∀ t, t ∈ reverse (dequeOf s l) → t ∈ dequeOf s l)
      by (intros t; by rewrite elem_of_reverse).
    induction (reverse (dequeOf s l)) as [|itr older IH]; [by eexists|].
    cbn [searchBackToFront].
    assert (Hcmp : ∃ c, compareCallbackIds (callbackIds itr) (k :: ids) = Ret c).
    { destruct (callbackIds itr) as [|a rest] eqn:Hids; [by eexists|].
      cbn [compareCallbackIds]. rewrite (Hrange itr a); [by eexists| |by rewrite Hids].
      apply Hall. by left. }
    destruct Hcmp as [c ->]. destruct (c =? 0); [by eexists|].
    apply IH. intros t Ht. apply Hall. by right. }
  destruct Hsearch as [[i|] ->]; by eexists.
Qed.

(** ** What the methods that take handles leave alone *)

Lemma same_transaction_refl (d : list TransactionStats) : Forall2 same_transaction d d.
Proof. induction d; constructor; done. Qed.

Lemma same_transaction_trans (d1 d2 d3 : list TransactionStats) :
  Forall2 same_transaction d1 d2 → Forall2 same_transaction d2 d3 →
  Forall2 same_transaction d1 d3.
Proof.
  intros H12. revert d3. induction H12 as [|t1 t2 d1 d2 (? & ? & ?) _ IH]; intros d3 H23.
  - by inversion H23.
  - inversion H23 as [|? t3 ? d3' (? & ? & ?) H23']; subst. constructor; [|by apply IH].
    split_and!; congruence.
Qed.

Lemma handles_only_refl (s : State) : handles_only s s [].
Proof. split_and!; try done. intros l. apply same_transaction_refl. Qed.

Lemma handles_only_trans (s s1 s2 : State) (e1 e2 : list Effect) :
  handles_only s s1 e1 → handles_only s1 s2 e2 → handles_only s s2 (e1 ++ e2).
Proof.
  intros (Hr1 & Hf1 & Hn1 & Hd1 & Hp1 & He1) (Hr2 & Hf2 & Hn2 & Hd2 & Hp2 & He2).
  split_and!; try congruence.
  - intros l. by eapply same_transaction_trans.
  - auto.
  - by apply Forall_app.
Qed.

Lemma handles_only_log (s s' : State) (e e' : list Effect) :
  handles_only s s' e → Forall isLog e' → handles_only s s' (e ++ e').
Proof.
  intros (? & ? & ? & ? & ? & ?) ?. split_and!; try done. by apply Forall_app.
Qed.

Lemma findTransactionStats_handles_only (l : Listener) (ids : list CallbackId) (s : State)
    (o : Out (option nat)) :
  findTransactionStats l ids s = Ret o → handles_only s (state o) (effects o).
Proof.
  unfold findTransactionStats.
  assert (Hsub : ∀ e, Forall isLog e → handles_only s (subscript l s) e).
  { intros e He. split_and!; try done; try (unfold subscript; by destruct (_ !! l)).
    intros l'. rewrite dequeOf_subscript. apply same_transaction_refl. }
  destruct (searchBackToFront ids _) as [[i|]|]; intros [= <-]; cbn [state effects];
    apply Hsub; by repeat constructor.
Qed.

Lemma addCallbackHandle_handles_only (handle : CallbackHandle.t) (jankData : list JankData)
    (s : State) (o : Out status_t) :
  addCallbackHandle handle jankData s = Ret o → handles_only s (state o) (effects o).
Proof.
  unfold addCallbackHandle.
  destruct (findTransactionStats _ _ s) as [[[i|] s1 effs]|] eqn:Hfind; [| |done];
    apply findTransactionStats_handles_only in Hfind; cbn [state effects] in Hfind;
    intros [= <-]; cbn [state effects]; [|done].
  rewrite <- (app_nil_r effs). eapply handles_only_trans; [exact Hfind|].
  split_and!; try done. intros l. unfold dequeOf at 1; cbn.
  destruct (decide (CallbackHandle.listener handle = l)) as [<-|Hne].
  - rewrite lookup_insert_eq; cbn.
    apply Forall2_alter_l; [apply same_transaction_refl|]. by intros t t' _ _ (? & ? & ?).
  - rewrite lookup_insert_ne by done. apply same_transaction_refl.
Qed.

Lemma decrementPending_ok (l : Listener) (ids : list CallbackId)
    (p : gmap nat (gmap (list CallbackId) Z)) :
  pending_ok p → pending_ok (decrementPending l ids p).1.
Proof.
  intros Hok l' inner'. unfold decrementPending.
  destruct (p !! l) as [inner|] eqn:Hl; [|by apply Hok].
  set (updated := match inner !! ids with
                  | Some n => if uint32 (n - 1) =? 0 then (delete ids inner, [])
                              else (<[ids := uint32 (n - 1)]> inner, [])
                  | None => (inner, [ALOGW "there are more latched callbacks than there were registered callbacks"])
                  end).
  destruct updated as [inner1 effs].
  destruct (Nat.eqb_spec (size inner1) 0) as [Hsz|Hsz]; cbn [fst].
  - destruct (decide (l = l')) as [<-|Hne].
    + by rewrite lookup_delete_eq.
    + rewrite lookup_delete_ne by done. apply Hok.
  - destruct (decide (l = l')) as [<-|Hne].
    + rewrite lookup_insert_eq. intros [= <-] ->. by rewrite map_size_empty in Hsz.
    + rewrite lookup_insert_ne by done. apply Hok.
Qed.

Lemma finalizeCallbackHandle_handles_only (handle : CallbackHandle.t)
    (jankData : list JankData) (s : State) (o : Out status_t) :
  finalizeCallbackHandle handle jankData s = Ret o → handles_only s (state o) (effects o).
Proof.
  unfold finalizeCallbackHandle.
  pose proof (decrementPending_effects (CallbackHandle.listener handle)
                (CallbackHandle.callbackIds handle) (mPendingTransactions s)) as Hw.
  pose proof (decrementPending_ok (CallbackHandle.listener handle)
                (CallbackHandle.callbackIds handle) (mPendingTransactions s)) as Hok.
  destruct (decrementPending _ _ _) as [pending' weffs]. cbn [fst snd] in Hw, Hok.
  assert (Hdec : handles_only s (withPending s pending') weffs).
  { split_and!; try done; [intros l; apply same_transaction_refl|].
    destruct (entryOf _ _ _); [rewrite Hw; constructor|].
    destruct Hw as [msg ->]. by repeat constructor. }
  destruct (addCallbackHandle _ _ _) as [[err s2 effs2]|] eqn:Hadd; [|done].
  apply addCallbackHandle_handles_only in Hadd. cbn [state effects] in Hadd.
  destruct (bool_decide (err ≠ NO_ERROR)); intros [= <-]; cbn [state effects].
  - rewrite app_assoc. apply handles_only_log; [by eapply handles_only_trans|].
    by repeat constructor.
  - by eapply handles_only_trans.
Qed.

Lemma finalizeOnCommitCallbackHandles_handles_only (handles : list CallbackHandle.t)
    (s : State) (o : Out (status_t * list CallbackHandle.t)) :
  finalizeOnCommitCallbackHandles handles s = Ret o → handles_only s (state o) (effects o).
Proof.
  revert s o. induction handles as [|handle rest IH]; intros s o;
    cbn [finalizeOnCommitCallbackHandles].
  { intros [= <-]. apply handles_only_refl. }
  destruct (negb (containsOnCommitCallbacks _)).
  - destruct (finalizeOnCommitCallbackHandles rest s) as [[[err rem] s' effs]|] eqn:Hrest;
      [|done].
    intros [= <-]. by apply IH in Hrest.
  - destruct (finalizeCallbackHandle handle [] s) as [[err s1 effs1]|] eqn:Hfin; [|done].
    apply finalizeCallbackHandle_handles_only in Hfin. cbn [state effects] in Hfin.
    destruct (bool_decide (err ≠ NO_ERROR)); [by intros [= <-]|].
    destruct (finalizeOnCommitCallbackHandles rest s1) as [[r s2 effs2]|] eqn:Hrest; [|done].
    intros [= <-]. apply IH in Hrest. by eapply handles_only_trans.
Qed.

Lemma finalizePendingCallbackHandles_handles_only (handles : list CallbackHandle.t)
    (jankData : list JankData) (s : State) (o : Out status_t) :
  finalizePendingCallbackHandles handles jankData s = Ret o →
  handles_only s (state o) (effects o).
Proof.
  revert s o. induction handles as [|handle rest IH]; intros s o;
    cbn [finalizePendingCallbackHandles].
  { intros [= <-]. apply handles_only_refl. }
  destruct (finalizeCallbackHandle handle jankData s) as [[err s1 effs1]|] eqn:Hfin; [|done].
  apply finalizeCallbackHandle_handles_only in Hfin. cbn [state effects] in Hfin.
  destruct (bool_decide (err ≠ NO_ERROR)); [by intros [= <-]|].
  destruct (finalizePendingCallbackHandles rest jankData s1) as [[r s2 effs2]|] eqn:Hrest;
    [|done].
  intros [= <-]. apply IH in Hrest. by eapply handles_only_trans.
Qed.

Lemma registerPendingCallbackHandle_handles_only (handle : CallbackHandle.t) (s : State)
    (o : Out status_t) :
  registerPendingCallbackHandle handle s = Ret o → handles_only s (state o) (effects o).
Proof.
  unfold registerPendingCallbackHandle.
  destruct (findTransactionStats _ _ s) as [[[i|] s1 effs]|] eqn:Hfind; [| |done];
    apply findTransactionStats_handles_only in Hfind; cbn [state effects] in Hfind;
    intros [= <-]; cbn [state effects].
  - rewrite <- (app_nil_r effs). eapply handles_only_trans; [exact Hfind|].
    split_and!; try done; [intros l; apply same_transaction_refl|].
    intros Hok l inner. cbn [mPendingTransactions withPending].
    destruct (decide (CallbackHandle.listener handle = l)) as [<-|Hne].
    + rewrite lookup_insert_eq. intros [= <-]. apply insert_non_empty.
    + rewrite lookup_insert_ne by done. apply Hok.
  - apply handles_only_log; [done|]. by repeat constructor.
Qed.

(** ** The registration set as a set *)

Lemma sameListenerCallbacks_sym (a b : ListenerCallbacks) :
  sameListenerCallbacks a b = sameListenerCallbacks b a.
Proof.
  destruct a as [l1 [|x c1]], b as [l2 [|y c2]]; unfold sameListenerCallbacks; cbn;
    repeat case_bool_decide; try done; congruence.
Qed.

Lemma sameListenerCallbacks_trans (a b c : ListenerCallbacks) :
  sameListenerCallbacks a b = true → sameListenerCallbacks b c = true →
  sameListenerCallbacks a c = true.
Proof.
  destruct a as [l1 [|x c1]], b as [l2 [|y c2]], c as [l3 [|z c3]];
    unfold sameListenerCallbacks; cbn;
    repeat case_bool_decide; try done; congruence.
Qed.

Lemma set_contains_false (lc : ListenerCallbacks) (set : list ListenerCallbacks) :
  set_contains lc set = false ↔ ∀ x, x ∈ set → sameListenerCallbacks lc x = false.
Proof.
  unfold set_contains. induction set as [|y set IH]; cbn [existsb].
  - split; [by intros _ x ?%elem_of_nil | done].
  - rewrite orb_false_iff, IH. split.
    + intros [Hy Hset] x [->|Hx]%elem_of_cons; auto.
    + intros Hall. split; [apply Hall; by left|]. intros x Hx. apply Hall. by right.
Qed.

Lemma set_contains_same (a b : ListenerCallbacks) (set : list ListenerCallbacks) :
  sameListenerCallbacks a b = true → set_contains a set = set_contains b set.
Proof.
  intros Hab. unfold set_contains. induction set as [|x set IH]; [done|].
  cbn [existsb]. rewrite IH. f_equal.
  destruct (sameListenerCallbacks a x) eqn:Hax, (sameListenerCallbacks b x) eqn:Hbx; try done.
  - rewrite sameListenerCallbacks_sym in Hab.
    by rewrite (sameListenerCallbacks_trans _ _ _ Hab Hax) in Hbx.
  - by rewrite (sameListenerCallbacks_trans _ _ _ Hab Hbx) in Hax.
Qed.

Lemma elem_of_set_erase (lc x : ListenerCallbacks) (set : list ListenerCallbacks) :
  x ∈ set_erase lc set → x ∈ set.
Proof.
  induction set as [|y set IH]; cbn [set_erase]; [done|].
  destruct (sameListenerCallbacks lc y).
  - by right.
  - intros [->|Hx]%elem_of_cons; [by left | right; by apply IH].
Qed.

Lemma distinct_pairs_snoc (lc : ListenerCallbacks) (set : list ListenerCallbacks) :
  distinct_pairs set → set_contains lc set = false → distinct_pairs (set ++ [lc]).
Proof.
  induction set as [|x set IH]; cbn [distinct_pairs app]; [done|].
  intros [Hx Hset] Hlc0. pose proof (proj1 (set_contains_false _ _) Hlc0) as Hlc.
  split; [|apply IH; [done|]].
  - apply set_contains_false. intros y [Hy|Hy]%elem_of_app.
    + revert y Hy. by apply set_contains_false.
    + apply list_elem_of_singleton in Hy as ->.
      rewrite sameListenerCallbacks_sym. apply Hlc. by left.
  - apply set_contains_false. intros y Hy. apply Hlc. by right.
Qed.

Lemma distinct_pairs_erase (lc : ListenerCallbacks) (set : list ListenerCallbacks) :
  distinct_pairs set → distinct_pairs (set_erase lc set).
Proof.
  induction set as [|x set IH]; cbn [distinct_pairs set_erase]; [done|].
  intros [Hx Hset]. destruct (sameListenerCallbacks lc x); [done|].
  split; [|by apply IH].
  apply set_contains_false. intros y Hy%elem_of_set_erase. revert y Hy.
  by apply set_contains_false.
Qed.

(** Erasing a pair from a set without equal pairs removes it, and leaves the
    membership of every pair that is not equal to it. *)
Lemma set_contains_erase (lc lc' : ListenerCallbacks) (set : list ListenerCallbacks) :
  distinct_pairs set →
  set_contains lc' (set_erase lc set)
  = if sameListenerCallbacks lc' lc then false else set_contains lc' set.
Proof.
  induction set as [|x set IH]; cbn [distinct_pairs set_erase].
  { intros _. by destruct (sameListenerCallbacks lc' lc). }
  intros [Hx Hset]. destruct (sameListenerCallbacks lc x) eqn:Hlcx.
  - destruct (sameListenerCallbacks lc' lc) eqn:Hsame.
    + rewrite (set_contains_same lc' x); [done|]. by eapply sameListenerCallbacks_trans.
    + unfold set_contains at 2. cbn [existsb]. fold (set_contains lc' set).
      destruct (sameListenerCallbacks lc' x) eqn:Hx'; [|done].
      rewrite sameListenerCallbacks_sym in Hlcx.
      by rewrite (sameListenerCallbacks_trans _ _ _ Hx' Hlcx) in Hsame.
  - unfold set_contains at 1 2. cbn [existsb]. fold (set_contains lc' (set_erase lc set)).
    fold (set_contains lc' set). rewrite IH by done.
    destruct (sameListenerCallbacks lc' lc) eqn:Hsame; [|done].
    rewrite orb_false_r. destruct (sameListenerCallbacks lc' x) eqn:Hx'; [|done].
    rewrite sameListenerCallbacks_sym in Hsame.
    by rewrite (sameListenerCallbacks_trans _ _ _ Hsame Hx') in Hlcx.
Qed.

(** ** What holds in every state of a run *)

Lemma run_invariant (P : State → Prop) (Q : Effect → Prop) :
  (∀ op s s' e, P s → step op s = Ret (s', e) → P s' ∧ Forall Q e) →
  ∀ ops s, P s → P (run ops s).1 ∧ Forall Q (run ops s).2.
Proof.
  intros Hstep ops. induction ops as [|op ops IH]; intros s Hs; cbn [run]; [by split|].
  destruct (step op s) as [[s1 e]|] eqn:Hop; [|by split].
  destruct (Hstep _ _ _ _ Hs Hop) as [Hs1 He].
  destruct (IH s1 Hs1) as [Hs2 He2].
  destruct (run ops s1) as [s2 e2]. cbn [fst snd] in *. split; [done|]. by apply Forall_app.
Qed.

Lemma handles_only_tidy (s s' : State) (e : list Effect) :
  handles_only s s' e → tidy s → tidy s' ∧ Forall fenced_as_needed e.
Proof.
  intros (Hreg & _ & _ & Hdeques & Hpending & Hlogs) (Hfence & Hok & Hdistinct).
  split; [split_and!|].
  - intros l t' (i & Hi)%list_elem_of_lookup.
    destruct (Forall2_lookup_l _ _ _ _ _ (Hdeques l) Hi) as (t & Ht & _ & -> & _).
    eapply Hfence, list_elem_of_lookup_2, Ht.
  - by apply Hpending.
  - by rewrite Hreg.
  - eapply Forall_impl; [exact Hlogs|]. by intros [].
Qed.

Lemma registered_tidy (s : State) (l : Listener) (ids : list CallbackId) :
  set_contains (l, ids) (mRegisteringTransactions s) = false →
  tidy s → tidy (registered s l ids).
Proof.
  intros Hfresh (Hfence & Hok & Hdistinct). split_and!.
  - intros l' t. rewrite dequeOf_registered. destruct (decide (l = l')) as [<-|Hne].
    + intros [Ht|Ht]%elem_of_app; [by eapply Hfence|].
      by apply list_elem_of_singleton in Ht as ->.
    + apply Hfence.
  - done.
  - by apply distinct_pairs_snoc.
Qed.

Lemma startRegistration_tidy (linkToDeath : Listener → status_t) (lc : ListenerCallbacks)
    (s : State) :
  tidy s →
  tidy (state (startRegistration linkToDeath lc s)) ∧
  Forall fenced_as_needed (effects (startRegistration linkToDeath lc s)).
Proof.
  intros Htidy. destruct lc as [l ids].
  destruct (set_contains (l, ids) (mRegisteringTransactions s)) eqn:Hopen.
  { rewrite startRegistration_open by done. by split. }
  rewrite startRegistration_fresh by done.
  destruct (mCompletedTransactions s !! l).
  - split; [by apply registered_tidy | constructor].
  - destruct (bool_decide (linkToDeath l ≠ NO_ERROR)); cbn [state effects].
    + split; [|by repeat constructor].
      destruct Htidy as (Hfence & Hok & Hdistinct). split_and!; [done..|].
      by apply distinct_pairs_snoc.
    + split; [by apply registered_tidy | by repeat constructor].
Qed.

Lemma stamp_fenced (s : State) (l : Listener) (t : TransactionStats) :
  presentFence t = None → deliverable s l t = true →
  is_Some (presentFence (stamp s t)) ↔ needsPresentFence (stamp s t) = true.
Proof.
  intros Hnone (_ & _ & Hfence)%deliverable_inv. rewrite needsPresentFence_stamp.
  unfold stamp. destruct (needsPresentFence t) eqn:Hneeds.
  - cbn. split; [done|]. intros _. by apply Hfence.
  - rewrite Hnone. split; [by intros [? ?] | done].
Qed.

Lemma sendCallbacks_tidy (isBinderAlive : Listener → bool) (s : State) :
  tidy s →
  tidy (state (sendCallbacks isBinderAlive s)) ∧
  Forall fenced_as_needed (effects (sendCallbacks isBinderAlive s)).
Proof.
  intros (Hfence & Hok & Hdistinct). split; [split_and!; [|done..]|].
  - intros l t. unfold dequeOf. rewrite sendCallbacks_lookup.
    destruct (mCompletedTransactions s !! l) as [d|] eqn:Hd; cbn [mbind option_bind];
      [|by intros ?%elem_of_nil].
    destruct (walk_prefix s l d) as (pre & Hsplit & _).
    assert (Hrest : ∀ t', t' ∈ (walk s l d).2 → presentFence t' = None).
    { intros t' Ht'. apply (Hfence l). unfold dequeOf. rewrite Hd. cbn.
      rewrite Hsplit. apply elem_of_app. by right. }
    unfold sendListener. destruct (walk s l d) as [[|b batch] remaining]; cbn [fst snd] in *.
    + apply Hrest.
    + destruct (isBinderAlive l); [|by intros ?%elem_of_nil].
      destruct remaining; [by intros ?%elem_of_nil|]. apply Hrest.
  - apply Forall_forall. intros [l err|l|l batch|msg|msg] He; try done.
    apply sendCallbacks_delivers in He as (d & Hd & -> & _ & _).
    destruct (walk_prefix s l d) as (pre & Hsplit & -> & Hall & _).
    intros t (t0 & -> & Ht0)%list_elem_of_fmap.
    rewrite Forall_forall in Hall. apply (stamp_fenced s l); [|by apply Hall].
    apply (Hfence l). unfold dequeOf. rewrite Hd. cbn. rewrite Hsplit.
    apply elem_of_app. by left.
Qed.

Lemma step_tidy (op : Op) (s s' : State) (e : list Effect) :
  tidy s → step op s = Ret (s', e) → tidy s' ∧ Forall fenced_as_needed e.
Proof.
  intros Htidy.
  destruct op as [linkToDeath lc|lc|handle|handles|handles jankData|handle|fence|alive];
    cbn [step forget].
  - intros [= <- <-]. by apply startRegistration_tidy.
  - intros [= <- <-]. unfold endRegistration.
    destruct (set_contains lc _); cbn [state effects]; [|by split; [|repeat constructor]].
    split; [|constructor]. destruct Htidy as (Hfence & Hok & Hdistinct).
    split_and!; [done..|]. by apply distinct_pairs_erase.
  - destruct (registerPendingCallbackHandle handle s) as [o|] eqn:Hop; [|done].
    intros [= <- <-]. eapply handles_only_tidy; [|done].
    by eapply registerPendingCallbackHandle_handles_only.
  - destruct (finalizeOnCommitCallbackHandles handles s) as [o|] eqn:Hop; [|done].
    intros [= <- <-]. eapply handles_only_tidy; [|done].
    by eapply finalizeOnCommitCallbackHandles_handles_only.
  - destruct (finalizePendingCallbackHandles handles jankData s) as [o|] eqn:Hop; [|done].
    intros [= <- <-]. eapply handles_only_tidy; [|done].
    by eapply finalizePendingCallbackHandles_handles_only.
  - destruct (registerUnpresentedCallbackHandle handle s) as [o|] eqn:Hop; [|done].
    intros [= <- <-]. eapply handles_only_tidy; [|done].
    by eapply addCallbackHandle_handles_only.
  - intros [= <- <-]. by split.
  - intros [= <- <-]. by apply sendCallbacks_tidy.
Qed.

Lemma tidy_initial : tidy initial.
Proof.
  split_and!.
  - intros l t. unfold dequeOf, initial; cbn. rewrite lookup_empty. by intros ?%elem_of_nil.
  - intros l inner Hl. cbn in Hl. by rewrite lookup_empty in Hl.
  - done.
Qed.

Lemma reachable_tidy (s : State) : reachable s → tidy s.
Proof.
  intros [ops ->]. apply (run_invariant tidy fenced_as_needed); [|apply tidy_initial].
  intros op s s' e Hs Hstep. by eapply step_tidy.
Qed.

(** X3: Over every run from the empty dispatcher, a transaction that is sent to a
    listener carries a present fence exactly when it is latched and not led
    by a commit id, and a transaction still in the ledger carries none. *)
Theorem present_fence_exactly_when_needed (ops : list Op) (l : Listener) :
  (∀ batch t,
     OnTransactionCompleted l batch ∈ (run ops initial).2 → t ∈ batch →
     (is_Some (presentFence t) ↔ needsPresentFence t = true)) ∧
  (∀ t, t ∈ dequeOf (run ops initial).1 l → presentFence t = None).
Proof.
  destruct (run_invariant tidy fenced_as_needed
              (λ op s s' e Hs Hstep, step_tidy op s s' e Hs Hstep) ops initial tidy_initial)
    as [(Hfence & _) Hsent].
  split; [|apply Hfence].
  intros batch t Hin. rewrite Forall_forall in Hsent. by apply (Hsent _ Hin).
Qed.

(** X4: Over every run from the empty dispatcher, a listener that is in the
    pending table has at least one callback-id vector with a count: the entry
    of a listener is erased with its last count. *)
Theorem pending_table_has_no_empty_listener (ops : list Op) (l : Listener)
    (pendingCallbacks : gmap (list CallbackId) Z) :
  mPendingTransactions (run ops initial).1 !! l = Some pendingCallbacks →
  ∃ ids n, pendingCallbacks !! ids = Some n.
Proof.
  intros Hl. destruct (reachable_tidy (run ops initial).1) as (_ & Hok & _); [by exists ops|].
  specialize (Hok _ _ Hl).
  destruct (map_choose _ Hok) as (ids & n & Hn). by exists ids, n.
Qed.

(** ** Closing a registration *)

(** X5: In every state of a run, [endRegistration] of an open pair returns
    NO_ERROR without logging and closes that pair only: the pair is no longer
    registering, every pair that is not equal to it is registering exactly if
    it was, and the ledger and the pending table are untouched.  Ending it a
    second time returns BAD_VALUE, logs, and changes nothing. *)
Theorem endRegistration_closes_one (ops : list Op) (l : Listener) (ids : list CallbackId) :
  let s := (run ops initial).1 in
  let o := endRegistration (l, ids) s in
  isRegisteringTransaction s l ids = true →
  value o = NO_ERROR ∧ effects o = [] ∧
  isRegisteringTransaction (state o) l ids = false ∧
  (∀ l' ids', sameListenerCallbacks (l', ids') (l, ids) = false →
     isRegisteringTransaction (state o) l' ids' = isRegisteringTransaction s l' ids') ∧
  mCompletedTransactions (state o) = mCompletedTransactions s ∧
  mPendingTransactions (state o) = mPendingTransactions s ∧
  endRegistration (l, ids) (state o)
  = mkOut BAD_VALUE (state o) [ALOGE "cannot end a registration that does not exist"].
Proof.
  intros s o Hopen. subst o.
  destruct (reachable_tidy s) as (_ & _ & Hdistinct); [by exists ops|].
  unfold isRegisteringTransaction in *.
  assert (Hend : endRegistration (l, ids) s
                 = mkOut NO_ERROR
                     (withRegistering s (set_erase (l, ids) (mRegisteringTransactions s))) []).
  { unfold endRegistration. by rewrite Hopen. }
  rewrite !Hend. cbn [value state effects withRegistering mRegisteringTransactions
                      mCompletedTransactions mPendingTransactions].
  assert (Hclosed : set_contains (l, ids) (set_erase (l, ids) (mRegisteringTransactions s))
                    = false).
  { by rewrite set_contains_erase, sameListenerCallbacks_refl. }
  split_and!; try done.
  - intros l' ids' Hother. by rewrite set_contains_erase, Hother.
  - unfold endRegistration. cbn [mRegisteringTransactions withRegistering]. by rewrite Hclosed.
Qed.

Lemma set_erase_snoc (lc : ListenerCallbacks) (set : list ListenerCallbacks) :
  set_contains lc set = false → set_erase lc (set ++ [lc]) = set.
Proof.
  induction set as [|x set IH]; cbn [set_erase app].
  - intros _. by rewrite sameListenerCallbacks_refl.
  - unfold set_contains. cbn [existsb]. intros [-> Hset]%orb_false_iff. by rewrite IH.
Qed.

Lemma endRegistration_last (l : Listener) (ids : list CallbackId)
    (set : list ListenerCallbacks) (s1 : State) :
  set_contains (l, ids) set = false →
  mRegisteringTransactions s1 = set ++ [(l, ids)] →
  set_contains (l, ids) (mRegisteringTransactions s1) = true ∧
  endRegistration (l, ids) s1 = mkOut NO_ERROR (withRegistering s1 set) [].
Proof.
  intros Hfresh Hs1.
  assert (Hopen : set_contains (l, ids) (set ++ [(l, ids)]) = true).
  { apply set_contains_In, in_app_iff. right. by left. }
  unfold endRegistration. rewrite Hs1, Hopen. split; [done|].
  by rewrite set_erase_snoc.
Qed.

Lemma startRegistration_appends (linkToDeath : Listener → status_t) (l : Listener)
    (ids : list CallbackId) (s : State) :
  set_contains (l, ids) (mRegisteringTransactions s) = false →
  mRegisteringTransactions (state (startRegistration linkToDeath (l, ids) s))
  = mRegisteringTransactions s ++ [(l, ids)].
Proof.
  intros Hfresh. rewrite startRegistration_fresh by done.
  destruct (mCompletedTransactions s !! l); [done|].
  by destruct (bool_decide (linkToDeath l ≠ NO_ERROR)).
Qed.

(** X6: [startRegistration] of a pair that is not open, whether it succeeds or
    fails in [linkToDeath], followed by [endRegistration] of the same pair:
    [endRegistration] returns NO_ERROR and the registration set is again what
    it was before the two calls. *)
Theorem start_then_end_restores_the_set (linkToDeath : Listener → status_t)
    (l : Listener) (ids : list CallbackId) (s : State) :
  isRegisteringTransaction s l ids = false →
  let s1 := state (startRegistration linkToDeath (l, ids) s) in
  isRegisteringTransaction s1 l ids = true ∧
  endRegistration (l, ids) s1
  = mkOut NO_ERROR (withRegistering s1 (mRegisteringTransactions s)) [].
Proof.
  unfold isRegisteringTransaction. intros Hfresh. cbn zeta.
  apply endRegistration_last; [done|]. by apply startRegistration_appends.
Qed.

(** X7: When [linkToDeath] fails for a listener that has no ledger entry,
    [startRegistration] returns the binder's error and appends nothing, but
    the pair stays in the registration set: a second [startRegistration] of
    the pair returns NO_ERROR without calling [linkToDeath] and without
    creating a transaction, so that no handle of the pair can be found. *)
Theorem failed_link_leaves_registration_open (linkToDeath linkToDeath' : Listener → status_t)
    (l : Listener) (ids : list CallbackId) (s : State) (handle : CallbackHandle.t) :
  mCompletedTransactions s !! l = None →
  isRegisteringTransaction s l ids = false →
  linkToDeath l ≠ NO_ERROR →
  CallbackHandle.listener handle = l →
  let o := startRegistration linkToDeath (l, ids) s in
  value o = linkToDeath l ∧
  mCompletedTransactions (state o) = mCompletedTransactions s ∧
  isRegisteringTransaction (state o) l ids = true ∧
  startRegistration linkToDeath' (l, ids) (state o) = mkOut NO_ERROR (state o) [] ∧
  ∃ o', registerPendingCallbackHandle handle (state o) = Ret o' ∧ value o' = BAD_VALUE.
Proof.
  unfold isRegisteringTransaction. intros Hl Hfresh Herr <-.
  rewrite startRegistration_fresh, Hl by done.
  rewrite bool_decide_eq_true_2 by done. cbn [value state effects].
  assert (Hopen : set_contains (CallbackHandle.listener handle, ids)
                    (mRegisteringTransactions s ++ [(CallbackHandle.listener handle, ids)])
                  = true).
  { apply set_contains_In, in_app_iff. right. by left. }
  split_and!; try done.
  - by apply startRegistration_open.
  - unfold registerPendingCallbackHandle, findTransactionStats.
    rewrite dequeOf_subscript. unfold dequeOf. cbn [withRegistering mCompletedTransactions].
    rewrite Hl. cbn. by eexists.
Qed.

(** X8: A transaction registered for a listener without a ledger entry and closed
    before any handle was registered for it is delivered by the next cycle,
    as it was created: not latched, with no present fence and no result
    record; the listener is linked by the registration and unlinked by the
    cycle, and has no ledger entry afterwards. *)
Theorem empty_transaction_is_delivered (linkToDeath : Listener → status_t)
    (isBinderAlive : Listener → bool) (l : Listener) (ids : list CallbackId) (s : State) :
  mCompletedTransactions s !! l = None →
  isRegisteringTransaction s l ids = false →
  entryOf (mPendingTransactions s) l ids = None →
  linkToDeath l = NO_ERROR →
  isBinderAlive l = true →
  let started := startRegistration linkToDeath (l, ids) s in
  let ended := endRegistration (l, ids) (state started) in
  let sent := sendCallbacks isBinderAlive (state ended) in
  effects started = [LinkToDeath l NO_ERROR] ∧
  value ended = NO_ERROR ∧
  OnTransactionCompleted l [newTransactionStats ids (mNextSerial s)] ∈ effects sent ∧
  UnlinkToDeath l ∈ effects sent ∧
  mCompletedTransactions (state sent) !! l = None.
Proof.
  intros Hl Hfresh Hentry Hlink Halive started ended sent.
  unfold isRegisteringTransaction in Hfresh.
  destruct (endRegistration_last l ids (mRegisteringTransactions s)
              (state (startRegistration linkToDeath (l, ids) s)) Hfresh
              (startRegistration_appends linkToDeath l ids s Hfresh)) as [_ Hend].
  subst sent ended started. rewrite Hend. clear Hend.
  rewrite startRegistration_fresh, Hl, Hlink by done.
  rewrite bool_decide_eq_false_2 by (by intros []). cbn [value state effects].
  set (s2 := withRegistering (registered s l ids) (mRegisteringTransactions s)).
  set (t := newTransactionStats ids (mNextSerial s)).
  assert (Hd : mCompletedTransactions s2 !! l = Some [t]).
  { cbn. rewrite lookup_insert_eq. unfold dequeOf. by rewrite Hl. }
  assert (Hwalk : walk s2 l [t] = ([t], [])).
  { cbn [walk]. unfold isRegisteringTransaction. cbn [callbackIds t newTransactionStats].
    change (mRegisteringTransactions s2) with (mRegisteringTransactions s).
    rewrite Hfresh, isPending_entryOf.
    change (mPendingTransactions s2) with (mPendingTransactions s). by rewrite Hentry. }
  split_and!; try done.
  - apply sendCallbacks_delivers. exists [t]. by rewrite Hwalk.
  - apply sendCallbacks_effects. exists l, [t]. split; [done|].
    apply sendListener_unlinks. by rewrite Hwalk.
  - rewrite sendCallbacks_lookup, Hd. cbn [mbind option_bind].
    unfold sendListener. by rewrite Hwalk, Halive.
Qed.

(** ** Counting pending work *)

Lemma entryOf_insert (p : gmap nat (gmap (list CallbackId) Z)) (l l' : Listener)
    (ids ids' : list CallbackId) (n : Z) :
  entryOf (<[l := <[ids := n]> (default ∅ (p !! l))]> p) l' ids'
  = if decide ((l', ids') = (l, ids)) then Some n else entryOf p l' ids'.
Proof.
  unfold entryOf. destruct (decide (l' = l)) as [->|Hne].
  - rewrite lookup_insert_eq. cbn. destruct (decide (ids' = ids)) as [->|Hne'].
    + by rewrite lookup_insert_eq, decide_True.
    + rewrite lookup_insert_ne, decide_False by congruence.
      destruct (p !! l); [done|]. cbn. apply lookup_empty.
  - rewrite lookup_insert_ne, decide_False by congruence. done.
Qed.

Lemma registerPendingCallbackHandle_resolved (handle : CallbackHandle.t) (s s1 : State)
    (i : nat) (effs : list Effect) :
  let l := CallbackHandle.listener handle in
  let ids := CallbackHandle.callbackIds handle in
  findTransactionStats l ids s = Ret (mkOut (Some i) s1 effs) →
  registerPendingCallbackHandle handle s
  = Ret (mkOut NO_ERROR
           (withPending s
              (<[l := <[ids := uint32 (default 0 (entryOf (mPendingTransactions s) l ids) + 1)]>
                        (default ∅ (mPendingTransactions s !! l))]>
                 (mPendingTransactions s)))
           []).
Proof.
  intros l ids Hfind. unfold registerPendingCallbackHandle. fold l ids. rewrite Hfind.
  apply findTransactionStats_Some in Hfind as (-> & -> & _).
  unfold entryOf. by destruct (mPendingTransactions s !! l).
Qed.

(** X9: When the handle resolves, [registerPendingCallbackHandle] returns
    NO_ERROR without logging, adds one ([uint32_t]) to the count of the
    handle's listener and callback ids (a count that is absent counts as 0)
    and changes nothing else; a dispatch cycle run in the state it leaves
    sends no transaction of that listener with these callback ids. *)
Theorem registerPendingCallbackHandle_counts_and_blocks (handle : CallbackHandle.t)
    (s s1 : State) (i : nat) (effs : list Effect) :
  let l := CallbackHandle.listener handle in
  let ids := CallbackHandle.callbackIds handle in
  findTransactionStats l ids s = Ret (mkOut (Some i) s1 effs) →
  ∃ s',
    registerPendingCallbackHandle handle s = Ret (mkOut NO_ERROR s' []) ∧
    entryOf (mPendingTransactions s') l ids
    = Some (uint32 (default 0 (entryOf (mPendingTransactions s) l ids) + 1)) ∧
    (∀ l' ids', (l', ids') ≠ (l, ids) →
       entryOf (mPendingTransactions s') l' ids' = entryOf (mPendingTransactions s) l' ids') ∧
    mCompletedTransactions s' = mCompletedTransactions s ∧
    mRegisteringTransactions s' = mRegisteringTransactions s ∧
    mPresentFence s' = mPresentFence s ∧
    (∀ isBinderAlive batch t,
       OnTransactionCompleted l batch ∈ effects (sendCallbacks isBinderAlive s') →
       t ∈ batch → callbackIds t ≠ ids).
Proof.
  intros l ids Hfind. eexists. split; [by eapply registerPendingCallbackHandle_resolved|].
  fold l ids. cbn [withPending mPendingTransactions mCompletedTransactions
                   mRegisteringTransactions mPresentFence].
  set (n := uint32 (default 0 (entryOf (mPendingTransactions s) l ids) + 1)).
  set (s' := withPending s _).
  assert (Hentry : entryOf (mPendingTransactions s') l ids = Some n).
  { subst s'. cbn [withPending mPendingTransactions]. by rewrite entryOf_insert, decide_True. }
  split_and!; try done.
  - intros l' ids' Hne. by rewrite entryOf_insert, decide_False.
  - intros alive batch t (d & Hd & -> & _ & _)%sendCallbacks_delivers Ht Hids.
    destruct (walk_prefix s' l d) as (pre & _ & Hb & Hall & _).
    rewrite Hb in Ht. apply list_elem_of_fmap in Ht as (t0 & -> & Ht0).
    rewrite Forall_forall in Hall. apply Hall, deliverable_inv in Ht0 as (_ & Hpend & _).
    rewrite callbackIds_stamp in Hids. rewrite Hids, isPending_entryOf, Hentry in Hpend.
    by apply bool_decide_eq_false_1 in Hpend; destruct Hpend.
Qed.

(** C2: a work unit is not always counted against the transaction it is
    accepted for, and the transaction is then delivered while the work unit
    is pending.  [registerPendingCallbackHandle] finds the transaction of a
    handle by the leading callback id alone and returns NO_ERROR, but records
    the count under the handle's whole vector of callback ids;
    [sendCallbacks] looks the count up under the transaction's vector.  (1)
    Whenever the handle resolves to a transaction whose vector differs from
    the handle's, the call counts the work unit under the handle's vector,
    the count of the transaction is what it was, and so is the answer of the
    three tests of the walk for it.  (2) On the empty dispatcher:
    (1, [7]) is registered, a handle with ids [7; 8] is registered as pending
    (resolved to that transaction, NO_ERROR), the registration is closed; the
    count of the work unit is 1, and [sendCallbacks] delivers the transaction
    and drops the listener; the finalize of the work unit then finds no
    transaction and returns BAD_VALUE. *)
Theorem C2_delivered_with_work_pending :
  (∀ (handle : CallbackHandle.t) (s s1 : State) (i : nat) (effs : list Effect)
     (t : TransactionStats),
     let l := CallbackHandle.listener handle in
     let ids := CallbackHandle.callbackIds handle in
     findTransactionStats l ids s = Ret (mkOut (Some i) s1 effs) →
     dequeOf s l !! i = Some t →
     callbackIds t ≠ ids →
     ∃ s',
       registerPendingCallbackHandle handle s = Ret (mkOut NO_ERROR s' []) ∧
       entryOf (mPendingTransactions s') l ids
       = Some (uint32 (default 0 (entryOf (mPendingTransactions s) l ids) + 1)) ∧
       dequeOf s' l = dequeOf s l ∧
       pendingCount s' l (callbackIds t) = pendingCount s l (callbackIds t) ∧
       deliverable s' l t = deliverable s l t) ∧
  (let s1 := state (startRegistration linkOk (1%nat, complete7) initial) in
   let s2 := withPending s1 {[1%nat := {[complete78 := 1]}]} in
   let s3 := state (endRegistration (1%nat, complete7) s2) in
   let sent := sendCallbacks allAlive s3 in
   findTransactionStats 1 complete78 s1 = Ret (mkOut (Some 0%nat) s1 []) ∧
   dequeOf s1 1 = [newTransactionStats complete7 0] ∧
   registerPendingCallbackHandle handle78 s1 = Ret (mkOut NO_ERROR s2 []) ∧
   entryOf (mPendingTransactions s3) 1 complete78 = Some 1 ∧
   pendingCount s3 1 complete7 = 0 ∧
   effects sent
   = [OnTransactionCompleted 1 [newTransactionStats complete7 0]; UnlinkToDeath 1] ∧
   finalizeCallbackHandle handle78 [] (state sent)
   = Ret (mkOut BAD_VALUE (mkState [] ∅ {[1%nat := []]} None 1)
            [ALOGE "could not find transaction stats";
             ALOGE "could not add callback handle"])).
Proof.
  split.
  - intros handle s s1 i effs t l ids Hfind Ht Hids.
    pose proof (registerPendingCallbackHandle_resolved handle s s1 i effs Hfind) as Hreg.
    fold l ids in Hreg. eexists. split; [exact Hreg|].
    assert (Hentry : ∀ ids',
              entryOf (<[l := <[ids := uint32 (default 0 (entryOf (mPendingTransactions s) l ids)
                                                 + 1)]>
                                (default ∅ (mPendingTransactions s !! l))]>
                        (mPendingTransactions s)) l ids'
              = if decide ((l, ids') = (l, ids))
                then Some (uint32 (default 0 (entryOf (mPendingTransactions s) l ids) + 1))
                else entryOf (mPendingTransactions s) l ids').
    { intros ids'. apply entryOf_insert. }
    split_and!.
    + cbn [withPending mPendingTransactions]. by rewrite Hentry, decide_True.
    + done.
    + unfold pendingCount. cbn [withPending mPendingTransactions].
      change (default 0 (entryOf (<[l := <[ids := uint32
                (default 0 (entryOf (mPendingTransactions s) l ids) + 1)]>
                (default ∅ (mPendingTransactions s !! l))]> (mPendingTransactions s))
                l (callbackIds t))
              = default 0 (entryOf (mPendingTransactions s) l (callbackIds t))).
      rewrite Hentry, decide_False by congruence. done.
    + unfold deliverable. rewrite !isPending_entryOf.
      cbn [withPending mPendingTransactions mPresentFence].
      rewrite Hentry, decide_False by congruence. done.
  - cbn zeta. split_and!; by vm_compute.
Qed.

Lemma C2_delivered_with_work_pending_witness :
  ∃ s',
    registerPendingCallbackHandle handle78
      (state (startRegistration linkOk (1%nat, complete7) initial))
    = Ret (mkOut NO_ERROR s' []) ∧
    deliverable s' 1 (newTransactionStats complete7 0)
    = deliverable (state (startRegistration linkOk (1%nat, complete7) initial)) 1
        (newTransactionStats complete7 0).
Proof.
  destruct (proj1 C2_delivered_with_work_pending handle78
              (state (startRegistration linkOk (1%nat, complete7) initial))
              (state (startRegistration linkOk (1%nat, complete7) initial))
              0%nat [] (newTransactionStats complete7 0))
    as (s' & Hreg & _ & _ & _ & Hdeliv).
  - vm_compute. reflexivity.
  - vm_compute. reflexivity.
  - vm_compute. discriminate.
  - exists s'. split; [exact Hreg | exact Hdeliv].
Defined.

Lemma finalizeCallbackHandle_resolved (handle : CallbackHandle.t) (jankData : list JankData)
    (s s1 : State) (i : nat) (effs : list Effect) :
  let l := CallbackHandle.listener handle in
  let ids := CallbackHandle.callbackIds handle in
  findTransactionStats l ids s = Ret (mkOut (Some i) s1 effs) →
  finalizeCallbackHandle handle jankData s
  = Ret (mkOut NO_ERROR
           (mkState (mRegisteringTransactions s)
                    (decrementPending l ids (mPendingTransactions s)).1
                    (<[l := alter (foldHandle handle jankData) i (dequeOf s l)]>
                       (mCompletedTransactions s))
                    (mPresentFence s) (mNextSerial s))
           (decrementPending l ids (mPendingTransactions s)).2).
Proof.
  intros l ids Hfind. unfold finalizeCallbackHandle. fold l ids.
  destruct (decrementPending l ids (mPendingTransactions s)) as [pending' weffs].
  unfold addCallbackHandle. fold l ids.
  rewrite findTransactionStats_withPending, Hfind. cbn.
  apply findTransactionStats_Some in Hfind as (-> & -> & _).
  by rewrite app_nil_r.
Qed.

Lemma uint32_round_trip (n : Z) : 0 <= n < 2 ^ 32 → uint32 (uint32 (n + 1) - 1) = n.
Proof.
  intros Hn. unfold uint32. destruct (decide (n = 2 ^ 32 - 1)) as [->|Hne].
  - by vm_compute.
  - rewrite (Z.mod_small (n + 1)) by lia. rewrite Z.mod_small by lia. lia.
Qed.

(** X10: Registering a handle as pending and finalizing it restores the pending
    table: when the handle resolves and the count of its listener and
    callback ids is absent or a [uint32_t] other than 0, both calls return
    NO_ERROR without logging, every count is afterwards what it was before,
    and the handle has been folded into the entry it resolves to. *)
Theorem register_then_finalize_restores_counts (handle : CallbackHandle.t)
    (jankData : list JankData) (s s1 : State) (i : nat) (effs : list Effect) :
  let l := CallbackHandle.listener handle in
  let ids := CallbackHandle.callbackIds handle in
  findTransactionStats l ids s = Ret (mkOut (Some i) s1 effs) →
  (∀ n, entryOf (mPendingTransactions s) l ids = Some n → 0 < n < 2 ^ 32) →
  ∃ s' s'',
    registerPendingCallbackHandle handle s = Ret (mkOut NO_ERROR s' []) ∧
    finalizeCallbackHandle handle jankData s' = Ret (mkOut NO_ERROR s'' []) ∧
    (∀ l' ids', entryOf (mPendingTransactions s'') l' ids'
                = entryOf (mPendingTransactions s) l' ids') ∧
    dequeOf s'' l = alter (foldHandle handle jankData) i (dequeOf s l) ∧
    (∀ l', l' ≠ l → dequeOf s'' l' = dequeOf s l').
Proof.
  intros l ids Hfind Hrange.
  pose proof (registerPendingCallbackHandle_resolved handle s s1 i effs Hfind) as Hreg.
  fold l ids in Hreg.
  set (n := default 0 (entryOf (mPendingTransactions s) l ids)) in *.
  set (s' := withPending s _) in Hreg.
  assert (Hfind' : findTransactionStats l ids s' = Ret (mkOut (Some i) s' [])).
  { subst s'. rewrite findTransactionStats_withPending, Hfind. cbn.
    by apply findTransactionStats_Some in Hfind as (-> & -> & _). }
  pose proof (finalizeCallbackHandle_resolved handle jankData s' s' i [] Hfind') as Hfin.
  fold l ids in Hfin.
  assert (Hentry : entryOf (mPendingTransactions s') l ids = Some (uint32 (n + 1))).
  { subst s'. cbn [withPending mPendingTransactions]. by rewrite entryOf_insert, decide_True. }
  assert (Hn : 0 <= n < 2 ^ 32).
  { subst n. destruct (entryOf (mPendingTransactions s) l ids) as [m|] eqn:Hm; cbn.
    - specialize (Hrange m eq_refl). lia.
    - lia. }
  pose proof (decrementPending_effects l ids (mPendingTransactions s')) as Hw.
  rewrite Hentry in Hw. rewrite Hw in Hfin.
  eexists _, _. split; [exact Hreg|]. split; [exact Hfin|].
  cbn [mPendingTransactions]. split_and!.
  - intros l' ids'. rewrite decrementPending_entry, Hentry, uint32_round_trip by done.
    destruct (decide ((l', ids') = (l, ids))) as [[= -> ->]|Hne].
    + subst n. destruct (entryOf (mPendingTransactions s) l ids) as [m|] eqn:Hm; cbn.
      * specialize (Hrange m eq_refl). destruct (Z.eqb_spec m 0); [lia|done].
      * done.
    + subst s'. cbn [withPending mPendingTransactions]. by rewrite entryOf_insert, decide_False.
  - unfold dequeOf at 1. cbn. by rewrite lookup_insert_eq.
  - intros l' Hne. unfold dequeOf. cbn. by rewrite lookup_insert_ne.
Qed.

Lemma findTransactionStats_no_entry (l : Listener) (ids : list CallbackId) (s : State) :
  dequeOf s l = [] →
  findTransactionStats l ids s
  = Ret (mkOut None (subscript l s) [ALOGE "could not find transaction stats"]).
Proof. intros Hd. unfold findTransactionStats. by rewrite dequeOf_subscript, Hd. Qed.

(** X11: A finalize whose handle does not resolve returns BAD_VALUE, and the count
    of the handle has been decremented all the same: the decrement comes
    before the lookup and is not undone.  No deque changes and nothing is
    sent. *)
Theorem unresolved_finalize_still_decrements (handle : CallbackHandle.t)
    (jankData : list JankData) (s s1 : State) (effs : list Effect) :
  let l := CallbackHandle.listener handle in
  let ids := CallbackHandle.callbackIds handle in
  findTransactionStats l ids s = Ret (mkOut None s1 effs) →
  ∃ s' effs',
    finalizeCallbackHandle handle jankData s = Ret (mkOut BAD_VALUE s' effs') ∧
    entryOf (mPendingTransactions s') l ids
    = match entryOf (mPendingTransactions s) l ids with
      | Some n => if uint32 (n - 1) =? 0 then None else Some (uint32 (n - 1))
      | None => None
      end ∧
    (∀ l', dequeOf s' l' = dequeOf s l') ∧
    Forall isLog effs' ∧
    ALOGE "could not add callback handle" ∈ effs'.
Proof.
  intros l ids Hfind. unfold finalizeCallbackHandle. fold l ids.
  pose proof (decrementPending_entry l l ids ids (mPendingTransactions s)) as Hentry.
  rewrite decide_True in Hentry by done.
  pose proof (decrementPending_effects l ids (mPendingTransactions s)) as Hw.
  destruct (decrementPending l ids (mPendingTransactions s)) as [pending' weffs].
  cbn [fst snd] in *.
  unfold addCallbackHandle. fold l ids.
  rewrite findTransactionStats_withPending, Hfind. cbn [value state effects].
  rewrite bool_decide_eq_true_2 by done.
  eexists _, _. split; [reflexivity|].
  pose proof (findTransactionStats_handles_only _ _ _ _ Hfind) as (_ & _ & _ & Hd & _ & Hlog).
  cbn [state effects] in Hd, Hlog.
  unfold findTransactionStats in Hfind.
  destruct (searchBackToFront ids _) as [[j|]|]; [done| |done].
  injection Hfind as <- <-.
  split_and!.
  - done.
  - intros l'. unfold dequeOf. cbn. fold (dequeOf (subscript l s) l').
    apply dequeOf_subscript.
  - apply Forall_app. split.
    + destruct (entryOf (mPendingTransactions s) l ids); [rewrite Hw; constructor|].
      destruct Hw as [msg ->]. by repeat constructor.
    + by repeat constructor.
  - apply elem_of_app. right. apply elem_of_app. right. apply list_elem_of_here.
Qed.

(** ** More on a dispatch cycle *)

(** X12: In one dispatch cycle a listener is notified at most once, and never
    with an empty batch: the batch of any notification to [l] is not empty
    and is everything the cycle delivers to [l]. *)
Theorem one_notification_per_listener (isBinderAlive : Listener → bool) (s : State)
    (l : Listener) (batch : list TransactionStats) :
  OnTransactionCompleted l batch ∈ effects (sendCallbacks isBinderAlive s) →
  batch ≠ [] ∧ delivered l (effects (sendCallbacks isBinderAlive s)) = batch.
Proof.
  intros (d & Hd & -> & Hne & Halive)%sendCallbacks_delivers. split; [done|].
  rewrite delivered_sendCallbacks, Hd. unfold sendListener.
  destruct (walk s l d) as [b r]. cbn [fst] in *. destruct b as [|t b]; [done|].
  rewrite Halive.
  destruct r; cbn [snd delivered]; rewrite bool_decide_eq_true_2 by done;
    by rewrite app_nil_r.
Qed.

Lemma isRegisteringTransaction_sendCallbacks (isBinderAlive : Listener → bool) (s : State)
    (l : Listener) (ids : list CallbackId) :
  isRegisteringTransaction (state (sendCallbacks isBinderAlive s)) l ids
  = isRegisteringTransaction s l ids.
Proof. done. Qed.

Lemma isPending_sendCallbacks (isBinderAlive : Listener → bool) (s : State)
    (l : Listener) (ids : list CallbackId) :
  isPending (state (sendCallbacks isBinderAlive s)) l ids = isPending s l ids.
Proof. done. Qed.

(** What a cycle leaves in a deque is blocked in the state the cycle ends in. *)
Lemma walk_remaining_blocked (isBinderAlive : Listener → bool) (s : State) (l : Listener)
    (d : list TransactionStats) :
  walk (state (sendCallbacks isBinderAlive s)) l (walk s l d).2 = ([], (walk s l d).2).
Proof.
  destruct (walk_prefix s l d) as (pre & _ & _ & _ & Hhead).
  destruct (walk s l d).2 as [|t rest]; [done|].
  apply walk_cons_blocked. specialize (Hhead t eq_refl).
  unfold deliverable in *.
  rewrite isRegisteringTransaction_sendCallbacks, isPending_sendCallbacks.
  cbn [sendCallbacks state mPresentFence].
  destruct (isRegisteringTransaction s l (callbackIds t)); [done|].
  destruct (isPending s l (callbackIds t)); [done|].
  by destruct (needsPresentFence t).
Qed.

Lemma sendListener_remaining (isBinderAlive : Listener → bool) (s : State) (l : Listener)
    (d d' : list TransactionStats) :
  (sendListener isBinderAlive s l d).1 = Some d' → d' = (walk s l d).2.
Proof.
  unfold sendListener. destruct (walk s l d) as [b r]. cbn [snd].
  destruct b; [by intros [= <-]|].
  destruct (isBinderAlive l); [|done]. by destruct r; [|intros [= <-]].
Qed.

Lemma mjoin_nil {A B} (f : A → list B) (xs : list A) :
  Forall (λ x, f x = []) xs → mjoin (f <$> xs) = [].
Proof.
  induction 1 as [|x xs Hx _ IH]; [done|].
  rewrite fmap_cons. change (f x ++ mjoin (f <$> xs) = []). by rewrite Hx, IH.
Qed.

(** X13: A dispatch cycle that follows another one directly does nothing: it makes
    no call and leaves the state as it is, whatever the listeners' liveness. *)
Theorem second_dispatch_does_nothing (isBinderAlive isBinderAlive' : Listener → bool)
    (s : State) :
  sendCallbacks isBinderAlive' (state (sendCallbacks isBinderAlive s))
  = mkOut () (state (sendCallbacks isBinderAlive s)) [].
Proof.
  set (s' := state (sendCallbacks isBinderAlive s)).
  assert (Hstay : ∀ l d', mCompletedTransactions s' !! l = Some d' →
                          sendListener isBinderAlive' s' l d' = (Some d', [])).
  { intros l d' Hl. subst s'. rewrite sendCallbacks_lookup in Hl.
    destruct (mCompletedTransactions s !! l) as [d|]; [|done]. cbn in Hl.
    apply sendListener_remaining in Hl as ->.
    unfold sendListener. by rewrite walk_remaining_blocked. }
  unfold sendCallbacks at 1. f_equal.
  - assert (Hmap : map_imap (λ l d', (sendListener isBinderAlive' s' l d').1)
                            (mCompletedTransactions s') = mCompletedTransactions s').
    { apply map_eq. intros l. rewrite map_lookup_imap.
      destruct (mCompletedTransactions s' !! l) as [d'|] eqn:Hl; [|done].
      change ((sendListener isBinderAlive' s' l d').1 = Some d').
      by rewrite (Hstay l d' Hl). }
    rewrite Hmap. by subst s'.
  - apply mjoin_nil, Forall_forall. intros [l d'] Hin%elem_of_map_to_list.
    change ((sendListener isBinderAlive' s' l d').2 = []).
    by rewrite (Hstay l d' Hin).
Qed.

(** X14: A listener found dead in a cycle that would have notified it loses its
    whole ledger entry, deliverable transactions and blocked ones alike; the
    cycle makes no call on it; its pending counts and open registrations stay
    as they are; and a handle naming the listener that comes next is refused
    with BAD_VALUE by each of the methods that take one. *)
Theorem dead_listener_is_purged (isBinderAlive : Listener → bool) (s : State)
    (l : Listener) (t : TransactionStats) (rest : list TransactionStats) :
  mCompletedTransactions s !! l = Some (t :: rest) →
  deliverable s l t = true →
  isBinderAlive l = false →
  let out := sendCallbacks isBinderAlive s in
  mCompletedTransactions (state out) !! l = None ∧
  (UnlinkToDeath l ∉ effects out) ∧
  (∀ batch, OnTransactionCompleted l batch ∉ effects out) ∧
  mPendingTransactions (state out) = mPendingTransactions s ∧
  mRegisteringTransactions (state out) = mRegisteringTransactions s ∧
  (∀ handle jankData, CallbackHandle.listener handle = l →
     (∃ s' e, registerPendingCallbackHandle handle (state out) = Ret (mkOut BAD_VALUE s' e)) ∧
     (∃ s' e, finalizeCallbackHandle handle jankData (state out)
              = Ret (mkOut BAD_VALUE s' e)) ∧
     (∃ s' e, registerUnpresentedCallbackHandle handle (state out)
              = Ret (mkOut BAD_VALUE s' e))).
Proof.
  intros Hl Hdeliv Hdead out.
  assert (Hgone : mCompletedTransactions (state out) !! l = None).
  { subst out. rewrite sendCallbacks_lookup, Hl. cbn. unfold sendListener.
    rewrite walk_cons_moved by done. by rewrite Hdead. }
  split_and!; [done| | |done|done|].
  - intros (l0 & d & _ & Hin)%sendCallbacks_effects.
    apply sendListener_unlinks in Hin as (<- & _ & _ & Halive). congruence.
  - intros batch (d & _ & _ & _ & Halive)%sendCallbacks_delivers. congruence.
  - intros handle jankData <-.
    set (s' := state out) in *.
    assert (Hd : ∀ s0, mCompletedTransactions s0 = mCompletedTransactions s' →
                       dequeOf s0 (CallbackHandle.listener handle) = []).
    { intros s0 Hs0. unfold dequeOf. by rewrite Hs0, Hgone. }
    split_and!.
    + unfold registerPendingCallbackHandle.
      rewrite findTransactionStats_no_entry by by apply Hd. eauto.
    + unfold finalizeCallbackHandle.
      destruct (decrementPending _ _ _) as [pending' weffs].
      unfold addCallbackHandle.
      rewrite findTransactionStats_no_entry by by apply Hd.
      rewrite bool_decide_eq_true_2 by done. eauto.
    + unfold registerUnpresentedCallbackHandle, addCallbackHandle.
      rewrite findTransactionStats_no_entry by by apply Hd. eauto.
Qed.

(** X15: The destructor unlinks exactly the listeners that have a ledger entry,
    each of them once; a listener unlinked by a dispatch cycle is not
    unlinked again by a destructor that runs after the cycle. *)
Theorem destructor_unlinks_ledger_listeners_once (s : State) :
  (∀ e, e ∈ destructor s ↔
        ∃ l, e = UnlinkToDeath l ∧ is_Some (mCompletedTransactions s !! l)) ∧
  NoDup (destructor s) ∧
  (∀ isBinderAlive l,
     UnlinkToDeath l ∈ effects (sendCallbacks isBinderAlive s) →
     UnlinkToDeath l ∉ destructor (state (sendCallbacks isBinderAlive s))).
Proof.
  assert (Hmem : ∀ s0 e, e ∈ destructor s0 ↔
            ∃ l, e = UnlinkToDeath l ∧ is_Some (mCompletedTransactions s0 !! l)).
  { intros s0 e. unfold destructor. rewrite list_elem_of_fmap. split.
    - intros ([l d] & -> & Hin%elem_of_map_to_list). exists l. by split; [|exists d].
    - intros (l & -> & [d Hd]). exists (l, d). by split; [|apply elem_of_map_to_list]. }
  split_and!; [apply Hmem| |].
  - unfold destructor.
    pose proof (NoDup_fst_map_to_list (mCompletedTransactions s)) as Hnd.
    replace ((λ entry : nat * list TransactionStats, UnlinkToDeath entry.1)
               <$> map_to_list (mCompletedTransactions s))
      with (UnlinkToDeath <$> (map_to_list (mCompletedTransactions s)).*1)
      by (by rewrite <- list_fmap_compose).
    apply NoDup_fmap_2; [|done]. by intros l1 l2 [= ->].
  - intros alive l (l0 & d & Hd & Hin)%sendCallbacks_effects (l1 & [= <-] & Hsome)%Hmem.
    apply sendListener_unlinks in Hin as (<- & Hb & Hr & Halive).
    rewrite sendCallbacks_lookup, Hd in Hsome. cbn in Hsome.
    unfold sendListener in Hsome. destruct (walk s l d) as [b r]. cbn [fst snd] in *.
    subst r. destruct b; [done|]. rewrite Halive in Hsome. by destruct Hsome.
Qed.

(** ** More on runs *)

(** What a call of a run is: one of the four methods that take no handle, or
    a method that takes handles. *)
Lemma step_inv (op : Op) (s s' : State) (e : list Effect) :
  step op s = Ret (s', e) →
  match op with
  | OpStartRegistration linkToDeath lc =>
      s' = state (startRegistration linkToDeath lc s) ∧
      e = effects (startRegistration linkToDeath lc s)
  | OpEndRegistration lc =>
      s' = state (endRegistration lc s) ∧ e = effects (endRegistration lc s)
  | OpAddPresentFence fence => s' = withPresentFence s fence ∧ e = []
  | OpSendCallbacks isBinderAlive =>
      s' = state (sendCallbacks isBinderAlive s) ∧
      e = effects (sendCallbacks isBinderAlive s)
  | _ => handles_only s s' e
  end.
Proof.
  destruct op as [linkToDeath lc|lc|handle|handles|handles jankData|handle|fence|alive];
    cbn [step forget].
  - by intros [= <- <-].
  - by intros [= <- <-].
  - destruct (registerPendingCallbackHandle handle s) as [o|] eqn:Hop; [|done].
    intros [= <- <-]. by eapply registerPendingCallbackHandle_handles_only.
  - destruct (finalizeOnCommitCallbackHandles handles s) as [o|] eqn:Hop; [|done].
    intros [= <- <-]. by eapply finalizeOnCommitCallbackHandles_handles_only.
  - destruct (finalizePendingCallbackHandles handles jankData s) as [o|] eqn:Hop; [|done].
    intros [= <- <-]. by eapply finalizePendingCallbackHandles_handles_only.
  - destruct (registerUnpresentedCallbackHandle handle s) as [o|] eqn:Hop; [|done].
    intros [= <- <-]. by eapply addCallbackHandle_handles_only.
  - by intros [= <- <-].
  - by intros [= <- <-].
Qed.

Lemma run_invariant_on (R : Op → Prop) (P : State → Prop) (Q : Effect → Prop) :
  (∀ op s s' e, R op → P s → step op s = Ret (s', e) → P s' ∧ Forall Q e) →
  ∀ ops s, Forall R ops → P s → P (run ops s).1 ∧ Forall Q (run ops s).2.
Proof.
  intros Hstep ops. induction ops as [|op ops IH]; intros s Hops Hs; [by split|].
  apply Forall_cons in Hops as [Hop Hops]. cbn [run].
  destruct (step op s) as [[s1 e]|] eqn:Hs1; [|by split].
  destruct (Hstep op s s1 e Hop Hs Hs1) as [Hs1' He].
  specialize (IH s1 Hops Hs1'). destruct (run ops s1) as [s2 e2]. cbn [fst snd] in *.
  split; [tauto|]. apply Forall_app. tauto.
Qed.

Lemma delivered_logs (l : Listener) (e : list Effect) : Forall isLog e → delivered l e = [].
Proof. induction 1 as [|[| | | |] e He _ IH]; done. Qed.

Lemma startRegistration_cases (linkToDeath : Listener → status_t) (l : Listener)
    (ids : list CallbackId) (s : State) :
  let out := startRegistration linkToDeath (l, ids) s in
  (state out = s ∨ state out = registered s l ids ∨
   state out = withRegistering s (mRegisteringTransactions s ++ [(l, ids)])) ∧
  Forall (λ e, ∀ l' batch, e ≠ OnTransactionCompleted l' batch) (effects out).
Proof.
  destruct (set_contains (l, ids) (mRegisteringTransactions s)) eqn:Hopen; cbn zeta.
  { rewrite startRegistration_open by done. split; [by left | constructor]. }
  rewrite startRegistration_fresh by done.
  destruct (mCompletedTransactions s !! l).
  - split; [by right; left | constructor].
  - destruct (bool_decide (linkToDeath l ≠ NO_ERROR)); cbn [state effects].
    + split; [by right; right | by repeat constructor].
    + split; [by right; left | by repeat constructor].
Qed.

(** X16: A present fence serves one dispatch cycle: in the calls that follow a
    cycle, as long as [addPresentFence] is not among them, no notification
    carries a transaction that needs a present fence (one that is latched
    and not led by a commit callback). *)
Theorem present_fence_serves_one_cycle (isBinderAlive : Listener → bool) (s : State)
    (ops : list Op) (l : Listener) (batch : list TransactionStats) (t : TransactionStats) :
  Forall (λ op, ¬ isAddPresentFence op) ops →
  OnTransactionCompleted l batch ∈ (run ops (state (sendCallbacks isBinderAlive s))).2 →
  t ∈ batch →
  needsPresentFence t = false.
Proof.
  intros Hops Hin Ht.
  pose (Q := λ e : Effect, ∀ l batch t, e = OnTransactionCompleted l batch → t ∈ batch →
                                        needsPresentFence t = false).
  assert (Hinv : Forall Q (run ops (state (sendCallbacks isBinderAlive s))).2).
  { apply (run_invariant_on (λ op, ¬ isAddPresentFence op) (λ s, mPresentFence s = None) Q);
      [|done..].
    clear. intros op s s' e Hop Hs Hstep. apply step_inv in Hstep.
    destruct op as [linkToDeath [l ids]|lc|handle|handles|handles jankData|handle|fence|alive];
      try (destruct Hstep as (_ & Hfence & _ & _ & _ & Hlog); split; [congruence|];
           eapply Forall_impl; [exact Hlog|]; by intros [] ? ? ? ?).
    - destruct Hstep as [-> ->].
      destruct (startRegistration_cases linkToDeath l ids s) as [Hst He]. split.
      + by destruct Hst as [->|[->| ->]].
      + eapply Forall_impl; [exact He|]. intros e H l' batch t ->. by destruct (H l' batch).
    - destruct Hstep as [-> ->]. unfold endRegistration.
      destruct (set_contains lc _); cbn [state effects]; split; try done.
      repeat constructor. by intros ? ? ? ?.
    - by destruct Hop.
    - destruct Hstep as [-> ->]. split; [done|]. apply Forall_forall.
      intros e He l batch t ->. apply sendCallbacks_delivers in He as (d & _ & -> & _ & _).
      destruct (walk_prefix s l d) as (pre & _ & -> & Hall & _).
      intros (t0 & -> & Ht0)%list_elem_of_fmap. rewrite needsPresentFence_stamp.
      rewrite Forall_forall in Hall. apply Hall, deliverable_inv in Ht0 as (_ & _ & Hneeds).
      destruct (needsPresentFence t0); [|done]. rewrite Hs in Hneeds.
      by destruct (Hneeds eq_refl). }
  rewrite Forall_forall in Hinv. by eapply (Hinv _ Hin).
Qed.

Lemma key_stamp (s : State) (ts : list TransactionStats) : key <$> (stamp s <$> ts) = key <$> ts.
Proof.
  rewrite <- list_fmap_compose. apply list_fmap_ext. intros _ t _. unfold key; cbn.
  by rewrite serial_stamp, callbackIds_stamp.
Qed.

Lemma key_same_transaction (d' d : list TransactionStats) :
  Forall2 same_transaction d' d → key <$> d' = key <$> d.
Proof.
  induction 1 as [|t' t d' d (Hids & _ & Hserial) _ IH]; [done|].
  rewrite !fmap_cons, IH. unfold key. by rewrite Hids, Hserial.
Qed.

(** A live listener gets, or still has, everything a cycle finds in its
    deque. *)
Lemma sendListener_alive (isBinderAlive : Listener → bool) (s : State) (l : Listener)
    (d : list TransactionStats) :
  isBinderAlive l = true →
  key <$> (delivered l (sendListener isBinderAlive s l d).2
           ++ default [] (sendListener isBinderAlive s l d).1) = key <$> d.
Proof.
  intros Halive.
  assert (Heq : delivered l (sendListener isBinderAlive s l d).2
                ++ default [] (sendListener isBinderAlive s l d).1
                = (walk s l d).1 ++ (walk s l d).2).
  { unfold sendListener. destruct (walk s l d) as [b r]. cbn [fst snd].
    destruct b as [|t b]; [done|]. rewrite Halive.
    destruct r; cbn [fst snd delivered default]; rewrite bool_decide_eq_true_2 by done;
      by rewrite ?app_nil_r. }
  destruct (walk_prefix s l d) as (pre & Hd & Hb & _).
  rewrite Heq, Hb, fmap_app, key_stamp, <- fmap_app. by rewrite <- Hd.
Qed.

Lemma step_keeps (op : Op) (s s' : State) (e : list Effect) (l : Listener) :
  finds_alive l op → step op s = Ret (s', e) →
  key <$> dequeOf s l `prefix_of` key <$> (delivered l e ++ dequeOf s' l).
Proof.
  intros Halive Hstep. apply step_inv in Hstep.
  destruct op as [linkToDeath [l0 ids]|lc|handle|handles|handles jankData|handle|fence|alive];
    try (destruct Hstep as (_ & _ & _ & Hd & _ & Hlog);
         rewrite (delivered_logs l e Hlog), app_nil_l, (key_same_transaction _ _ (Hd l));
         done).
  - destruct Hstep as [-> ->].
    destruct (startRegistration_cases linkToDeath l0 ids s) as [Hst He].
    assert (Hnone : delivered l (effects (startRegistration linkToDeath (l0, ids) s)) = []).
    { clear -He. induction He as [|[| |l' batch| |] e H _ IH]; try done.
      by destruct (H l' batch). }
    rewrite Hnone, app_nil_l. destruct Hst as [->|[->| ->]]; [done| |done].
    rewrite dequeOf_registered. destruct (decide (l0 = l)) as [->|]; [|done].
    rewrite fmap_app. by apply prefix_app_r.
  - destruct Hstep as [-> ->]. unfold endRegistration.
    by destruct (set_contains lc _).
  - by destruct Hstep as [-> ->].
  - destruct Hstep as [-> ->]. cbn in Halive.
    rewrite delivered_sendCallbacks. unfold dequeOf. rewrite sendCallbacks_lookup.
    destruct (mCompletedTransactions s !! l) as [d|]; [|done]. cbn [mbind option_bind default].
    by rewrite sendListener_alive.
Qed.

(** X17: A listener that every dispatch cycle of a run finds alive loses no
    transaction.  Take what was delivered to it during the run, followed by
    what its deque holds after the run: the transactions of its deque before
    the run are the first of these, in the same order, with nothing before or
    between them.  A transaction is identified by its registration serial
    and its callback ids. *)
Theorem live_listener_loses_nothing (ops : list Op) (s : State) (l : Listener) :
  Forall (finds_alive l) ops →
  key <$> dequeOf s l
  `prefix_of` key <$> (delivered l (run ops s).2 ++ dequeOf (run ops s).1 l).
Proof.
  revert s. induction ops as [|op ops IH]; intros s Hops; [done|].
  apply Forall_cons in Hops as [Hop Hops]. cbn [run].
  destruct (step op s) as [[s1 e]|] eqn:Hs1; [|done].
  pose proof (step_keeps op s s1 e l Hop Hs1) as Hstep.
  specialize (IH s1 Hops). destruct (run ops s1) as [s2 e2]. cbn [fst snd] in *.
  etrans; [exact Hstep|].
  rewrite delivered_app, <- app_assoc, !(fmap_app key (delivered l e)).
  by apply prefix_app.
Qed.

(** ** The loops over handles *)

(** X18: [finalizeOnCommitCallbackHandles] finalizes the handles led by a commit
    callback, in their order and with no jank data, exactly as
    [finalizePendingCallbackHandles] does on the list of those handles: same
    status, same state, same log, undefined together.  The handles it gives
    back are the other handles in their order: all of them on NO_ERROR;
    otherwise exactly those that stand before the failing handle, which is
    the first commit-led handle whose finalize fails after the commit-led
    handles before it have succeeded. *)
Theorem finalizeOnCommitCallbackHandles_splits (handles : list CallbackHandle.t)
    (s : State) :
  match finalizePendingCallbackHandles (List.filter isOnCommitHandle handles) [] s with
  | UB => finalizeOnCommitCallbackHandles handles s = UB
  | Ret (mkOut err s' e) =>
      ∃ remaining,
        finalizeOnCommitCallbackHandles handles s = Ret (mkOut (err, remaining) s' e) ∧
        remaining `prefix_of` List.filter (λ h, negb (isOnCommitHandle h)) handles ∧
        (err = NO_ERROR → remaining = List.filter (λ h, negb (isOnCommitHandle h)) handles) ∧
        (err ≠ NO_ERROR →
         ∃ before failing after s0 e0 e1,
           handles = before ++ failing :: after ∧
           isOnCommitHandle failing = true ∧
           finalizePendingCallbackHandles (List.filter isOnCommitHandle before) [] s
           = Ret (mkOut NO_ERROR s0 e0) ∧
           finalizeCallbackHandle failing [] s0 = Ret (mkOut err s' e1) ∧
           e = e0 ++ e1 ∧
           remaining = List.filter (λ h, negb (isOnCommitHandle h)) before)
  end.
Proof.
  revert s. induction handles as [|handle rest IH]; intros s.
  { cbn. exists []. by split_and!. }
  cbn [List.filter finalizeOnCommitCallbackHandles].
  change (containsOnCommitCallbacks (CallbackHandle.callbackIds handle))
    with (isOnCommitHandle handle).
  destruct (isOnCommitHandle handle) eqn:Hc; cbn [negb].
  - cbn [finalizePendingCallbackHandles].
    destruct (finalizeCallbackHandle handle [] s) as [[err s1 e1]|] eqn:Hfin; [|done].
    destruct (bool_decide (err ≠ NO_ERROR)) eqn:Herr.
    + exists []. split_and!; [done|apply prefix_nil| |].
      * intros ->. by apply bool_decide_eq_true_1 in Herr.
      * intros _. exists [], handle, rest, s, [], e1. by split_and!.
    + specialize (IH s1).
      destruct (finalizePendingCallbackHandles _ [] s1) as [[err2 s2 e2]|].
      * destruct IH as (remaining & -> & Hpre & Hall & Hfail). exists remaining.
        split_and!; [done..|]. intros Herr2.
        destruct (Hfail Herr2) as (before & failing & after & s0 & e0 & e1' &
                                   -> & Hfc & Hbefore & Hfailing & -> & ->).
        exists (handle :: before), failing, after, s0, (e1 ++ e0), e1'.
        split_and!; [done|done| |done|by rewrite app_assoc|].
        -- cbn [List.filter]. rewrite Hc. cbn [finalizePendingCallbackHandles].
           by rewrite Hfin, Herr, Hbefore.
        -- cbn [List.filter]. by rewrite Hc.
      * by rewrite IH.
  - specialize (IH s).
    destruct (finalizePendingCallbackHandles _ [] s) as [[err2 s2 e2]|].
    + destruct IH as (remaining & -> & Hpre & Hall & Hfail). exists (handle :: remaining).
      split_and!; [done|by apply prefix_cons|by intros Herr; rewrite Hall|].
      intros Herr2.
      destruct (Hfail Herr2) as (before & failing & after & s0 & e0 & e1' &
                                 -> & Hfc & Hbefore & Hfailing & -> & ->).
      exists (handle :: before), failing, after, s0, e0, e1'.
      split_and!; [done|done| |done|done|].
      * cbn [List.filter]. by rewrite Hc.
      * cbn [List.filter]. by rewrite Hc.
    + by rewrite IH.
Qed.

(** On a handle that is not led by a commit callback followed by a
    commit-led handle whose transaction was never registered, the handle
    given back is the first one. *)
Lemma finalizeOnCommitCallbackHandles_splits_witness :
  finalizeOnCommitCallbackHandles [handle7; handle5] s_pending7
  = Ret (mkOut (BAD_VALUE, [handle7]) s_pending7
           [ALOGW "there are more latched callbacks than there were registered callbacks";
            ALOGE "could not find transaction stats";
            ALOGE "could not add callback handle"]).
Proof.
  pose proof (finalizeOnCommitCallbackHandles_splits [handle7; handle5] s_pending7) as H.
  assert (Hcommit : finalizePendingCallbackHandles
                      (List.filter isOnCommitHandle [handle7; handle5]) [] s_pending7
                    = Ret (mkOut BAD_VALUE s_pending7
                             [ALOGW "there are more latched callbacks than there were registered callbacks";
                              ALOGE "could not find transaction stats";
                              ALOGE "could not add callback handle"]))
    by (vm_compute; reflexivity).
  rewrite Hcommit in H. destruct H as (remaining & Heq & _ & _ & Hfail).
  destruct Hfail as (before & failing & after & s0 & e0 & e1 & Hsplit & Hfc & _ & _ & _ & ->);
    [discriminate|].
  rewrite Heq. do 3 f_equal.
  destruct before as [|h before].
  - injection Hsplit as <- _. vm_compute in Hfc. discriminate Hfc.
  - injection Hsplit as <- Hrest. destruct before as [|h' before].
    + reflexivity.
    + injection Hrest as _ Hrest. by destruct before.
Defined.

Lemma findTransactionStats_logged (l : Listener) (ids : list CallbackId) (s s1 : State)
    (o : option nat) (e : list Effect) :
  findTransactionStats l ids s = Ret (mkOut o s1 e) →
  match o with
  | Some _ => e = []
  | None => e = [ALOGE "could not find transaction stats"]
  end.
Proof.
  unfold findTransactionStats.
  destruct (searchBackToFront ids _) as [[i|]|]; [| |done]; by intros [= <- <- <-].
Qed.

Lemma finalizeCallbackHandle_logged (handle : CallbackHandle.t) (jankData : list JankData)
    (s : State) (o : Out status_t) :
  finalizeCallbackHandle handle jankData s = Ret o → status_logged (value o) (effects o).
Proof.
  unfold finalizeCallbackHandle.
  pose proof (decrementPending_effects (CallbackHandle.listener handle)
                (CallbackHandle.callbackIds handle) (mPendingTransactions s)) as Hw.
  destruct (decrementPending _ _ _) as [pending' weffs]. cbn [snd] in Hw.
  assert (Hweffs : ∀ msg, ALOGE msg ∉ weffs).
  { intros msg. destruct (entryOf _ _ _).
    - rewrite Hw. apply not_elem_of_nil.
    - destruct Hw as [w ->]. by intros [=]%list_elem_of_singleton. }
  unfold addCallbackHandle.
  destruct (findTransactionStats _ _ _) as [[[i|] s1 e1]|] eqn:Hfind; [| |done];
    apply findTransactionStats_logged in Hfind as ->; cbn.
  - intros [= <-]. left. split; [done|]. intros msg. rewrite app_nil_r. apply Hweffs.
  - intros [= <-]. right. split; [done|]. cbn.
    apply elem_of_app. right. apply list_elem_of_here.
Qed.

Lemma status_logged_app (e1 e2 : list Effect) (err : status_t) :
  status_logged NO_ERROR e1 → status_logged err e2 → status_logged err (e1 ++ e2).
Proof.
  intros [[_ H1]|[[=] _]] [[-> H2]|[-> H2]].
  - left. split; [done|]. intros msg [?|?]%elem_of_app; [by eapply H1 | by eapply H2].
  - right. split; [done|]. apply elem_of_app. by right.
Qed.

(** X19: The methods that take handles return NO_ERROR or BAD_VALUE and nothing
    else; a call that returns NO_ERROR logs no error, and a call that returns
    BAD_VALUE has logged the lookup that failed. *)
Theorem handle_methods_fail_only_with_BAD_VALUE (s : State) :
  (∀ handle o, registerPendingCallbackHandle handle s = Ret o →
               status_logged (value o) (effects o)) ∧
  (∀ handle jankData o, finalizeCallbackHandle handle jankData s = Ret o →
                        status_logged (value o) (effects o)) ∧
  (∀ handles jankData o, finalizePendingCallbackHandles handles jankData s = Ret o →
                         status_logged (value o) (effects o)) ∧
  (∀ handles o, finalizeOnCommitCallbackHandles handles s = Ret o →
                status_logged (value o).1 (effects o)) ∧
  (∀ handle o, registerUnpresentedCallbackHandle handle s = Ret o →
               status_logged (value o) (effects o)).
Proof.
  assert (Hpending : ∀ handles jankData s o,
            finalizePendingCallbackHandles handles jankData s = Ret o →
            status_logged (value o) (effects o)).
  { clear. intros handles jankData. induction handles as [|handle rest IH]; intros s o.
    { intros [= <-]. left. split; [done|]. intros msg. apply not_elem_of_nil. }
    cbn [finalizePendingCallbackHandles].
    destruct (finalizeCallbackHandle handle jankData s) as [[err s1 e1]|] eqn:Hfin; [|done].
    apply finalizeCallbackHandle_logged in Hfin. cbn [value effects] in Hfin.
    destruct (bool_decide (err ≠ NO_ERROR)) eqn:Herr; [by intros [= <-]|].
    apply bool_decide_eq_false_1 in Herr. apply dec_stable in Herr as ->.
    destruct (finalizePendingCallbackHandles rest jankData s1) as [[err2 s2 e2]|] eqn:Hrest;
      [|done].
    intros [= <-]. apply IH in Hrest. by apply status_logged_app. }
  split_and!.
  - intros handle o. unfold registerPendingCallbackHandle.
    destruct (findTransactionStats _ _ _) as [[[i|] s1 e1]|] eqn:Hfind; [| |done];
      apply findTransactionStats_logged in Hfind as ->; intros [= <-].
    + left. split; [done|]. intros msg. apply not_elem_of_nil.
    + right. split; [done|]. apply list_elem_of_here.
  - intros handle jankData o. apply finalizeCallbackHandle_logged.
  - intros handles jankData o. apply Hpending.
  - intros handles o Hop. revert s o Hop. induction handles as [|handle rest IH]; intros s o.
    { intros [= <-]. left. split; [done|]. intros msg. apply not_elem_of_nil. }
    cbn [finalizeOnCommitCallbackHandles].
    destruct (negb _).
    + destruct (finalizeOnCommitCallbackHandles rest s) as [[[err rem] s1 e1]|] eqn:Hrest;
        [|done].
      intros [= <-]. by apply IH in Hrest.
    + destruct (finalizeCallbackHandle handle [] s) as [[err s1 e1]|] eqn:Hfin; [|done].
      apply finalizeCallbackHandle_logged in Hfin. cbn [value effects] in Hfin.
      destruct (bool_decide (err ≠ NO_ERROR)) eqn:Herr; [by intros [= <-]|].
      apply bool_decide_eq_false_1 in Herr. apply dec_stable in Herr as ->.
      destruct (finalizeOnCommitCallbackHandles rest s1) as [[[err2 rem] s2 e2]|] eqn:Hrest;
        [|done].
      intros [= <-]. apply IH in Hrest. by apply status_logged_app.
  - intros handle o. unfold registerUnpresentedCallbackHandle, addCallbackHandle.
    destruct (findTransactionStats _ _ _) as [[[i|] s1 e1]|] eqn:Hfind; [| |done];
      apply findTransactionStats_logged in Hfind as ->; intros [= <-].
    + left. split; [done|]. intros msg. apply not_elem_of_nil.
    + right. split; [done|]. apply list_elem_of_here.
Qed.

(** ** The life of one transaction *)

Lemma run_cons (op : Op) (ops : list Op) (s s1 : State) (e : list Effect) :
  step op s = Ret (s1, e) →
  run (op :: ops) s = ((run ops s1).1, e ++ (run ops s1).2).
Proof. intros Hstep. cbn [run]. rewrite Hstep. by destruct (run ops s1). Qed.

Lemma compareCallbackIds_refl (ids : list CallbackId) : compareCallbackIds ids ids = Ret 0.
Proof.
  destruct ids as [|k rest]; [done|]. cbn [compareCallbackIds].
  by rewrite Z.sub_diag.
Qed.

Lemma findTransactionStats_single (l : Listener) (t : TransactionStats) (s : State) :
  mCompletedTransactions s !! l = Some [t] →
  findTransactionStats l (callbackIds t) s = Ret (mkOut (Some 0%nat) s []).
Proof.
  intros Hl. unfold findTransactionStats. rewrite dequeOf_subscript.
  unfold subscript, dequeOf. rewrite Hl.
  change (reverse (default [] (Some [t]))) with [t]. cbn [searchBackToFront].
  by rewrite compareCallbackIds_refl.
Qed.

(** X20: The whole life of a transaction on a fresh dispatcher: registered,
    counted as pending, closed, finalized with the handle, and dispatched
    after a present fence was added.  Whatever the callback ids (an empty
    vector included) and the fields of the handle, every call is defined and
    the calls made on the listener are: one [linkToDeath], one notification
    with the one transaction, which carries the handle's latch time, its
    result record if the surface control is alive, and the present fence
    exactly if it needs one, and one [unlinkToDeath].  The dispatcher is
    empty again afterwards. *)
Theorem whole_life_of_a_transaction (linkToDeath : Listener → status_t)
    (isBinderAlive : Listener → bool) (handle : CallbackHandle.t)
    (jankData : list JankData) (fence : Fence) :
  let l := CallbackHandle.listener handle in
  let ids := CallbackHandle.callbackIds handle in
  let t := foldHandle handle jankData (newTransactionStats ids 0) in
  linkToDeath l = NO_ERROR →
  isBinderAlive l = true →
  run [OpStartRegistration linkToDeath (l, ids);
       OpRegisterPendingCallbackHandle handle;
       OpEndRegistration (l, ids);
       OpFinalizePendingCallbackHandles [handle] jankData;
       OpAddPresentFence (Some fence);
       OpSendCallbacks isBinderAlive] initial
  = (mkState [] ∅ ∅ None 1,
     [LinkToDeath l NO_ERROR;
      OnTransactionCompleted l
        [if needsPresentFence t then setPresentFence (Some fence) t else t];
      UnlinkToDeath l]).
Proof.
  intros l ids t Hlink Halive.
  set (t0 := newTransactionStats ids 0).
  set (p2 := {[l := {[ids := 1]}]} : gmap nat (gmap (list CallbackId) Z)).
  set (s1 := mkState [(l, ids)] ∅ {[l := [t0]]} None 1).
  set (s2 := mkState [(l, ids)] p2 {[l := [t0]]} None 1).
  set (s3 := mkState [] p2 {[l := [t0]]} None 1).
  set (s4 := mkState [] ∅ {[l := [t]]} None 1).
  set (s5 := mkState [] ∅ {[l := [t]]} (Some fence) 1).
  set (t' := if needsPresentFence t then setPresentFence (Some fence) t else t).
  assert (H1 : step (OpStartRegistration linkToDeath (l, ids)) initial
               = Ret (s1, [LinkToDeath l NO_ERROR])).
  { cbn [step forget]. rewrite startRegistration_fresh by done.
    unfold registered, dequeOf. cbn [initial mCompletedTransactions mRegisteringTransactions
      mPendingTransactions mPresentFence mNextSerial].
    rewrite lookup_empty, Hlink, bool_decide_eq_false_2 by (by intros []).
    cbn [state effects default app]. by rewrite insert_empty. }
  assert (Hfind : ∀ s, mCompletedTransactions s = {[l := [t0]]} →
                       findTransactionStats l ids s = Ret (mkOut (Some 0%nat) s [])).
  { intros s Hs. apply (findTransactionStats_single l t0 s).
    rewrite Hs. apply lookup_singleton_eq. }
  assert (H2 : step (OpRegisterPendingCallbackHandle handle) s1 = Ret (s2, [])).
  { cbn [step forget].
    rewrite (registerPendingCallbackHandle_resolved handle s1 s1 0 []) by by apply Hfind.
    fold l ids. unfold entryOf, withPending.
    cbn [s1 mCompletedTransactions mRegisteringTransactions mPendingTransactions
         mPresentFence mNextSerial state effects].
    rewrite lookup_empty. cbn [mbind option_bind default].
    by rewrite !insert_empty. }
  assert (H3 : step (OpEndRegistration (l, ids)) s2 = Ret (s3, [])).
  { cbn [step forget]. by destruct (endRegistration_last l ids [] s2 eq_refl eq_refl) as [_ ->]. }
  assert (Hdec : decrementPending l ids p2 = (∅, [])).
  { unfold decrementPending, p2. rewrite lookup_singleton_eq, lookup_singleton_eq.
    change (uint32 (1 - 1) =? 0) with true. cbn iota.
    by rewrite delete_singleton_eq, map_size_empty, delete_singleton_eq. }
  assert (H4 : step (OpFinalizePendingCallbackHandles [handle] jankData) s3 = Ret (s4, [])).
  { cbn [step forget finalizePendingCallbackHandles].
    rewrite (finalizeCallbackHandle_resolved handle jankData s3 s3 0 []) by by apply Hfind.
    fold l ids. rewrite bool_decide_eq_false_2 by (by intros []).
    unfold dequeOf.
    cbn [s3 mCompletedTransactions mRegisteringTransactions mPendingTransactions
         mPresentFence mNextSerial state effects].
    rewrite Hdec, lookup_singleton_eq. cbn [fst snd default alter list_alter app].
    by rewrite insert_singleton_eq. }
  assert (H5 : step (OpAddPresentFence (Some fence)) s4 = Ret (s5, [])) by done.
  assert (Hsend : sendListener isBinderAlive s5 l [t]
                  = (None, [OnTransactionCompleted l [t']; UnlinkToDeath l])).
  { unfold sendListener. cbn [walk]. unfold isRegisteringTransaction, isPending.
    cbn [s5 mRegisteringTransactions mPendingTransactions mPresentFence set_contains existsb].
    rewrite lookup_empty, Halive. subst t'. by destruct (needsPresentFence t). }
  assert (H6 : step (OpSendCallbacks isBinderAlive) s5
               = Ret (mkState [] ∅ ∅ None 1,
                      [OnTransactionCompleted l [t']; UnlinkToDeath l])).
  { cbn [step forget]. unfold sendCallbacks.
    cbn [s5 mCompletedTransactions mRegisteringTransactions mPendingTransactions
         mPresentFence mNextSerial state effects].
    rewrite map_to_list_singleton, <- insert_empty.
    rewrite map_imap_insert_None by by rewrite Hsend.
    rewrite map_imap_empty, delete_empty.
    cbn [fmap list_fmap fst snd]. by rewrite Hsend. }
  rewrite (run_cons _ _ _ _ _ H1), (run_cons _ _ _ _ _ H2), (run_cons _ _ _ _ _ H3),
    (run_cons _ _ _ _ _ H4), (run_cons _ _ _ _ _ H5), (run_cons _ _ _ _ _ H6).
  done.
Qed.

(** ** Listeners do not interfere *)

Lemma walk_ext (s s' : State) (l : Listener) (d : list TransactionStats) :
  (∀ ids, isRegisteringTransaction s l ids = isRegisteringTransaction s' l ids) →
  (∀ ids, isPending s l ids = isPending s' l ids) →
  mPresentFence s = mPresentFence s' →
  walk s l d = walk s' l d.
Proof.
  intros Hreg Hpend Hfence. induction d as [|t d IH]; [done|].
  cbn [walk]. by rewrite Hreg, Hpend, Hfence, IH.
Qed.

(** X21: What a dispatch cycle does for a listener depends on nothing but that
    listener's deque, its open registrations, its pending counts, the present
    fence and whether it is alive: in two states that agree on these, the
    cycle delivers the same transactions to it and leaves it the same deque,
    whatever the other listeners' transactions are. *)
Theorem listeners_are_dispatched_independently (isBinderAlive isBinderAlive' : Listener → bool)
    (s s' : State) (l : Listener) :
  mCompletedTransactions s !! l = mCompletedTransactions s' !! l →
  (∀ ids, isRegisteringTransaction s l ids = isRegisteringTransaction s' l ids) →
  (∀ ids, isPending s l ids = isPending s' l ids) →
  mPresentFence s = mPresentFence s' →
  isBinderAlive l = isBinderAlive' l →
  delivered l (effects (sendCallbacks isBinderAlive s))
  = delivered l (effects (sendCallbacks isBinderAlive' s')) ∧
  mCompletedTransactions (state (sendCallbacks isBinderAlive s)) !! l
  = mCompletedTransactions (state (sendCallbacks isBinderAlive' s')) !! l ∧
  (UnlinkToDeath l ∈ effects (sendCallbacks isBinderAlive s) ↔
   UnlinkToDeath l ∈ effects (sendCallbacks isBinderAlive' s')).
Proof.
  intros Hl Hreg Hpend Hfence Halive.
  assert (Hsend : ∀ d, sendListener isBinderAlive s l d = sendListener isBinderAlive' s' l d).
  { intros d. unfold sendListener.
    by rewrite (walk_ext s s' l d Hreg Hpend Hfence), Halive. }
  assert (Hunlink : ∀ alive1 alive2 s1 s2,
            mCompletedTransactions s1 !! l = mCompletedTransactions s2 !! l →
            (∀ d, sendListener alive1 s1 l d = sendListener alive2 s2 l d) →
            UnlinkToDeath l ∈ effects (sendCallbacks alive1 s1) →
            UnlinkToDeath l ∈ effects (sendCallbacks alive2 s2)).
  { clear. intros alive1 alive2 s1 s2 Hl Hsend (l0 & d & Hd & Hin)%sendCallbacks_effects.
    assert (l0 = l) as -> by by apply sendListener_unlinks in Hin as (-> & _).
    apply sendCallbacks_effects. exists l, d. by rewrite <- Hl, <- Hsend. }
  split_and!.
  - rewrite !delivered_sendCallbacks, <- Hl.
    destruct (mCompletedTransactions s !! l) as [d|]; [|done]. by rewrite Hsend.
  - rewrite !sendCallbacks_lookup, <- Hl.
    destruct (mCompletedTransactions s !! l) as [d|]; [|done]. cbn. by rewrite Hsend.
  - split; [by apply Hunlink | by apply Hunlink].
Qed.

(** ** What the methods that take handles never do *)

(** X22: [registerPendingCallbackHandle], [finalizeCallbackHandle], the two
    finalize loops and [registerUnpresentedCallbackHandle], whether they
    succeed or fail, leave the registration set and the present fence as they
    are; they add no transaction to a deque, remove none and reorder none,
    and change neither the callback ids nor the present fence of any; they
    make no binder call, they only log. *)
Theorem handle_methods_keep_the_ledger_shape (s : State) :
  (∀ handle o, registerPendingCallbackHandle handle s = Ret o →
               handles_only s (state o) (effects o)) ∧
  (∀ handle jankData o, finalizeCallbackHandle handle jankData s = Ret o →
                        handles_only s (state o) (effects o)) ∧
  (∀ handles jankData o, finalizePendingCallbackHandles handles jankData s = Ret o →
                         handles_only s (state o) (effects o)) ∧
  (∀ handles o, finalizeOnCommitCallbackHandles handles s = Ret o →
                handles_only s (state o) (effects o)) ∧
  (∀ handle o, registerUnpresentedCallbackHandle handle s = Ret o →
               handles_only s (state o) (effects o)).
Proof.
  split_and!.
  - intros handle o. apply registerPendingCallbackHandle_handles_only.
  - intros handle jankData o. apply finalizeCallbackHandle_handles_only.
  - intros handles jankData o. apply finalizePendingCallbackHandles_handles_only.
  - intros handles o. apply finalizeOnCommitCallbackHandles_handles_only.
  - intros handle o. apply addCallbackHandle_handles_only.
Qed.

(** ** Where a delivered transaction comes from *)

Lemma Forall2_same_transaction_elem (d' d : list TransactionStats) (t : TransactionStats) :
  Forall2 same_transaction d' d → t ∈ d' →
  ∃ t0, t0 ∈ d ∧ callbackIds t = callbackIds t0.
Proof.
  intros Hd (i & Hi)%list_elem_of_lookup.
  destruct (Forall2_lookup_l _ _ _ _ _ Hd Hi) as (t0 & Ht0 & Hids & _).
  exists t0. split; [by eapply list_elem_of_lookup_2 | done].
Qed.

Lemma dequeOf_sendCallbacks (isBinderAlive : Listener → bool) (s : State) (l : Listener)
    (t : TransactionStats) :
  t ∈ dequeOf (state (sendCallbacks isBinderAlive s)) l → t ∈ dequeOf s l.
Proof.
  unfold dequeOf. rewrite sendCallbacks_lookup.
  destruct (mCompletedTransactions s !! l) as [d|]; [|done]. cbn [mbind option_bind].
  destruct (sendListener isBinderAlive s l d).1 as [d'|] eqn:Hd'; [|by intros ?%elem_of_nil].
  apply sendListener_remaining in Hd' as ->. cbn [default].
  destruct (walk_prefix s l d) as (pre & Hd & _). intros Ht. rewrite Hd.
  apply elem_of_app. by right.
Qed.

(** X23: Over every run from the empty dispatcher, a transaction delivered to a
    listener was registered in the run: [startRegistration] was called in it
    with this listener and the callback ids the transaction carries.  No
    other method creates a transaction, and none changes the callback ids of
    one. *)
Theorem delivered_transactions_were_registered (ops : list Op) (l : Listener)
    (batch : list TransactionStats) (t : TransactionStats) :
  OnTransactionCompleted l batch ∈ (run ops initial).2 →
  t ∈ batch →
  ∃ linkToDeath, OpStartRegistration linkToDeath (l, callbackIds t) ∈ ops.
Proof.
  intros Hin Ht.
  pose (R := λ (l : Listener) (ids : list CallbackId),
               ∃ linkToDeath, OpStartRegistration linkToDeath (l, ids) ∈ ops).
  pose (P := λ s : State, ∀ l t, t ∈ dequeOf s l → R l (callbackIds t)).
  pose (Q := λ e : Effect, ∀ l batch t, e = OnTransactionCompleted l batch → t ∈ batch →
                                        R l (callbackIds t)).
  assert (Hinv : P (run ops initial).1 ∧ Forall Q (run ops initial).2).
  { apply (run_invariant_on (λ op, op ∈ ops) P Q).
    - clear Hin Ht l batch t. intros op s s' e Hop Hs Hstep. apply step_inv in Hstep.
      destruct op as [linkToDeath [l ids]|lc|handle|handles|handles jankData|handle|fence|alive];
        try (destruct Hstep as (_ & _ & _ & Hd & _ & Hlog); split;
             [intros l t Ht;
              destruct (Forall2_same_transaction_elem _ _ t (Hd l) Ht) as (t0 & Ht0 & ->);
              by apply Hs
             |eapply Forall_impl; [exact Hlog|]; by intros [] ? ? ? ?]).
      + destruct Hstep as [-> ->].
        destruct (startRegistration_cases linkToDeath l ids s) as [Hst He]. split.
        * destruct Hst as [->|[->| ->]]; [done| |done].
          intros l' t. rewrite dequeOf_registered.
          destruct (decide (l = l')) as [<-|]; [|by apply Hs].
          intros [Ht|Ht]%elem_of_app; [by apply Hs|].
          apply list_elem_of_singleton in Ht as ->. by exists linkToDeath.
        * eapply Forall_impl; [exact He|]. intros e H l' batch t ->.
          by destruct (H l' batch).
      + destruct Hstep as [-> ->]. unfold endRegistration.
        destruct (set_contains lc _); cbn [state effects]; split; try done.
        repeat constructor. by intros ? ? ? ?.
      + by destruct Hstep as [-> ->].
      + destruct Hstep as [-> ->]. split.
        * intros l t Ht%dequeOf_sendCallbacks. by apply Hs.
        * apply Forall_forall.
          intros e He l batch t ->.
          apply sendCallbacks_delivers in He as (d & Hd & -> & _ & _).
          destruct (walk_prefix s l d) as (pre & Hpre & -> & _).
          intros (t0 & -> & Ht0)%list_elem_of_fmap. rewrite callbackIds_stamp.
          apply Hs. unfold dequeOf. rewrite Hd. cbn [default]. rewrite Hpre.
          apply elem_of_app. by left.
    - apply Forall_forall. by intros op Hop.
    - intros l' t'. unfold dequeOf, initial. cbn [mCompletedTransactions].
      rewrite lookup_empty. by intros ?%elem_of_nil. }
  destruct Hinv as [_ HQ]. rewrite Forall_forall in HQ. by eapply (HQ _ Hin).
Qed.

(** ** A batch of handles stops at the first failure *)

(** X24: [finalizePendingCallbackHandles] on a list of handles followed by more
    handles: if the list fails, the result is that of the list alone, and
    none of the further handles is finalized (their pending counts stay); if
    the list succeeds, the further handles are finalized from the state it
    leaves, and the logs follow one another. *)
Theorem finalizePendingCallbackHandles_stops_at_first_error
    (handles more : list CallbackHandle.t) (jankData : list JankData) (s : State)
    (o : Out status_t) :
  finalizePendingCallbackHandles handles jankData s = Ret o →
  finalizePendingCallbackHandles (handles ++ more) jankData s
  = if bool_decide (value o ≠ NO_ERROR) then Ret o
    else match finalizePendingCallbackHandles more jankData (state o) with
         | UB => UB
         | Ret (mkOut r s2 e2) => Ret (mkOut r s2 (effects o ++ e2))
         end.
Proof.
  revert s o. induction handles as [|handle rest IH]; intros s o.
  { intros [= <-]. cbn.
    by destruct (finalizePendingCallbackHandles more jankData s) as [[r s2 e2]|]. }
  cbn [finalizePendingCallbackHandles app].
  destruct (finalizeCallbackHandle handle jankData s) as [[err s1 e1]|]; [|done].
  destruct (bool_decide (err ≠ NO_ERROR)) eqn:Herr.
  { intros [= <-]. cbn [value]. by rewrite Herr. }
  destruct (finalizePendingCallbackHandles rest jankData s1) as [[r s2 e2]|] eqn:Hrest;
    [|done].
  intros [= <-]. rewrite (IH s1 _ Hrest). cbn [value state effects].
  destruct (bool_decide (r ≠ NO_ERROR)); [done|].
  destruct (finalizePendingCallbackHandles more jankData s2) as [[r3 s3 e3]|]; [|done].
  by rewrite app_assoc.
Qed.

(** ** The further statements on concrete dispatchers *)

Lemma findTransactionStats_most_recent_match_witness :
  (∃ t, dequeOf s_twice7 1 !! 1%nat = Some t ∧
        compareCallbackIds (callbackIds t) complete7 = Ret 0) ∧
  (∀ j t', (1 < j)%nat → dequeOf s_twice7 1 !! j = Some t' →
           ∃ c, compareCallbackIds (callbackIds t') complete7 = Ret c ∧ c ≠ 0).
Proof.
  apply (findTransactionStats_most_recent_match 1 complete7 s_twice7
           (mkOut (Some 1%nat) s_twice7 [])).
  vm_compute. reflexivity.
Defined.

Lemma findTransactionStats_defined_witness :
  ∃ o, findTransactionStats 1 complete7 s_pending7 = Ret o.
Proof.
  apply (findTransactionStats_defined 1 (mkCallbackId 7 ON_COMPLETE) [] s_pending7).
  intros t a Ht Ha. vm_compute in Ht. apply list_elem_of_singleton in Ht. subst t.
  vm_compute in Ha. injection Ha as <-. reflexivity.
Defined.

Lemma present_fence_exactly_when_needed_witness :
  is_Some (presentFence presented7) ↔ needsPresentFence presented7 = true.
Proof.
  apply (proj1 (present_fence_exactly_when_needed ops_presented7 1) [presented7] presented7).
  - vm_compute. apply list_elem_of_further, list_elem_of_further, list_elem_of_here.
  - apply list_elem_of_here.
Defined.

Lemma pending_table_has_no_empty_listener_witness :
  ∃ ids n, ({[complete7 := 1]} : gmap (list CallbackId) Z) !! ids = Some n.
Proof.
  apply (pending_table_has_no_empty_listener
           [OpStartRegistration linkOk (1%nat, complete7);
            OpRegisterPendingCallbackHandle handle7] 1).
  vm_compute. reflexivity.
Defined.

Lemma endRegistration_closes_one_witness :
  value (endRegistration (1%nat, complete7) s_twice7) = NO_ERROR.
Proof.
  apply (endRegistration_closes_one
           [OpStartRegistration linkOk (1%nat, complete7);
            OpEndRegistration (1%nat, complete7);
            OpStartRegistration linkOk (1%nat, complete7)] 1 complete7).
  vm_compute. reflexivity.
Defined.

Lemma start_then_end_restores_the_set_witness :
  isRegisteringTransaction
    (state (startRegistration linkFails (1%nat, complete7) s_done5)) 1 complete7 = true ∧
  endRegistration (1%nat, complete7)
    (state (startRegistration linkFails (1%nat, complete7) s_done5))
  = mkOut NO_ERROR
      (withRegistering (state (startRegistration linkFails (1%nat, complete7) s_done5))
         (mRegisteringTransactions s_done5)) [].
Proof.
  apply (start_then_end_restores_the_set linkFails 1 complete7 s_done5).
  vm_compute. reflexivity.
Defined.

Lemma failed_link_leaves_registration_open_witness :
  value (startRegistration linkFails (1%nat, complete7) initial) = -32.
Proof.
  apply (failed_link_leaves_registration_open linkFails linkOk 1 complete7 initial handle7).
  - vm_compute. reflexivity.
  - vm_compute. reflexivity.
  - vm_compute. discriminate.
  - reflexivity.
Defined.

Lemma empty_transaction_is_delivered_witness :
  OnTransactionCompleted 1 [newTransactionStats complete7 0]
  ∈ effects (sendCallbacks allAlive
               (state (endRegistration (1%nat, complete7)
                         (state (startRegistration linkOk (1%nat, complete7) initial))))).
Proof.
  apply (empty_transaction_is_delivered linkOk allAlive 1 complete7 initial).
  - vm_compute. reflexivity.
  - vm_compute. reflexivity.
  - vm_compute. reflexivity.
  - reflexivity.
  - reflexivity.
Defined.

Lemma registerPendingCallbackHandle_counts_and_blocks_witness :
  ∃ s', registerPendingCallbackHandle handle7 s_done5_open7 = Ret (mkOut NO_ERROR s' []) ∧
        entryOf (mPendingTransactions s') 1 complete7 = Some 1.
Proof.
  destruct (registerPendingCallbackHandle_counts_and_blocks handle7 s_done5_open7
              s_done5_open7 1 []) as (s' & Hreg & Hentry & _).
  - vm_compute. reflexivity.
  - exists s'. split; [exact Hreg | exact Hentry].
Defined.

Lemma register_then_finalize_restores_counts_witness :
  ∃ s' s'',
    registerPendingCallbackHandle handle7 s_done5_open7 = Ret (mkOut NO_ERROR s' []) ∧
    finalizeCallbackHandle handle7 [] s' = Ret (mkOut NO_ERROR s'' []) ∧
    entryOf (mPendingTransactions s'') 1 complete7
    = entryOf (mPendingTransactions s_done5_open7) 1 complete7.
Proof.
  destruct (register_then_finalize_restores_counts handle7 [] s_done5_open7
              s_done5_open7 1 []) as (s' & s'' & Hreg & Hfin & Hentry & _).
  - vm_compute. reflexivity.
  - intros n Hn. vm_compute in Hn. discriminate Hn.
  - exists s', s''. split; [exact Hreg|]. split; [exact Hfin | apply Hentry].
Defined.

Lemma unresolved_finalize_still_decrements_witness :
  ∃ s' effs',
    finalizeCallbackHandle handle8 [] s_pending7 = Ret (mkOut BAD_VALUE s' effs') ∧
    ALOGE "could not add callback handle" ∈ effs'.
Proof.
  destruct (unresolved_finalize_still_decrements handle8 [] s_pending7 s_pending7
              [ALOGE "could not find transaction stats"])
    as (s' & effs' & Hfin & _ & _ & _ & Hin).
  - vm_compute. reflexivity.
  - exists s', effs'. split; [exact Hfin | exact Hin].
Defined.

Lemma one_notification_per_listener_witness :
  [done5] ≠ [] ∧ delivered 1 (effects (sendCallbacks allAlive s_done5_open7)) = [done5].
Proof.
  apply (one_notification_per_listener allAlive s_done5_open7 1 [done5]).
  rewrite effects_s_done5_open7. apply list_elem_of_here.
Defined.

Lemma dead_listener_is_purged_witness :
  mCompletedTransactions (state (sendCallbacks noneAlive s_done5_open7)) !! 1%nat = None.
Proof.
  apply (dead_listener_is_purged noneAlive s_done5_open7 1 done5 [open7]).
  - vm_compute. reflexivity.
  - vm_compute. reflexivity.
  - reflexivity.
Defined.

Lemma present_fence_serves_one_cycle_witness : needsPresentFence done5_later = false.
Proof.
  apply (present_fence_serves_one_cycle allAlive s_presented7 ops_commit_only 1
           [done5_later] done5_later).
  - repeat (constructor; [by intros []|]). constructor.
  - vm_compute. apply list_elem_of_further, list_elem_of_further, list_elem_of_here.
  - apply list_elem_of_here.
Defined.

Lemma live_listener_loses_nothing_witness :
  key <$> dequeOf s_done5_open7 1
  `prefix_of` key <$> (delivered 1 (run [OpSendCallbacks allAlive] s_done5_open7).2
                       ++ dequeOf (run [OpSendCallbacks allAlive] s_done5_open7).1 1).
Proof.
  apply (live_listener_loses_nothing [OpSendCallbacks allAlive] s_done5_open7 1).
  repeat constructor.
Defined.

Lemma whole_life_of_a_transaction_witness :
  run [OpStartRegistration linkOk (1%nat, complete7);
       OpRegisterPendingCallbackHandle handle7;
       OpEndRegistration (1%nat, complete7);
       OpFinalizePendingCallbackHandles [handle7] [];
       OpAddPresentFence (Some 33%nat);
       OpSendCallbacks allAlive] initial
  = (mkState [] ∅ ∅ None 1,
     [LinkToDeath 1 NO_ERROR; OnTransactionCompleted 1 [presented7]; UnlinkToDeath 1]).
Proof.
  apply (whole_life_of_a_transaction linkOk allAlive handle7 [] 33%nat).
  - reflexivity.
  - reflexivity.
Defined.

Lemma listeners_are_dispatched_independently_witness :
  delivered 1 (effects (sendCallbacks allAlive s_done5_open7))
  = delivered 1 (effects (sendCallbacks allAlive s_done5_open7_other)).
Proof.
  apply (listeners_are_dispatched_independently allAlive allAlive
           s_done5_open7 s_done5_open7_other 1).
  - vm_compute. reflexivity.
  - intros ids. vm_compute. reflexivity.
  - intros ids. vm_compute. reflexivity.
  - reflexivity.
  - reflexivity.
Defined.

Lemma delivered_transactions_were_registered_witness :
  ∃ linkToDeath, OpStartRegistration linkToDeath (1%nat, complete7) ∈ ops_presented7.
Proof.
  apply (delivered_transactions_were_registered ops_presented7 1 [presented7] presented7).
  - vm_compute. apply list_elem_of_further, list_elem_of_further, list_elem_of_here.
  - apply list_elem_of_here.
Defined.

Lemma finalizePendingCallbackHandles_stops_at_first_error_witness :
  finalizePendingCallbackHandles ([handle8] ++ [handle7]) [] s_pending7
  = Ret (mkOut BAD_VALUE s_pending7
           [ALOGW "there are more latched callbacks than there were registered callbacks";
            ALOGE "could not find transaction stats";
            ALOGE "could not add callback handle"]).
Proof.
  rewrite (finalizePendingCallbackHandles_stops_at_first_error [handle8] [handle7] []
             s_pending7
             (mkOut BAD_VALUE s_pending7
                [ALOGW "there are more latched callbacks than there were registered callbacks";
                 ALOGE "could not find transaction stats";
                 ALOGE "could not add callback handle"])).
  - reflexivity.
  - vm_compute. reflexivity.
Defined.
